(** * D2Shared: the MPQ archive reader (package d2mpq)

    A shallow embedding of the archive engine of D2Shared: the string hash
    and the stream cipher, the loading of the hash and block tables, the
    lookup of a file by name, the per-archive content cache, the
    process-wide registry of opened archives and the listfile reader; and
    of the decoder of the frames of a sprite (package d2dc6).

    Conventions.
    - A Go [uint32] is a [Z] in [0, 2^32); every arithmetic operation
      writes its wrap-around out ([add32], [mul32], [shl32], [not32]).
    - A Go [string] is a [string] of bytes, a [[]byte] a [list ascii]; a
      rune is a [Z]. [range] over a string and the case mappings decode
      UTF-8 as Go does.
    - A Go result [(T, error)] is the pair [T * error], where
      [error := option string] and [None] is Go's [nil].
    - A run-time panic (index out of range, [log.Panic]) is the [Panic]
      branch of [outcome].
    - Mutable state (the content caches, the registry, the trace of the
      calls that reach the disk) is passed explicitly, in the monad [IO].
    - What the package takes from elsewhere is a parameter, given as a
      class: the keystream table ([Keystream]), the case tables of package
      unicode ([Unicode]), the operating system ([Platform]), the language
      code ([Resource]) and the sector extractor ([Extractor]).

    The first part holds the definitions, the second part the properties. *)

From Stdlib Require Import ZArith List String Ascii Bool Lia.
From stdpp Require Import base option list strings gmap.
Import ListNotations.

Local Open Scope string_scope.
Local Open Scope Z_scope.

(* ===================================================================== *)
(** * Machine integers                                                    *)
(* ===================================================================== *)

Module U32.

Definition modulus : Z := 2 ^ 32.

(** Conversion [uint32(x)]: keep the low 32 bits. *)
Definition wrap (x : Z) : Z := x mod modulus.

Definition add32 (a b : Z) : Z := wrap (a + b).
Definition mul32 (a b : Z) : Z := wrap (a * b).
Definition shl32 (a n : Z) : Z := wrap (Z.shiftl a n).
Definition shr32 (a n : Z) : Z := Z.shiftr a n.
(** Go's unary [^x] on a [uint32]. *)
Definition not32 (a : Z) : Z := Z.lxor a 0xFFFFFFFF.

End U32.
Import U32.

(* ===================================================================== *)
(** * Results of a call                                                   *)
(* ===================================================================== *)

(** A call either returns or panics. *)
Inductive outcome (A : Type) : Type :=
| Ret (a : A)
| Panic (msg : string).
Arguments Ret {A} a.
Arguments Panic {A} msg.

#[export] Instance outcome_ret : MRet outcome := @Ret.
#[export] Instance outcome_bind : MBind outcome := fun A B k m =>
  match m with
  | Ret a => k a
  | Panic msg => Panic msg
  end.

Definition returns {A} (m : outcome A) : Prop := exists a, m = Ret a.

(** Go's [error]: [None] is [nil]. *)
Definition error : Type := option string.
Definition errors_New (msg : string) : error := Some msg.

(** Indexing a slice, with Go's bounds check. *)
Definition index {A} (l : list A) (i : Z) : outcome A :=
  if i <? 0 then Panic "index out of range"
  else match l !! Z.to_nat i with
       | Some a => Ret a
       | None => Panic "index out of range"
       end.

(* ===================================================================== *)
(** * Bytes                                                               *)
(* ===================================================================== *)

Definition byteZ (c : ascii) : Z := Z.of_N (N_of_ascii c).
(** Conversion [uint8(x)]. *)
Definition Zbyte (z : Z) : ascii := ascii_of_N (Z.to_N (z mod 256)).

Definition is_byte (b : Z) : Prop := 0 <= b < 256.

(** [binary.LittleEndian.Uint32] and [Uint16]. *)
Definition le_uint32 (b0 b1 b2 b3 : ascii) : Z :=
  Z.lor (Z.lor (Z.lor (byteZ b0) (Z.shiftl (byteZ b1) 8))
               (Z.shiftl (byteZ b2) 16))
        (Z.shiftl (byteZ b3) 24).

Definition le_uint16 (b0 b1 : ascii) : Z :=
  Z.lor (byteZ b0) (Z.shiftl (byteZ b1) 8).

(** The little-endian words of a buffer whose length is a multiple of 4
    (bytes beyond the last whole word are not read). *)
Fixpoint le_words (data : list ascii) : list Z :=
  match data with
  | b0 :: b1 :: b2 :: b3 :: rest => le_uint32 b0 b1 b2 b3 :: le_words rest
  | _ => []
  end.

(* ===================================================================== *)
(** * The crypto engine                                                   *)
(* ===================================================================== *)

(** The keystream table. It is declared in another file of the package;
    its contents are a parameter: [CryptoBuffer i] is the entry at index
    [i]. *)
Class Keystream := { CryptoBuffer : Z -> Z }.

(** Modelled from the spec: the declaration of the table is missing; the
    spec gives it 0x500 entries (1280 words). *)
Definition CryptoBuffer_len : Z := 0x500.

Section Crypto.
Context {K : Keystream}.

(** Indexing [CryptoBuffer[i]] with Go's bounds check. *)
Definition CryptoBuffer_at (i : Z) : outcome Z :=
  if (0 <=? i) && (i <? CryptoBuffer_len) then Ret (CryptoBuffer i)
  else Panic "index out of range".

(** One iteration of the loop of [decrypt] on the word [w], from the
    seeds [(seed, seed2)]: the decrypted word and the next seeds. The
    index [0x400 + (seed & 0xff)] lies below [CryptoBuffer_len]. *)
Definition decrypt_step (seed seed2 w : Z) : Z * (Z * Z) :=
  let seed2 := add32 seed2 (CryptoBuffer (0x400 + Z.land seed 0xff)) in
  let result := Z.lxor w (add32 seed seed2) in
  let seed := Z.lor (add32 (shl32 (not32 seed) 21) 0x11111111)
                    (shr32 seed 11) in
  let seed2 := add32 (add32 (add32 result seed2) (shl32 seed2 5)) 3 in
  (result, (seed, seed2)).

Fixpoint decrypt_loop (seed seed2 : Z) (data : list Z) : list Z :=
  match data with
  | [] => []
  | w :: rest =>
      let '(result, (seed', seed2')) := decrypt_step seed seed2 w in
      result :: decrypt_loop seed' seed2' rest
  end.

(** [decrypt(data, seed)]: the contents of [data] after the call. *)
Definition decrypt (data : list Z) (seed : Z) : list Z :=
  decrypt_loop seed 0xeeeeeeee data.

(** The seeds [(seed, seed2)] at the head of each iteration of [decrypt],
    followed by the seeds after the last one. *)
Fixpoint decrypt_seeds_from (seed seed2 : Z) (data : list Z)
  : list (Z * Z) :=
  (seed, seed2) ::
  match data with
  | [] => []
  | w :: rest =>
      let '(_, (seed', seed2')) := decrypt_step seed seed2 w in
      decrypt_seeds_from seed' seed2' rest
  end.

Definition decrypt_seeds (data : list Z) (seed : Z) : list (Z * Z) :=
  decrypt_seeds_from seed 0xeeeeeeee data.

(** The loop [for i := 0; i < len(data)-3; i += 4] of [decryptBytes]: an
    iteration runs while four bytes are left from [i]. *)
Fixpoint decryptBytes_loop (seed seed2 : Z) (data : list ascii)
  : list ascii :=
  match data with
  | b0 :: b1 :: b2 :: b3 :: rest =>
      let '(result, (seed', seed2')) :=
        decrypt_step seed seed2 (le_uint32 b0 b1 b2 b3) in
      Zbyte (Z.land result 0xff)
      :: Zbyte (Z.land (Z.shiftr result 8) 0xff)
      :: Zbyte (Z.land (Z.shiftr result 16) 0xff)
      :: Zbyte (Z.land (Z.shiftr result 24) 0xff)
      :: decryptBytes_loop seed' seed2' rest
  | _ => data
  end.

(** [decryptBytes(data, seed)]: the contents of [data] after the call. *)
Definition decryptBytes (data : list ascii) (seed : Z) : list ascii :=
  decryptBytes_loop seed 0xEEEEEEEE data.

End Crypto.

(** The recurrence of the first seed of [decrypt], and the seeds it runs
    through in [n] steps. *)
Definition next_seed (seed : Z) : Z :=
  Z.lor (add32 (shl32 (not32 seed) 21) 0x11111111) (shr32 seed 11).

Fixpoint seed_schedule (n : nat) (seed : Z) : list Z :=
  seed :: match n with
          | O => []
          | S n' => seed_schedule n' (next_seed seed)
          end.

(** The four bytes of a word, in little-endian order. *)
Definition le_bytes (w : Z) : list ascii :=
  [ Zbyte (Z.land w 0xff);
    Zbyte (Z.land (Z.shiftr w 8) 0xff);
    Zbyte (Z.land (Z.shiftr w 16) 0xff);
    Zbyte (Z.land (Z.shiftr w 24) 0xff) ].

(* ===================================================================== *)
(** * Go strings                                                          *)
(* ===================================================================== *)

(** The functions of Go's standard library that the archive code calls on
    strings and paths. A string is a sequence of bytes; [range] and the
    case mappings see it as UTF-8. *)

(** The data of package unicode beyond ASCII, parameters here:
    [upperCase r] is [unicode.To(unicode.UpperCase, r)], [lowerCase r] is
    [unicode.To(unicode.LowerCase, r)], and [foldUnicode s t] is the rune by
    rune comparison under simple case folding with which [strings.EqualFold]
    goes on once it has met a byte outside ASCII. *)
Class Unicode := {
  upperCase : Z -> Z;
  lowerCase : Z -> Z;
  foldUnicode : string -> string -> bool
}.

Module GoString.

Definition bytes (s : string) : list Z :=
  map byteZ (list_ascii_of_string s).

Definition of_bytes (l : list Z) : string :=
  string_of_list_ascii (map Zbyte l).

(** ** UTF-8 *)

Definition RuneError : Z := 0xFFFD.
Definition MaxRune : Z := 0x10FFFF.
Definition RuneSelf : Z := 0x80.

Definition between (lo hi x : Z) : bool := (lo <=? x) && (x <=? hi).

(** A Unicode scalar value: what a well-formed encoding carries. *)
Definition valid_rune (r : Z) : bool :=
  between 0 MaxRune r && negb (between 0xD800 0xDFFF r).

(** The table [first] of package utf8 with its accept ranges: for a lead
    byte, the length of the sequence and the bounds of the second byte. *)
Definition utf8_first (s0 : Z) : option (Z * (Z * Z)) :=
  if between 0xC2 0xDF s0 then Some (2, (0x80, 0xBF))
  else if s0 =? 0xE0 then Some (3, (0xA0, 0xBF))
  else if between 0xE1 0xEC s0 then Some (3, (0x80, 0xBF))
  else if s0 =? 0xED then Some (3, (0x80, 0x9F))
  else if between 0xEE 0xEF s0 then Some (3, (0x80, 0xBF))
  else if s0 =? 0xF0 then Some (4, (0x90, 0xBF))
  else if between 0xF1 0xF3 s0 then Some (4, (0x80, 0xBF))
  else if s0 =? 0xF4 then Some (4, (0x80, 0x8F))
  else None.

Definition rune2 (s0 s1 : Z) : Z :=
  Z.lor (Z.shiftl (Z.land s0 0x1F) 6) (Z.land s1 0x3F).
Definition rune3 (s0 s1 s2 : Z) : Z :=
  Z.lor (Z.lor (Z.shiftl (Z.land s0 0x0F) 12)
               (Z.shiftl (Z.land s1 0x3F) 6))
        (Z.land s2 0x3F).
Definition rune4 (s0 s1 s2 s3 : Z) : Z :=
  Z.lor (Z.lor (Z.lor (Z.shiftl (Z.land s0 0x07) 18)
                      (Z.shiftl (Z.land s1 0x3F) 12))
               (Z.shiftl (Z.land s2 0x3F) 6))
        (Z.land s3 0x3F).

(** The bounds of the second byte after the lead byte of a sequence of
    three or of four bytes. *)
Definition second3 (b0 b1 : Z) : Prop :=
  (if b0 =? 0xE0 then 0xA0 else 0x80) <= b1
  <= (if b0 =? 0xED then 0x9F else 0xBF).

Definition second4 (b0 b1 : Z) : Prop :=
  (if b0 =? 0xF0 then 0x90 else 0x80) <= b1
  <= (if b0 =? 0xF4 then 0x8F else 0xBF).

(** The runes that [for _, c := range s] yields: a byte that starts no
    well-formed sequence yields [RuneError] and is passed alone. *)
Fixpoint decodeRunes (s : list Z) : list Z :=
  match s with
  | [] => []
  | s0 :: t =>
      if s0 <? RuneSelf then s0 :: decodeRunes t
      else
        match utf8_first s0, t with
        | Some (sz, (lo, hi)), s1 :: t1 =>
            if between lo hi s1 then
              if sz =? 2 then rune2 s0 s1 :: decodeRunes t1
              else
                match t1 with
                | s2 :: t2 =>
                    if between 0x80 0xBF s2 then
                      if sz =? 3 then rune3 s0 s1 s2 :: decodeRunes t2
                      else
                        match t2 with
                        | s3 :: t3 =>
                            if between 0x80 0xBF s3
                            then rune4 s0 s1 s2 s3 :: decodeRunes t3
                            else RuneError :: decodeRunes t
                        | [] => RuneError :: decodeRunes t
                        end
                    else RuneError :: decodeRunes t
                | [] => RuneError :: decodeRunes t
                end
            else RuneError :: decodeRunes t
        | _, _ => RuneError :: decodeRunes t
        end
  end.

Definition runes (s : string) : list Z := decodeRunes (bytes s).

Definition encode3 (r : Z) : list Z :=
  [ Z.lor 0xE0 (Z.shiftr r 12);
    Z.lor 0x80 (Z.land (Z.shiftr r 6) 0x3F);
    Z.lor 0x80 (Z.land r 0x3F) ].

(** [utf8.EncodeRune], for [r >= 0]. *)
Definition encodeRune (r : Z) : list Z :=
  if r <=? 0x7F then [r]
  else if r <=? 0x7FF then
    [ Z.lor 0xC0 (Z.shiftr r 6); Z.lor 0x80 (Z.land r 0x3F) ]
  else if (MaxRune <? r) || between 0xD800 0xDFFF r then encode3 RuneError
  else if r <=? 0xFFFF then encode3 r
  else
    [ Z.lor 0xF0 (Z.shiftr r 18);
      Z.lor 0x80 (Z.land (Z.shiftr r 12) 0x3F);
      Z.lor 0x80 (Z.land (Z.shiftr r 6) 0x3F);
      Z.lor 0x80 (Z.land r 0x3F) ].

(** [strings.Map]: every rune of [s] is replaced by the encoding of its
    image; a negative image drops the rune. (Go copies the bytes of the
    runes up to the first one that the mapping changes: they are the
    encodings of these runes. A byte that starts no well-formed sequence
    counts as [RuneError] and is encoded anew.) *)
Definition Map_rune (mapping : Z -> Z) (c : Z) : list Z :=
  let r := mapping c in if r <? 0 then [] else encodeRune r.

Definition Map (mapping : Z -> Z) (s : string) : string :=
  of_bytes (concat (map (Map_rune mapping) (runes s))).

Definition isASCII (s : string) : bool :=
  forallb (fun c => c <? RuneSelf) (bytes s).

(** ** Case mappings *)

Definition ascii_upper (c : Z) : Z :=
  if between 97 122 c then c - 32 else c.
Definition ascii_lower (c : Z) : Z :=
  if between 65 90 c then c + 32 else c.

Section Case.
Context {U : Unicode}.

Definition unicode_ToUpper (r : Z) : Z :=
  if r <=? 0x7F then ascii_upper r else upperCase r.

Definition unicode_ToLower (r : Z) : Z :=
  if r <=? 0x7F then ascii_lower r else lowerCase r.

(** [strings.ToUpper]: bytewise on an ASCII string, rune by rune
    otherwise. *)
Definition ToUpper (s : string) : string :=
  if isASCII s then of_bytes (map ascii_upper (bytes s))
  else Map unicode_ToUpper s.

Definition ToLower (s : string) : string :=
  if isASCII s then of_bytes (map ascii_lower (bytes s))
  else Map unicode_ToLower s.

(** [strings.EqualFold]: bytewise while both strings are ASCII. *)
Fixpoint EqualFold (s t : string) : bool :=
  match s, t with
  | String a s', String b t' =>
      let sr := byteZ a in
      let tr := byteZ b in
      if (RuneSelf <=? sr) || (RuneSelf <=? tr) then foldUnicode s t
      else if tr =? sr then EqualFold s' t'
      else
        let lo := Z.min sr tr in
        let hi := Z.max sr tr in
        if between 65 90 lo && (hi =? lo + 32) then EqualFold s' t'
        else false
  | EmptyString, EmptyString => true
  | _, _ => false
  end.

End Case.

(** ** Substrings *)

(** [strings.ReplaceAll s old new] for a non-empty [old]: the matches of
    [old] are taken from the left and do not overlap. [skip] counts the
    bytes of a match still to pass. *)
Fixpoint ReplaceAll_loop (old new : string) (skip : nat) (s : string)
  : string :=
  match s with
  | EmptyString => EmptyString
  | String c rest =>
      match skip with
      | S k => ReplaceAll_loop old new k rest
      | O =>
          if String.prefix old s
          then new ++ ReplaceAll_loop old new (Nat.pred (String.length old)) rest
          else String c (ReplaceAll_loop old new O rest)
      end
  end.

Definition ReplaceAll (s old new : string) : string :=
  ReplaceAll_loop old new O s.

(** [strings.TrimRight s cutset] for a cutset of the one byte [c]. *)
Fixpoint TrimRight_byte (c : ascii) (s : list ascii) : list ascii :=
  match s with
  | [] => []
  | x :: rest =>
      match TrimRight_byte c rest with
      | [] => if Ascii.eqb x c then [] else [x]
      | rest' => x :: rest'
      end
  end.

End GoString.

(** Packages path and path/filepath (the latter on Linux, where the
    separator is the slash and there is no volume name). Paths are handled
    as lists of bytes. *)
Module GoPath.

Definition slash : ascii := "/"%char.
Definition dot : ascii := "."%char.

Definition is_slash (c : ascii) : bool := Ascii.eqb c slash.

(** Strip the trailing slashes of a reversed path. *)
Fixpoint strip_slashes (rev_path : list ascii) : list ascii :=
  match rev_path with
  | c :: rest => if is_slash c then strip_slashes rest else rev_path
  | [] => []
  end.

(** The bytes after the last slash, from the reversed path. *)
Fixpoint last_element (rev_path acc : list ascii) : list ascii :=
  match rev_path with
  | c :: rest => if is_slash c then acc else last_element rest (c :: acc)
  | [] => acc
  end.

(** [path.Base], which is [filepath.Base] on Linux. *)
Definition Base (path : string) : string :=
  match path with
  | EmptyString => "."
  | _ =>
      let stripped := strip_slashes (rev (list_ascii_of_string path)) in
      match last_element stripped [] with
      | [] => "/"
      | elt => string_of_list_ascii elt
      end
  end.

(** The step [out.w--; for out.w > dotdot && out.index(out.w) != '/'
    { out.w-- }] of [Clean], on the reversed output buffer. *)
Fixpoint backtrack (dotdot : nat) (rev_out : list ascii) : list ascii :=
  match rev_out with
  | c :: rest =>
      if (dotdot <? length rest)%nat && negb (is_slash c)
      then backtrack dotdot rest
      else rest
  | [] => []
  end.

(** The main loop of [path.Clean] from position [r] on; [rev_out] is the
    output buffer reversed, and [copying] tells that the loop is inside
    the copy of a path element (the [default] case). *)
Fixpoint Clean_loop (rooted : bool) (rev_out : list ascii) (dotdot : nat)
    (copying : bool) (path : list ascii) : list ascii :=
  match path with
  | [] => rev_out
  | c :: t =>
      if copying then
        if is_slash c then Clean_loop rooted rev_out dotdot false t
        else Clean_loop rooted (c :: rev_out) dotdot true t
      else if is_slash c then Clean_loop rooted rev_out dotdot false t
      else
        let element :=
          let w := length rev_out in
          let sep := if rooted then negb (w =? 1)%nat
                     else negb (w =? 0)%nat in
          Clean_loop rooted (c :: (if sep then slash :: rev_out else rev_out))
                     dotdot true t in
        if Ascii.eqb c dot then
          match t with
          | [] => Clean_loop rooted rev_out dotdot false t
          | c1 :: t1 =>
              if is_slash c1 then Clean_loop rooted rev_out dotdot false t
              else if Ascii.eqb c1 dot
                      && match t1 with
                         | [] => true
                         | c2 :: _ => is_slash c2
                         end
              then
                if (dotdot <? length rev_out)%nat
                then Clean_loop rooted (backtrack dotdot rev_out) dotdot
                                false t1
                else if rooted
                then Clean_loop rooted rev_out dotdot false t1
                else
                  let out1 := match rev_out with
                              | [] => rev_out
                              | _ => slash :: rev_out
                              end in
                  let out2 := dot :: dot :: out1 in
                  Clean_loop rooted out2 (length out2) false t1
              else element
          end
        else element
  end.

Definition Clean_bytes (path : list ascii) : list ascii :=
  match path with
  | [] => [dot]
  | c :: t =>
      let out :=
        if is_slash c then Clean_loop true [slash] 1 false t
        else Clean_loop false [] 0 false path in
      match out with
      | [] => [dot]
      | _ => rev out
      end
  end.

(** [path.Clean], which is [filepath.Clean] on Linux. *)
Definition Clean (path : string) : string :=
  string_of_list_ascii (Clean_bytes (list_ascii_of_string path)).

(** The path up to and including its last slash, from the reversed
    path. *)
Fixpoint upto_last_slash (rev_path : list ascii) : list ascii :=
  match rev_path with
  | c :: rest => if is_slash c then rev rev_path else upto_last_slash rest
  | [] => []
  end.

(** [filepath.Dir] on Linux. *)
Definition Dir (path : string) : string :=
  string_of_list_ascii
    (Clean_bytes (upto_last_slash (rev (list_ascii_of_string path)))).

(** [path.Join] of two elements. *)
Definition Join (a b : string) : string :=
  match a, b with
  | EmptyString, EmptyString => ""
  | EmptyString, _ => Clean b
  | _, _ => Clean (a ++ "/" ++ b)
  end.

End GoPath.

(** Package bufio: the lines that a [Scanner] with its default split
    function [ScanLines] and its default buffer yields on a reader over
    [data]. *)
Module GoScanner.

Definition MaxScanTokenSize : Z := 64 * 1024.

Definition LF : ascii := ascii_of_nat 10.
Definition CR : ascii := ascii_of_nat 13.

(** [dropCR], on the reversed line. *)
Definition dropCR (rev_line : list ascii) : list ascii :=
  match rev_line with
  | c :: rest => if Ascii.eqb c CR then rest else rev_line
  | [] => []
  end.

Definition token (rev_line : list ascii) : string :=
  string_of_list_ascii (rev (dropCR rev_line)).

(** [rev_line] holds the bytes of the current line read so far and [n]
    is their number. A line ends at a line feed, and the last line may
    end with the data; data left without a line feed at the end yields a
    token as long as it is not empty. When [MaxScanTokenSize] bytes hold
    no line feed the buffer cannot grow, [Scan] reports [ErrTooLong] and
    returns false: the scan stops there. *)
Fixpoint scan (rev_line : list ascii) (n : Z) (data : list ascii)
  : list string :=
  match data with
  | [] =>
      match rev_line with
      | [] => []
      | _ => [token rev_line]
      end
  | c :: rest =>
      if Ascii.eqb c LF then token rev_line :: scan [] 0 rest
      else if MaxScanTokenSize <=? n + 1 then []
      else scan (c :: rev_line) (n + 1) rest
  end.

Definition ScanLines (data : list ascii) : list string := scan [] 0 data.

(** A line of a listing as it is written: no line feed and no carriage
    return in it, and short enough for the buffer of the scanner with its
    line ending. *)
Definition plain_line (l : string) : Prop :=
  Forall (fun c => c <> LF /\ c <> CR) (list_ascii_of_string l)
  /\ Z.of_nat (String.length l) + 1 < MaxScanTokenSize.

(** The bytes of a listing: every line is followed by a line feed, or,
    when its flag is set, by a carriage return and a line feed. *)
Fixpoint encodeLines (lines : list (string * bool)) : list ascii :=
  match lines with
  | [] => []
  | (l, crlf) :: rest =>
      (list_ascii_of_string l ++ (if crlf then [CR; LF] else [LF])
       ++ encodeLines rest)%list
  end.

End GoScanner.

(* ===================================================================== *)
(** * The archive: data model                                             *)
(* ===================================================================== *)

(** The header of an archive. *)
Record Data := {
  Magic : list ascii;
  HeaderSize : Z;
  ArchiveSize : Z;
  FormatVersion : Z;
  BlockSize : Z;
  HashTableOffset : Z;
  BlockTableOffset : Z;
  Data_HashTableEntries : Z;
  Data_BlockTableEntries : Z
}.

Record HashTableEntry := {
  NamePartA : Z;
  NamePartB : Z;
  Locale : Z;
  Platform_ : Z;
  BlockIndex : Z
}.

(** Flags of a file record. *)
Definition FileImplode : Z := 0x00000100.
Definition FileCompress : Z := 0x00000200.
Definition FileEncrypted : Z := 0x00010000.
Definition FileFixKey : Z := 0x00020000.
Definition FilePatchFile : Z := 0x00100000.
Definition FileSingleUnit : Z := 0x01000000.
Definition FileDeleteMarker : Z := 0x02000000.
Definition FileSectorCrc : Z := 0x04000000.
Definition FileExists_flag : Z := 0x80000000.

Record BlockTableEntry := {
  FilePosition : Z;
  CompressedFileSize : Z;
  UncompressedFileSize : Z;
  Flags : Z;
  FileName : string;
  EncryptionSeed : Z
}.

(** The zero values [HashTableEntry{}] and [BlockTableEntry{}]. *)
Definition HashTableEntry_zero : HashTableEntry :=
  {| NamePartA := 0; NamePartB := 0; Locale := 0; Platform_ := 0;
     BlockIndex := 0 |}.

Definition BlockTableEntry_zero : BlockTableEntry :=
  {| FilePosition := 0; CompressedFileSize := 0; UncompressedFileSize := 0;
     Flags := 0; FileName := ""; EncryptionSeed := 0 |}.

Definition HasFlag (v : BlockTableEntry) (flag : Z) : bool :=
  negb (Z.land (Flags v) flag =? 0).

(** What the archive code asks of the operating system. [File] is the
    state behind an [*os.File]; an operation on it returns the state it
    leaves. [io_ReadFull f n] fills a buffer of [n] bytes from the handle,
    as [binary.Read] does through [io.ReadFull]: it returns the [n] bytes
    read, or an error. [ioutil_ReadDir] returns the names of the entries of
    a directory, sorted. *)
Class Platform := {
  File : Type;
  runtime_GOOS : string;
  os_Open : string -> File + string;
  ioutil_ReadDir : string -> list string + string;
  File_Seek : File -> Z -> File * error;
  io_ReadFull : File -> Z -> File * (list ascii * error);
  File_Close : File -> File * error
}.

(** The active language code, [d2resource.LanguageCode]. *)
Class Resource := { LanguageCode : string }.

Section Model.
Context {K : Keystream} {U : Unicode} {P : Platform} {R : Resource}.

(** An archive. [fileCache] is a reference to a map: a copy of the
    struct shares the map with the original. [None] is the nil map. *)
Record MPQ := {
  MPQ_FileName : string;
  MPQ_File : File;
  HashTableEntries : list HashTableEntry;
  BlockTableEntries : list BlockTableEntry;
  MPQ_Data : Data;
  fileCache : option nat
}.

(** What a call does outside of its own variables. *)
Inductive Event :=
| EvOpen (path : string)
| EvReadDir (dir : string)
| EvSeek (offset : Z)
| EvRead (n : Z)
| EvClose
| EvLocate (name : string)
| EvExtract (name : string).

(** The state of the process: the registry [mpqCache] from paths to
    pointers to archives, the archives that have been allocated (a
    pointer is an index), the content caches that have been allocated,
    by reference, and the trace of the calls made so far to the operating
    system, to the file locator and to the sector extractor. *)
Record World := {
  mpqCache : gmap string nat;
  archives : list MPQ;
  fileCaches : gmap nat (gmap string (list ascii));
  trace : list Event
}.

Definition IO (A : Type) : Type := World -> outcome (A * World).

Definition io_ret {A} (a : A) : IO A := fun w => Ret (a, w).

Definition io_bind {A B} (k : A -> IO B) (m : IO A) : IO B := fun w =>
  match m w with
  | Ret (a, w') => k a w'
  | Panic msg => Panic msg
  end.

Definition lift {A} (m : outcome A) : IO A := fun w =>
  match m with
  | Ret a => Ret (a, w)
  | Panic msg => Panic msg
  end.

(** [log.Panic(err)]. *)
Definition log_Panic {A} (msg : string) : IO A := fun _ => Panic msg.

Definition emit (e : Event) : IO unit := fun w =>
  Ret (tt, {| mpqCache := mpqCache w; archives := archives w;
              fileCaches := fileCaches w; trace := trace w ++ [e] |}).

End Model.

Arguments IO {_} A.
#[export] Instance IO_ret {P : Platform} : MRet IO := @io_ret _.
#[export] Instance IO_bind {P : Platform} : MBind IO := @io_bind _.

(** The sector extractor ([CreateStream] and the [Read] of the stream it
    returns). It is defined in another file of the package and is a
    parameter. It positions the file handle itself before each of its
    reads.
    [Stream_Read s buffer offset count] is the contents of [buffer] after
    [s.Read(buffer, offset, count)]. *)
Class Extractor {P : Platform} := {
  Stream : Type;
  CreateStream : MPQ -> BlockTableEntry -> string -> outcome (Stream * error);
  Stream_Read : Stream -> list ascii -> Z -> Z -> outcome (list ascii)
}.

(* ===================================================================== *)
(** * The archive: operations                                             *)
(* ===================================================================== *)

Section Archive.
Context {K : Keystream} {U : Unicode} {P : Platform} {R : Resource} {X : Extractor}.

(** ** hashString *)

Fixpoint hashString_loop (hashType seed1 seed2 : Z) (chars : list Z)
  : outcome Z :=
  match chars with
  | [] => Ret seed1
  | char :: rest =>
      c ← CryptoBuffer_at (add32 (mul32 hashType 0x100) (wrap char));
      let seed1 := Z.lxor c (add32 seed1 seed2) in
      let seed2 := add32 (add32 (add32 (add32 (wrap char) seed1) seed2)
                                (shl32 seed2 5)) 3 in
      hashString_loop hashType seed1 seed2 rest
  end.

Definition hashString (key : string) (hashType : Z) : outcome Z :=
  hashString_loop hashType 0x7FED7FED 0xEEEEEEEE
                  (GoString.runes (GoString.ToUpper key)).

(** The hash of a key that [hashString] hashes without a panic. *)
Definition hashValue (key : string) (hashType : Z) : Z :=
  match hashString key hashType with
  | Ret h => h
  | Panic _ => 0
  end.

(** The entry of the hash table under which a file of that name is
    stored, at a given block index. *)
Definition entryFor (name : string) (blockIndex : Z) : HashTableEntry :=
  {| NamePartA := hashValue name 1;
     NamePartB := hashValue name 2;
     Locale := 0;
     Platform_ := 0;
     BlockIndex := blockIndex |}.

(** ** The file locator *)

(** An entry whose two hashes are those of the name looked up. *)
Definition matches (hashA hashB : Z) (e : HashTableEntry) : bool :=
  (NamePartA e =? hashA) && (NamePartB e =? hashB).

(** The loop of [getFileHashEntry] over [v.HashTableEntries]. *)
Fixpoint findHashEntry (hashA hashB : Z) (entries : list HashTableEntry)
  : HashTableEntry * error :=
  match entries with
  | [] => (HashTableEntry_zero, errors_New "file not found")
  | hashEntry :: rest =>
      if negb (NamePartA hashEntry =? hashA)
         || negb (NamePartB hashEntry =? hashB)
      then findHashEntry hashA hashB rest
      else (hashEntry, None)
  end.

Definition getFileHashEntry (v : MPQ) (fileName : string)
  : outcome (HashTableEntry * error) :=
  hashA ← hashString fileName 1;
  hashB ← hashString fileName 2;
  mret (findHashEntry hashA hashB (HashTableEntries v)).

Definition getFileBlockData (v : MPQ) (fileName : string)
  : outcome (BlockTableEntry * error) :=
  '(fileEntry, err) ← getFileHashEntry v fileName;
  if bool_decide (err ≠ None)
     || (wrap (Z.of_nat (length (BlockTableEntries v)))
         <=? BlockIndex fileEntry)
  then mret (BlockTableEntry_zero, err)
  else
    entry ← index (BlockTableEntries v) (BlockIndex fileEntry);
    mret (entry, None).

Definition FileExists (v : MPQ) (fileName : string) : outcome bool :=
  '(_, err) ← getFileHashEntry v fileName;
  mret (bool_decide (err = None)).

(** ** The encryption seed *)

(** The assignment [v.FileName = name]. *)
Definition withFileName (v : BlockTableEntry) (name : string)
  : BlockTableEntry :=
  {| FilePosition := FilePosition v;
     CompressedFileSize := CompressedFileSize v;
     UncompressedFileSize := UncompressedFileSize v;
     Flags := Flags v;
     FileName := name;
     EncryptionSeed := EncryptionSeed v |}.

Definition withEncryptionSeed (v : BlockTableEntry) (seed : Z)
  : BlockTableEntry :=
  {| FilePosition := FilePosition v;
     CompressedFileSize := CompressedFileSize v;
     UncompressedFileSize := UncompressedFileSize v;
     Flags := Flags v;
     FileName := FileName v;
     EncryptionSeed := seed |}.

Definition calculateEncryptionSeed (v : BlockTableEntry)
  : outcome BlockTableEntry :=
  let fileName := GoPath.Base (FileName v) in
  seed ← hashString fileName 3;
  let v := withEncryptionSeed v seed in
  if negb (HasFlag v FileFixKey) then mret v
  else
    mret (withEncryptionSeed v
            (Z.lxor (add32 (EncryptionSeed v) (FilePosition v))
                    (UncompressedFileSize v))).

(** ** Opening an archive *)

Definition getWorld : IO World := fun w => Ret (w, w).
Definition putWorld (w : World) : IO unit := fun _ => Ret (tt, w).

Definition open (path : string) : IO (File + string) :=
  _ ← emit (EvOpen path); mret (os_Open path).

Definition readDir (dir : string) : IO (list string + string) :=
  _ ← emit (EvReadDir dir); mret (ioutil_ReadDir dir).

Definition seek (f : File) (offset : Z) : IO (File * error) :=
  _ ← emit (EvSeek offset); mret (File_Seek f offset).

(** [binary.Read] of a value of [n] bytes: nothing is read from the
    handle when [n] is 0. *)
Definition binary_Read (f : File) (n : Z)
  : IO (File * (list ascii * error)) :=
  if n =? 0 then mret (f, ([], None))
  else _ ← emit (EvRead n); mret (io_ReadFull f n).

(** The first name of the listing that [strings.EqualFold] matches with
    [mpqName], or [mpqName] itself. *)
Fixpoint matchName (files : list string) (mpqName : string) : string :=
  match files with
  | [] => mpqName
  | file :: rest =>
      if GoString.EqualFold file mpqName then file
      else matchName rest mpqName
  end.

Definition openIgnoreCase (mpqPath : string) : IO (File + string) :=
  r ← open mpqPath;
  match r with
  | inl mpqFile => mret (inl mpqFile)
  | inr _ =>
      let mpqName := GoPath.Base mpqPath in
      let mpqDir := GoPath.Dir mpqPath in
      files ← readDir mpqDir;
      match files with
      | inr err => mret (inr err)
      | inl files =>
          let mpqName := matchName files mpqName in
          open (GoPath.Join mpqDir mpqName)
      end
  end.

Definition byte_at (buf : list ascii) (i : nat) : ascii :=
  nth i buf zero.
Definition uint32_at (buf : list ascii) (i : nat) : Z :=
  le_uint32 (byte_at buf i) (byte_at buf (i + 1)) (byte_at buf (i + 2))
            (byte_at buf (i + 3)).
Definition uint16_at (buf : list ascii) (i : nat) : Z :=
  le_uint16 (byte_at buf i) (byte_at buf (i + 1)).

Definition Data_size : Z := 32.

(** The header, from its [Data_size] bytes in little-endian order. *)
Definition decodeData (buf : list ascii) : Data :=
  {| Magic := take 4 buf;
     HeaderSize := uint32_at buf 4;
     ArchiveSize := uint32_at buf 8;
     FormatVersion := uint16_at buf 12;
     BlockSize := uint16_at buf 14;
     HashTableOffset := uint32_at buf 16;
     BlockTableOffset := uint32_at buf 20;
     Data_HashTableEntries := uint32_at buf 24;
     Data_BlockTableEntries := uint32_at buf 28 |}.

(** The bytes of ["MPQ\x1A"]. *)
Definition magic : list ascii :=
  [ "M"%char; "P"%char; "Q"%char; ascii_of_nat 26 ].

(** The loop of [loadHashTable] from [i] on, for [n] more entries. *)
Fixpoint hashEntries_from (hashData : list Z) (n : nat) (i : Z)
  : outcome (list HashTableEntry) :=
  match n with
  | O => mret []
  | S n' =>
      a ← index hashData (mul32 i 4);
      b ← index hashData (add32 (mul32 i 4) 1);
      l ← index hashData (add32 (mul32 i 4) 2);
      p ← index hashData (add32 (mul32 i 4) 2);
      x ← index hashData (add32 (mul32 i 4) 3);
      rest ← hashEntries_from hashData n' (i + 1);
      mret ({| NamePartA := a;
               NamePartB := b;
               Locale := Z.shiftr l 16 mod 2 ^ 16;
               Platform_ := Z.land p 0xFFFF mod 2 ^ 16;
               BlockIndex := x |} :: rest)
  end.

(** The loop of [loadBlockTable] from [i] on, for [n] more entries. *)
Fixpoint blockEntries_from (blockData : list Z) (n : nat) (i : Z)
  : outcome (list BlockTableEntry) :=
  match n with
  | O => mret []
  | S n' =>
      a ← index blockData (mul32 i 4);
      b ← index blockData (add32 (mul32 i 4) 1);
      c ← index blockData (add32 (mul32 i 4) 2);
      d ← index blockData (add32 (mul32 i 4) 3);
      rest ← blockEntries_from blockData n' (i + 1);
      mret ({| FilePosition := a;
               CompressedFileSize := b;
               UncompressedFileSize := c;
               Flags := d;
               FileName := "";
               EncryptionSeed := 0 |} :: rest)
  end.

Definition loadHashTable (v : MPQ) : IO MPQ :=
  '(file, err) ← seek (MPQ_File v) (HashTableOffset (MPQ_Data v));
  match err with
  | Some msg => log_Panic msg
  | None =>
      let len := mul32 (Data_HashTableEntries (MPQ_Data v)) 4 in
      '(file, (buf, err)) ← binary_Read file (4 * len);
      match err with
      | Some msg => log_Panic msg
      | None =>
          seed ← lift (hashString "(hash table)" 3);
          let hashData := decrypt (le_words buf) seed in
          entries ← lift (hashEntries_from hashData
                            (Z.to_nat (Data_HashTableEntries (MPQ_Data v)))
                            0);
          mret {| MPQ_FileName := MPQ_FileName v;
                  MPQ_File := file;
                  HashTableEntries := HashTableEntries v ++ entries;
                  BlockTableEntries := BlockTableEntries v;
                  MPQ_Data := MPQ_Data v;
                  fileCache := fileCache v |}
      end
  end.

Definition loadBlockTable (v : MPQ) : IO MPQ :=
  '(file, err) ← seek (MPQ_File v) (BlockTableOffset (MPQ_Data v));
  match err with
  | Some msg => log_Panic msg
  | None =>
      let len := mul32 (Data_BlockTableEntries (MPQ_Data v)) 4 in
      '(file, (buf, err)) ← binary_Read file (4 * len);
      match err with
      | Some msg => log_Panic msg
      | None =>
          seed ← lift (hashString "(block table)" 3);
          let blockData := decrypt (le_words buf) seed in
          entries ← lift (blockEntries_from blockData
                            (Z.to_nat (Data_BlockTableEntries (MPQ_Data v)))
                            0);
          mret {| MPQ_FileName := MPQ_FileName v;
                  MPQ_File := file;
                  HashTableEntries := HashTableEntries v;
                  BlockTableEntries := BlockTableEntries v ++ entries;
                  MPQ_Data := MPQ_Data v;
                  fileCache := fileCache v |}
      end
  end.

(** [readHeader]: the archive as the call leaves it, and its error. *)
Definition readHeader (v : MPQ) : IO (MPQ * error) :=
  '(file, (buf, err)) ← binary_Read (MPQ_File v) Data_size;
  let v := {| MPQ_FileName := MPQ_FileName v;
              MPQ_File := file;
              HashTableEntries := HashTableEntries v;
              BlockTableEntries := BlockTableEntries v;
              MPQ_Data := MPQ_Data v;
              fileCache := fileCache v |} in
  match err with
  | Some _ => mret (v, err)
  | None =>
      let v := {| MPQ_FileName := MPQ_FileName v;
                  MPQ_File := MPQ_File v;
                  HashTableEntries := HashTableEntries v;
                  BlockTableEntries := BlockTableEntries v;
                  MPQ_Data := decodeData buf;
                  fileCache := fileCache v |} in
      if negb (bool_decide (Magic (MPQ_Data v) = magic))
      then mret (v, errors_New "invalid mpq header")
      else
        v ← loadHashTable v;
        v ← loadBlockTable v;
        mret (v, None)
  end.

Definition Data_zero : Data :=
  {| Magic := [zero; zero; zero; zero]; HeaderSize := 0; ArchiveSize := 0;
     FormatVersion := 0; BlockSize := 0; HashTableOffset := 0;
     BlockTableOffset := 0; Data_HashTableEntries := 0;
     Data_BlockTableEntries := 0 |}.

(** [Load], under the lock [mpqMutex]. The result is the pointer to the
    archive, [None] for [nil]. The archive and the map that [make]
    allocates for it enter the state of the process when the archive is
    registered: before that no one else can reach them. *)
Definition Load (fileName : string) : IO (option nat * error) :=
  w ← getWorld;
  match mpqCache w !! fileName with
  | Some cached => mret (Some cached, None)
  | None =>
      r ← (if String.eqb runtime_GOOS "linux"
           then openIgnoreCase fileName
           else open fileName);
      match r with
      | inr err => mret (None, Some err)
      | inl file =>
          w ← getWorld;
          let result := {| MPQ_FileName := fileName;
                           MPQ_File := file;
                           HashTableEntries := [];
                           BlockTableEntries := [];
                           MPQ_Data := Data_zero;
                           fileCache := Some (fresh (dom (fileCaches w))) |} in
          '(result, err) ← readHeader result;
          match err with
          | Some _ => mret (None, err)
          | None =>
              w ← getWorld;
              let ptr := length (archives w) in
              _ ← putWorld {| mpqCache := <[fileName := ptr]> (mpqCache w);
                              archives := archives w ++ [result];
                              fileCaches :=
                                <[fresh (dom (fileCaches w)) := ∅]>
                                  (fileCaches w);
                              trace := trace w |};
              mret (Some ptr, None)
          end
      end
  end.

(** [Close]: the archive as the call leaves it. *)
Definition Close (v : MPQ) : IO MPQ :=
  _ ← emit EvClose;
  let '(file, err) := File_Close (MPQ_File v) in
  match err with
  | Some msg => log_Panic msg
  | None =>
      mret {| MPQ_FileName := MPQ_FileName v;
              MPQ_File := file;
              HashTableEntries := HashTableEntries v;
              BlockTableEntries := BlockTableEntries v;
              MPQ_Data := MPQ_Data v;
              fileCache := fileCache v |}
  end.

(** ** Reading a file *)

(** The name under which [ReadFile] looks a file up and caches it. *)
Definition normalize (fileName : string) : string :=
  let fileName := GoString.ReplaceAll fileName "{LANG}" LanguageCode in
  let fileName := GoString.ToLower fileName in
  GoString.ReplaceAll fileName "/" "\".

(** Reading the map behind [v.fileCache]; a nil map reads as empty. *)
Definition cacheOf (w : World) (v : MPQ) : gmap string (list ascii) :=
  match fileCache v with
  | Some ref => default ∅ (fileCaches w !! ref)
  | None => ∅
  end.

(** [v.fileCache[fileName] = buffer]. *)
Definition cacheStore (v : MPQ) (fileName : string) (buffer : list ascii)
  : IO unit :=
  w ← getWorld;
  match fileCache v with
  | Some ref =>
      putWorld {| mpqCache := mpqCache w;
                  archives := archives w;
                  fileCaches :=
                    <[ref := <[fileName := buffer]>
                               (default ∅ (fileCaches w !! ref))]>
                      (fileCaches w);
                  trace := trace w |}
  | None => lift (Panic "assignment to entry in nil map")
  end.

Definition ReadFile (v : MPQ) (fileName : string)
  : IO (list ascii * error) :=
  let fileName := GoString.ReplaceAll fileName "{LANG}" LanguageCode in
  let fileName := GoString.ToLower fileName in
  let fileName := GoString.ReplaceAll fileName "/" "\" in
  w ← getWorld;
  match cacheOf w v !! fileName with
  | Some cached => mret (cached, None)
  | None =>
      _ ← emit (EvLocate fileName);
      '(fileBlockData, err) ← lift (getFileBlockData v fileName);
      match err with
      | Some _ => mret ([], err)
      | None =>
          let fileBlockData :=
            withFileName fileBlockData (GoString.ToLower fileName) in
          fileBlockData ← lift (calculateEncryptionSeed fileBlockData);
          _ ← emit (EvExtract fileName);
          '(mpqStream, err) ← lift (CreateStream v fileBlockData fileName);
          match err with
          | Some _ => mret ([], err)
          | None =>
              let buffer :=
                replicate (Z.to_nat (UncompressedFileSize fileBlockData))
                          zero in
              buffer ← lift (Stream_Read mpqStream buffer 0
                               (UncompressedFileSize fileBlockData));
              _ ← cacheStore v fileName buffer;
              mret (buffer, None)
          end
      end
  end.

Definition ReadTextFile (v : MPQ) (fileName : string)
  : IO (string * error) :=
  '(data, err) ← ReadFile v fileName;
  match err with
  | Some _ => mret ("", err)
  | None => mret (string_of_list_ascii data, None)
  end.

(** The seed with which [ReadFile] has the file of a block entry read:
    the one that [calculateEncryptionSeed] computes once the entry carries
    the lower-cased name under which the file was looked up. *)
Definition readSeed (e : BlockTableEntry) (fileName : string)
  : outcome Z :=
  e ← calculateEncryptionSeed
        (withFileName e (GoString.ToLower (normalize fileName)));
  mret (EncryptionSeed e).

(** An archive given by its tables. *)
Definition archiveOf (file : File) (entries : list HashTableEntry)
    (blocks : list BlockTableEntry) (cache : option nat) : MPQ :=
  {| MPQ_FileName := "";
     MPQ_File := file;
     HashTableEntries := entries;
     BlockTableEntries := blocks;
     MPQ_Data := Data_zero;
     fileCache := cache |}.

(** ** The listfile *)

(** What [GetFileList] makes of the bytes of the listfile. *)
Definition listfileLines (data : list ascii) : list string :=
  GoScanner.ScanLines (GoString.TrimRight_byte zero data).

(** [GetFileList]; the nil slice is the empty list. *)
Definition GetFileList (v : MPQ) : IO (list string * error) :=
  '(data, err) ← ReadFile v "(listfile)";
  match err with
  | Some _ => mret ([], err)
  | None => mret (listfileLines data, None)
  end.

(** ** Notions used in the statements *)

(** The seek or the read of the table of [count] entries at [offset]
    fails on the handle [file], with the error [msg]. *)
Definition tableReadFails (offset count : Z) (file : File) (msg : string)
  : Prop :=
  (exists f, File_Seek file offset = (f, Some msg))
  \/ (exists f f' buf,
        File_Seek file offset = (f, None)
        /\ mul32 count 4 <> 0
        /\ io_ReadFull f (4 * mul32 count 4) = (f', (buf, Some msg))).

(** What [Load] does once the file is open. *)
Definition Load_rest (fileName : string) (r : File + string)
  : IO (option nat * error) :=
  match r with
  | inr err => mret (None, Some err)
  | inl file =>
      w ← getWorld;
      let result := {| MPQ_FileName := fileName;
                       MPQ_File := file;
                       HashTableEntries := [];
                       BlockTableEntries := [];
                       MPQ_Data := Data_zero;
                       fileCache := Some (fresh (dom (fileCaches w))) |} in
      '(result, err) ← readHeader result;
      match err with
      | Some _ => mret (None, err)
      | None =>
          w ← getWorld;
          let ptr := length (archives w) in
          _ ← putWorld {| mpqCache := <[fileName := ptr]> (mpqCache w);
                          archives := archives w ++ [result];
                          fileCaches :=
                            <[fresh (dom (fileCaches w)) := ∅]>
                              (fileCaches w);
                          trace := trace w |};
          mret (Some ptr, None)
      end
  end.

(** A computation that only adds to the trace: it leaves the registry,
    the archives and the content caches as they are. *)
Definition extends_trace {A} (m : IO A) : Prop :=
  forall w a w', m w = Ret (a, w') ->
    mpqCache w' = mpqCache w
    /\ archives w' = archives w
    /\ fileCaches w' = fileCaches w
    /\ exists tl, trace w' = (trace w ++ tl)%list.

(** Two calls of [Load] in a row: their results and the trace of the
    calls to the operating system once both have returned. *)
Definition openTwice (path1 path2 : string)
  : IO ((option nat * error) * (option nat * error) * list Event) :=
  r1 ← Load path1;
  r2 ← Load path2;
  w ← getWorld;
  mret (r1, r2, trace w).

End Archive.

(* ===================================================================== *)
(** * Instances                                                           *)
(* ===================================================================== *)

(** The theorems below hold for every keystream table, every platform and
    every extractor. The examples run the definitions on the following
    instances. *)
Module Sample.

(** A keystream table: the generator of the archive format, a linear
    congruential sequence folded into 32-bit words, two steps per word.
    Word [i] is the word of rank [5 * (i mod 0x100) + i / 0x100]. *)
Definition next (seed : Z) : Z := (seed * 125 + 3) mod 0x2AAAAB.

Definition table (i : Z) : Z :=
  let rank := 5 * (i mod 0x100) + i / 0x100 in
  let seed := Nat.iter (Z.to_nat (2 * rank)) next 0x00100001 in
  let s1 := next seed in
  let s2 := next s1 in
  Z.lor (Z.shiftl (Z.land s1 0xFFFF) 16) (Z.land s2 0xFFFF).

#[export] Instance keystream : Keystream := {| CryptoBuffer := table |}.

(** No case pairs beyond ASCII. *)
#[export] Instance unicode : Unicode :=
  {| upperCase := fun r => r;
     lowerCase := fun r => r;
     foldUnicode := String.eqb |}.

#[export] Instance resource : Resource := {| LanguageCode := "eng" |}.

(** Files in memory: the contents and the position of the handle. *)
Record MemFile := { content : list ascii; pos : Z }.

Definition mem_Open (disk : list (string * list ascii)) (path : string)
  : MemFile + string :=
  match List.find (fun e => String.eqb (fst e) path) disk with
  | Some e => inl {| content := snd e; pos := 0 |}
  | None => inr "no such file or directory"
  end.

Definition mem_ReadDir (disk : list (string * list ascii)) (dir : string)
  : list string + string :=
  if String.eqb dir "." then inl (map fst disk)
  else inr "no such file or directory".

Definition mem_Seek (f : MemFile) (offset : Z) : MemFile * error :=
  ({| content := content f; pos := offset |}, None).

Definition mem_ReadFull (f : MemFile) (n : Z)
  : MemFile * (list ascii * error) :=
  let left := drop (Z.to_nat (pos f)) (content f) in
  if n <? 0 then (f, ([], Some "negative count"))
  else if Z.of_nat (length left) <? n then
    ({| content := content f; pos := Z.of_nat (length (content f)) |},
     ([], Some (match left with [] => "EOF" | _ => "unexpected EOF" end)))
  else ({| content := content f; pos := pos f + n |},
        (take (Z.to_nat n) left, None)).

Definition mem_Close (f : MemFile) : MemFile * error := (f, None).

(** A flat directory of files, its names sorted, on a system whose
    [runtime.GOOS] is [goos]. *)
Definition platform (goos : string) (disk : list (string * list ascii))
  : Platform :=
  {| File := MemFile;
     runtime_GOOS := goos;
     os_Open := mem_Open disk;
     ioutil_ReadDir := mem_ReadDir disk;
     File_Seek := mem_Seek;
     io_ReadFull := mem_ReadFull;
     File_Close := mem_Close |}.

(** An extractor for files stored verbatim: the stream is the contents
    of the archive from the position of the file on. *)
Definition stored (goos : string) (disk : list (string * list ascii))
  : @Extractor (platform goos disk) :=
  {| Stream := list ascii;
     CreateStream := fun v entry _ =>
       Ret (drop (Z.to_nat (FilePosition entry))
                 (content (@MPQ_File (platform goos disk) v)), None);
     Stream_Read := fun s buffer offset count =>
       let data := take (Z.to_nat count) s in
       Ret (take (length buffer)
              (take (Z.to_nat offset) buffer ++ data
               ++ drop (Z.to_nat offset + length data) buffer)) |}.

(** The bytes of a header. *)
Definition header (hashTableOffset blockTableOffset hashTableEntries
                   blockTableEntries : Z) : list ascii :=
  (magic ++ le_bytes 32 ++ le_bytes 32 ++ [zero; zero] ++ [Zbyte 3; zero]
   ++ le_bytes hashTableOffset ++ le_bytes blockTableOffset
   ++ le_bytes hashTableEntries ++ le_bytes blockTableEntries)%list.

(** A system without files, and a file without bytes. *)
Definition diskless : Platform := platform "linux" [].
Definition noFile : MemFile := {| content := []; pos := 0 |}.

(** A block entry for [size] bytes stored at [position]. *)
Definition blockAt (position size flags : Z) : BlockTableEntry :=
  {| FilePosition := position;
     CompressedFileSize := size;
     UncompressedFileSize := size;
     Flags := flags;
     FileName := "";
     EncryptionSeed := 0 |}.

(** The state of a process that has opened no archive. *)
Definition emptyWorld {P : Platform} : World :=
  {| mpqCache := ∅; archives := []; fileCaches := ∅; trace := [] |}.

(** Running a computation in a process that has opened no archive: its
    result, and the state it leaves. *)
Definition run {P : Platform} {A} (m : IO A) : outcome A :=
  match m emptyWorld with
  | Ret (a, _) => Ret a
  | Panic msg => Panic msg
  end.

Definition stateAfter {P : Platform} {A} (m : IO A) : World :=
  match m emptyWorld with
  | Ret (_, w) => w
  | Panic _ => emptyWorld
  end.

(** An archive file that holds the five bytes of [hello] and nothing
    else, its extractor, and an archive that stores these bytes under a
    name. *)
Definition helloBytes : list ascii := list_ascii_of_string "hello".
Definition helloDisk : list (string * list ascii) :=
  [("hello.mpq", helloBytes)].
Definition hello : Platform := platform "linux" helloDisk.
Definition helloStored : @Extractor hello := stored "linux" helloDisk.
Definition helloFile : MemFile := {| content := helloBytes; pos := 0 |}.

Definition helloArchive (name : string) : @MPQ hello :=
  archiveOf (P := hello) helloFile
    [entryFor (K := keystream) (U := unicode) name 0]
    [blockAt 0 5 0] (Some 0%nat).

(** An archive file that ends after its header, which announces a hash
    table of one entry at offset 32; and one whose two tables are
    empty. *)
Definition truncated : Platform :=
  platform "linux" [("a.mpq", header 32 32 1 0)].
Definition emptyTables : Platform :=
  platform "linux" [("a.mpq", header 32 32 0 0)].

(** The listing of the specification, [a.txt] and [b.txt] with line
    endings of two bytes and two bytes of padding; and a listing with an
    empty line between two names. *)
Definition specListing : list ascii :=
  (GoScanner.encodeLines [("a.txt", true); ("b.txt", true)]
   ++ [zero; zero])%list.
Definition gapListing : list ascii :=
  GoScanner.encodeLines [("a.txt", false); ("", false); ("b.txt", false)].

(** An archive whose only file is the listfile, with the bytes
    [payload]. *)
Definition listfilePlatform (payload : list ascii) : Platform :=
  platform "linux" [("list.mpq", payload)].
Definition listfileStored (payload : list ascii)
  : @Extractor (listfilePlatform payload) :=
  stored "linux" [("list.mpq", payload)].
Definition listfileArchive (payload : list ascii)
  : @MPQ (listfilePlatform payload) :=
  archiveOf (P := listfilePlatform payload)
    {| content := payload; pos := 0 |}
    [entryFor (K := keystream) (U := unicode) "(listfile)" 0]
    [blockAt 0 (Z.of_nat (length payload)) 0] (Some 0%nat).

(** The state after the first read of the file of [helloArchive name]. *)
Definition helloRead (name : string) : @World hello :=
  {| mpqCache := ∅;
     archives := [];
     fileCaches := {[ 0%nat := {[ name := helloBytes ]} ]};
     trace := [EvLocate name; EvExtract name] |}.

End Sample.

(* ===================================================================== *)
(** * The layout of the tables                                            *)
(* ===================================================================== *)

(** The entries that the words of a table lay out, four words to an
    entry, in the order of the words. *)
Fixpoint hashEntriesOf (words : list Z) : list HashTableEntry :=
  match words with
  | a :: b :: l :: x :: rest =>
      {| NamePartA := a;
         NamePartB := b;
         Locale := Z.shiftr l 16 mod 2 ^ 16;
         Platform_ := Z.land l 0xFFFF mod 2 ^ 16;
         BlockIndex := x |} :: hashEntriesOf rest
  | _ => []
  end.

Fixpoint blockEntriesOf (words : list Z) : list BlockTableEntry :=
  match words with
  | a :: b :: c :: d :: rest =>
      {| FilePosition := a;
         CompressedFileSize := b;
         UncompressedFileSize := c;
         Flags := d;
         FileName := "";
         EncryptionSeed := 0 |} :: blockEntriesOf rest
  | _ => []
  end.

(* ===================================================================== *)
(** * The writer's side                                                   *)
(* ===================================================================== *)

(** The package reads archives and writes none. The functions below lay
    a table out as a writer of the format does: the statements on the
    loading of the tables use them to tell what a file holds. *)

(** The cipher from the side of the writer: the key stream is that of
    [decrypt], fed with the plain word. *)
Fixpoint encrypt_loop {K : Keystream} (seed seed2 : Z) (plain : list Z)
  : list Z :=
  match plain with
  | [] => []
  | p :: rest =>
      let seed2 := add32 seed2 (CryptoBuffer (0x400 + Z.land seed 0xff)) in
      let result := Z.lxor p (add32 seed seed2) in
      let seed := next_seed seed in
      let seed2 := add32 (add32 (add32 p seed2) (shl32 seed2 5)) 3 in
      result :: encrypt_loop seed seed2 rest
  end.

Definition encrypt {K : Keystream} (plain : list Z) (seed : Z) : list Z :=
  encrypt_loop seed 0xeeeeeeee plain.

(** The four words of an entry. *)
Definition hashWords (e : HashTableEntry) : list Z :=
  [ NamePartA e; NamePartB e;
    Z.lor (Z.shiftl (Locale e) 16) (Platform_ e); BlockIndex e ].

Definition blockWords (e : BlockTableEntry) : list Z :=
  [ FilePosition e; CompressedFileSize e; UncompressedFileSize e; Flags e ].

(** The bytes of a table on disk: its words encrypted with [seed], each
    in little-endian order. *)
Definition tableBytes {K : Keystream} (words : list Z) (seed : Z)
  : list ascii :=
  concat (map le_bytes (encrypt words seed)).

(** Entries whose fields fit their types; a block entry is as the table
    holds it, without a name and without a seed. *)
Definition uint32_range (x : Z) : Prop := 0 <= x < 2 ^ 32.
Definition uint16_range (x : Z) : Prop := 0 <= x < 2 ^ 16.

Definition hashEntry_fits (e : HashTableEntry) : Prop :=
  uint32_range (NamePartA e) /\ uint32_range (NamePartB e)
  /\ uint16_range (Locale e) /\ uint16_range (Platform_ e)
  /\ uint32_range (BlockIndex e).

Definition blockEntry_fits (e : BlockTableEntry) : Prop :=
  uint32_range (FilePosition e) /\ uint32_range (CompressedFileSize e)
  /\ uint32_range (UncompressedFileSize e) /\ uint32_range (Flags e)
  /\ FileName e = "" /\ EncryptionSeed e = 0.

(* ===================================================================== *)
(** * Further notions used in the statements                              *)
(* ===================================================================== *)

(** The state [w] once the calls [events] have been made and nothing else
    has changed. *)
Definition logged {P : Platform} (w : World) (events : list Event) : World :=
  {| mpqCache := mpqCache w;
     archives := archives w;
     fileCaches := fileCaches w;
     trace := trace w ++ events |}.

(** How [Load] opens the file of an archive. *)
Definition openArchive {U : Unicode} {P : Platform} (fileName : string)
  : IO (File + string) :=
  if String.eqb runtime_GOOS "linux" then openIgnoreCase fileName
  else open fileName.

Module Fixture.
Import Sample.

(** The bytes of an archive file: the header, the hash table at offset
    32, the block table after it, and the contents of the files. *)
Definition archiveBytes (entries : list HashTableEntry)
    (blocks : list BlockTableEntry) (payload : list ascii) : list ascii :=
  (header 32 (32 + 16 * Z.of_nat (length entries))
          (Z.of_nat (length entries)) (Z.of_nat (length blocks))
   ++ tableBytes (K := keystream) (concat (map hashWords entries))
        (hashValue (K := keystream) (U := unicode) "(hash table)" 3)
   ++ tableBytes (K := keystream) (concat (map blockWords blocks))
        (hashValue (K := keystream) (U := unicode) "(block table)" 3)
   ++ payload)%list.

(** An archive file with one file, [hello.txt], stored verbatim at
    offset 64. *)
Definition dataEntries : list HashTableEntry :=
  [entryFor (K := keystream) (U := unicode) "hello.txt" 0].
Definition dataBlocks : list BlockTableEntry := [blockAt 64 5 0].
Definition dataBytes : list ascii :=
  archiveBytes dataEntries dataBlocks helloBytes.
Definition dataDisk : list (string * list ascii) :=
  [("data.mpq", dataBytes)].
Definition data : Platform := platform "linux" dataDisk.
Definition dataStored : @Extractor data := stored "linux" dataDisk.

(** The handle of [data.mpq] at a position, and the archive once its
    header has been read. *)
Definition dataFile (position : Z) : MemFile :=
  {| content := dataBytes; pos := position |}.

Definition dataOpened : @MPQ data :=
  @Build_MPQ data "data.mpq" (dataFile 32) [] [] (decodeData dataBytes)
    (Some 0%nat).

(** The archive once [Load] has returned it. *)
Definition dataLoaded : @MPQ data :=
  @Build_MPQ data "data.mpq" (dataFile 64) dataEntries dataBlocks
    (decodeData dataBytes) (Some 0%nat).

(** An archive file that ends after a header which announces 2^30 hash
    entries, and the archive once this header has been read. *)
Definition hugeBytes : list ascii := header 32 32 (2 ^ 30) 0.
Definition huge : Platform := platform "linux" [("huge.mpq", hugeBytes)].
Definition hugeOpened : @MPQ huge :=
  @Build_MPQ huge "huge.mpq" {| content := hugeBytes; pos := 32 |} [] []
    (decodeData hugeBytes) (Some 0%nat).

(** A file that does not start with the magic signature. *)
Definition junk : Platform :=
  platform "windows" [("junk.mpq", replicate 32 zero)].

End Fixture.

(** The case mappings and the replacement of the slash, byte by byte:
    what [strings.ToLower], [strings.ToUpper] and
    [strings.ReplaceAll(s, "/", "\\")] do to each byte of an ASCII
    string. *)
Definition lower_char (c : ascii) : ascii :=
  Zbyte (GoString.ascii_lower (byteZ c)).
Definition upper_char (c : ascii) : ascii :=
  Zbyte (GoString.ascii_upper (byteZ c)).
Definition slash_to_backslash (c : ascii) : ascii :=
  if Ascii.eqb c "/" then "\"%char else c.
Definition ascii_char (c : ascii) : bool := byteZ c <? GoString.RuneSelf.

(* ===================================================================== *)
(** * Sprites (package d2dc6)                                             *)
(* ===================================================================== *)

(** A frame of a sprite holds its pixels run-length encoded, scan line
    by scan line; [renderImage] decodes them into palette indices and then
    into an RGBA image. What the package takes from ebiten is a parameter:
    [ebiten_NewImage w h] is the image that [ebiten.NewImage] returns, nil
    ([None]) when it fails, and [Image_ReplacePixels] is the method of that
    name, called on this image. The message that [log.Printf] writes is not
    modelled. An [int] has 64 bits. *)
Class Ebiten := {
  ebiten_Image : Type;
  ebiten_NewImage : Z -> Z -> option ebiten_Image;
  Image_ReplacePixels : option ebiten_Image -> list ascii -> outcome error
}.

Module d2dc6.

(** A colour of a palette, and a palette ([d2datadict.PaletteRec], of
    which the frame uses the array [Colors]). *)
Record PaletteRGB := { R : ascii; G : ascii; B : ascii }.
Record PaletteRec := { Colors : list PaletteRGB }.

Record DC6Frame {E : Ebiten} := {
  Flipped : Z;
  Width : Z;
  Height : Z;
  OffsetX : Z;
  OffsetY : Z;
  Unknown : Z;
  NextBlock : Z;
  Length : Z;
  FrameData : list ascii;
  Terminator : list ascii;
  imageData : list Z;
  image : option ebiten_Image;
  palette : PaletteRec;
  valid : bool
}.

(** The assignment [l[i] = a], with Go's bounds check. *)
Definition store {A} (l : list A) (i : Z) (a : A) : outcome (list A) :=
  if (i <? 0) || (Z.of_nat (length l) <=? i)
  then Panic "index out of range"
  else Ret (<[Z.to_nat i := a]> l).

(** The loop [for ti := byte(0); ti < transparentPixels; ti++], from
    [ti] on for [n] more pixels. *)
Fixpoint transparentRun (width x y : Z) (n : nat) (ti : Z)
    (imageData : list Z) : outcome (list Z) :=
  match n with
  | O => Ret imageData
  | S n' =>
      imageData ← store imageData
                    (add32 (add32 x (mul32 y width)) (wrap ti)) (-1);
      transparentRun width x y n' (ti + 1) imageData
  end.

(** The decoding loop of [renderImage], on the bytes of [FrameData] from
    [dataPointer] on. Inside the inner loop that copies a run of pixels,
    [pending] is the number of pixels still to copy and [bi] the rank of
    the next one; [pending] is 0 outside of it. Reading a byte beyond the
    end of [FrameData] panics. *)
Fixpoint decode (width : Z) (data : list ascii) (pending : nat) (bi : Z)
    (x y : Z) (imageData : list Z) : outcome (list Z) :=
  match data with
  | [] => Panic "index out of range"
  | c :: rest =>
      match pending with
      | S pending' =>
          imageData ← store imageData
                        (add32 (add32 x (mul32 y width)) (wrap bi))
                        (byteZ c);
          match pending' with
          | O => decode width rest O 0 (add32 x (bi + 1)) y imageData
          | S _ => decode width rest pending' (bi + 1) x y imageData
          end
      | O =>
          let b := byteZ c in
          if b =? 0x80 then
            if y =? 0 then Ret imageData
            else decode width rest O 0 0 (y - 1) imageData
          else if 0 <? Z.land b 0x80 then
            let transparentPixels := Z.land b 0x7F in
            imageData ← transparentRun width x y
                          (Z.to_nat transparentPixels) 0 imageData;
            decode width rest O 0 (add32 x transparentPixels) y imageData
          else if b =? 0 then
            decode width rest O 0 (add32 x 0) y imageData
          else decode width rest (Z.to_nat b) 0 x y imageData
      end
  end.

(** The loop [for ii := uint32(0); ii < frame.Width*frame.Height; ii++]
    from [ii] on, for [n] more pixels. *)
Fixpoint colorize (pal : PaletteRec) (imageData : list Z) (n : nat) (ii : Z)
    (img : list ascii) : outcome (list ascii) :=
  match n with
  | O => Ret img
  | S n' =>
      p ← index imageData ii;
      if p <? 1 then colorize pal imageData n' (ii + 1) img
      else
        c ← index (Colors pal) p;
        img ← store img (mul32 ii 4) (R c);
        img ← store img (add32 (mul32 ii 4) 1) (G c);
        img ← store img (add32 (mul32 ii 4) 2) (B c);
        img ← store img (add32 (mul32 ii 4) 3) (Zbyte 0xFF);
        colorize pal imageData n' (ii + 1) img
  end.

Section Render.
Context {E : Ebiten}.

(** The palette indices that [renderImage] decodes, -1 for a pixel that
    no run has set. *)
Definition decodeFrame (frame : DC6Frame) : outcome (list Z) :=
  decode (Width frame) (FrameData frame) O 0 0
         (wrap (Height frame - 1))
         (replicate (Z.to_nat (mul32 (Width frame) (Height frame))) (-1)).

(** [renderImage]: the frame as the call leaves it. *)
Definition renderImage (frame : DC6Frame) : outcome DC6Frame :=
  data ← decodeFrame frame;
  let size := mul32 (Width frame) (Height frame) in
  img ← colorize (palette frame) data (Z.to_nat size) 0
        (replicate (Z.to_nat (size * 4)) zero);
  let newImage := ebiten_NewImage (Width frame) (Height frame) in
  err ← Image_ReplacePixels newImage img;
  Ret {| Flipped := Flipped frame;
         Width := Width frame;
         Height := Height frame;
         OffsetX := OffsetX frame;
         OffsetY := OffsetY frame;
         Unknown := Unknown frame;
         NextBlock := NextBlock frame;
         Length := Length frame;
         FrameData := [];
         Terminator := Terminator frame;
         imageData := data;
         image := newImage;
         palette := palette frame;
         valid := bool_decide (err = None) |}.

(** [ImageData] and [Image]: the result, and the frame as the call
    leaves it. *)
Definition ImageData (frame : DC6Frame) : outcome (list Z * DC6Frame) :=
  match image frame with
  | None => frame ← renderImage frame; Ret (imageData frame, frame)
  | Some _ => Ret (imageData frame, frame)
  end.

Definition Image (frame : DC6Frame)
  : outcome (option ebiten_Image * DC6Frame) :=
  match image frame with
  | None => frame ← renderImage frame; Ret (image frame, frame)
  | Some _ => Ret (image frame, frame)
  end.

End Render.

(** ** The encoding, from the side of the writer *)

(** A run of a scan line: [n] pixels left transparent, or the palette
    indices of the pixels of the run. *)
Inductive Run :=
| Skip (n : Z)
| Pixels (indices : list ascii).

Definition runBytes (r : Run) : list ascii :=
  match r with
  | Skip n => [Zbyte (Z.lor 0x80 n)]
  | Pixels indices => Zbyte (Z.of_nat (length indices)) :: indices
  end.

(** The pixels that a run covers. *)
Definition runPixels (r : Run) : list Z :=
  match r with
  | Skip n => replicate (Z.to_nat n) (-1)
  | Pixels indices => map byteZ indices
  end.

(** A run that one byte can announce: a count between 1 and 127. *)
Definition run_fits (r : Run) : Prop :=
  match r with
  | Skip n => 1 <= n <= 127
  | Pixels indices => (1 <= length indices <= 127)%nat
  end.

(** The bytes of a scan line, which the byte 0x80 ends, and its pixels,
    filled up to the width of the frame. *)
Definition lineBytes (line : list Run) : list ascii :=
  (concat (map runBytes line) ++ [Zbyte 0x80])%list.

Definition linePixels (width : nat) (line : list Run) : list Z :=
  let pixels := concat (map runPixels line) in
  (pixels ++ replicate (width - length pixels) (-1))%list.

(** A value that the decoder leaves in [imageData]: -1, or the value
    of a byte. *)
Definition pixel_value (p : Z) : Prop := -1 <= p <= 255.

(** The four bytes of a pixel in the image: those of its colour and
    0xFF, or four zeros for a pixel below 1. *)
Definition rgba (pal : PaletteRec) (p : Z) : list ascii :=
  if p <? 1 then [zero; zero; zero; zero]
  else
    match Colors pal !! Z.to_nat p with
    | Some c => [R c; G c; B c; Zbyte 0xFF]
    | None => [zero; zero; zero; zero]
    end.

End d2dc6.

Module SpriteFixture.
Import d2dc6.

(** Images in memory: an image is its pixels; [ReplacePixels] wants four
    bytes a pixel, and panics on the nil image. *)
Record MemImage := { pixels : list ascii; area : Z }.

Definition memory : Ebiten :=
  {| ebiten_Image := MemImage;
     ebiten_NewImage := fun w h =>
       Some {| pixels := replicate (Z.to_nat (4 * w * h)) zero;
               area := w * h |};
     Image_ReplacePixels := fun image img =>
       match image with
       | None => Panic "invalid memory address or nil pointer dereference"
       | Some i =>
           if Z.of_nat (length img) =? 4 * area i then Ret None
           else Ret (Some "pixels: wrong length")
       end |}.

(** A library that creates no image. *)
Definition imageless : Ebiten :=
  {| ebiten_Image := MemImage;
     ebiten_NewImage := fun _ _ => None;
     Image_ReplacePixels := fun _ _ => Ret (Some "no image") |}.

(** A palette of 256 greys. *)
Definition greys : PaletteRec :=
  {| Colors := map (fun i => {| R := Zbyte (Z.of_nat i);
                                G := Zbyte (Z.of_nat i);
                                B := Zbyte (Z.of_nat i) |}) (seq 0 256) |}.

(** A frame of two scan lines of three pixels: the first line sets three
    pixels, the second leaves one transparent and sets one. *)
Definition twoLines : list (list Run) :=
  [ [Pixels [Zbyte 1; Zbyte 2; Zbyte 3]];
    [Skip 1; Pixels [Zbyte 9]] ].

Definition frameOf {E : Ebiten} (width height : Z) (data : list ascii)
  : DC6Frame :=
  {| Flipped := 0; Width := width; Height := height; OffsetX := 0;
     OffsetY := 0; Unknown := 0; NextBlock := 0;
     Length := Z.of_nat (length data); FrameData := data;
     Terminator := [zero; zero; zero]; imageData := []; image := None;
     palette := greys; valid := false |}.

(** The frame of [twoLines] once it has been rendered, with the image
    that ebiten has returned. *)
Definition rendered (E : Ebiten) (img : option (@ebiten_Image E))
    (ok : bool) : @DC6Frame E :=
  @Build_DC6Frame E 0 3 2 0 0 0 0 9 [] [zero; zero; zero]
    [-1; 9; -1; 1; 2; 3] img greys ok.

Definition blank : MemImage :=
  {| pixels := replicate 24 zero; area := 6 |}.

End SpriteFixture.

(* ===================================================================== *)
(** * Properties of the crypto engine                                     *)
(* ===================================================================== *)

(** Induction on a buffer four bytes at a time. *)
Lemma list_ind4 {A} (P : list A -> Prop) :
  P [] -> (forall a, P [a]) -> (forall a b, P [a; b]) ->
  (forall a b c, P [a; b; c]) ->
  (forall a b c d l, P l -> P (a :: b :: c :: d :: l)) ->
  forall l, P l.
Proof.
  intros H0 H1 H2 H3 H4 l.
  assert (P l /\ (forall a, P (a :: l)) /\ (forall a b, P (a :: b :: l))
          /\ (forall a b c, P (a :: b :: c :: l))) as [Hl _].
  { induction l as [|x l (IH0 & IH1 & IH2 & IH3)].
    - auto.
    - repeat split; auto. }
  exact Hl.
Qed.

Lemma div4_step (n : nat) : (S (S (S (S n))) / 4 = S (n / 4))%nat.
Proof.
  replace (S (S (S (S n)))) with (1 * 4 + n)%nat by lia.
  rewrite Nat.div_add_l by lia. reflexivity.
Qed.

Section CryptoFacts.
Context {K : Keystream}.

Lemma decrypt_step_seed seed seed2 w :
  fst (snd (decrypt_step seed seed2 w)) = next_seed seed.
Proof. reflexivity. Qed.

Lemma decrypt_index_in_bounds seed :
  0 <= 0x400 + Z.land seed 0xff < CryptoBuffer_len.
Proof.
  change 0xff with (Z.ones 8). rewrite Z.land_ones by lia.
  pose proof (Z.mod_pos_bound seed (2 ^ 8)). unfold CryptoBuffer_len. lia.
Qed.

Lemma decrypt_seeds_from_schedule data : forall seed seed2,
  map fst (decrypt_seeds_from seed seed2 data)
  = seed_schedule (length data) seed.
Proof.
  induction data as [|w rest IH]; intros seed seed2; [reflexivity|].
  cbn [decrypt_seeds_from length seed_schedule map fst].
  f_equal. apply IH.
Qed.

Lemma decrypt_loop_length data : forall seed seed2,
  length (decrypt_loop seed seed2 data) = length data.
Proof.
  induction data as [|w rest IH]; intros seed seed2; [reflexivity|].
  cbn. f_equal. apply IH.
Qed.

(** One step of [decrypt], read off the lists of outputs and seeds. *)
Lemma decrypt_seeds_from_step data : forall seed seed2 i s s2 w,
  decrypt_seeds_from seed seed2 data !! i = Some (s, s2) ->
  data !! i = Some w ->
  decrypt_loop seed seed2 data !! i = Some (fst (decrypt_step s s2 w))
  /\ decrypt_seeds_from seed seed2 data !! S i
     = Some (snd (decrypt_step s s2 w)).
Proof.
  induction data as [|w0 rest IH]; intros seed seed2 i s s2 w Hs Hw.
  - destruct i; discriminate.
  - destruct i as [|i].
    + cbn in Hs, Hw. injection Hs as <- <-. injection Hw as <-.
      split; [reflexivity|].
      cbn [decrypt_seeds_from]. destruct rest; reflexivity.
    + cbn [decrypt_seeds_from decrypt_loop] in *.
      change ((?x :: ?l) !! S ?n) with (l !! n) in *.
      apply (IH _ _ _ _ _ _ Hs Hw).
Qed.

Lemma decryptBytes_loop_spec data : forall seed seed2,
  decryptBytes_loop seed seed2 data
  = (concat (map le_bytes (decrypt_loop seed seed2 (le_words data)))
     ++ drop (4 * (length data / 4)) data)%list.
Proof.
  induction data as [| | | |b0 b1 b2 b3 rest IH] using list_ind4;
    intros seed seed2; try reflexivity.
  cbn [decryptBytes_loop le_words decrypt_loop].
  destruct (decrypt_step seed seed2 (le_uint32 b0 b1 b2 b3))
    as [result [seed' seed2']].
  rewrite IH. cbn [map concat le_bytes app length].
  rewrite div4_step.
  replace (4 * S (length rest / 4))%nat
    with (S (S (S (S (4 * (length rest / 4))))))%nat by lia.
  reflexivity.
Qed.

Lemma le_words_length data :
  length (le_words data) = (length data / 4)%nat.
Proof.
  induction data as [| | | |b0 b1 b2 b3 rest IH] using list_ind4;
    try reflexivity.
  cbn [le_words length]. rewrite IH, div4_step. reflexivity.
Qed.

Lemma concat_le_bytes_length ws :
  length (concat (map le_bytes ws)) = (4 * length ws)%nat.
Proof.
  induction ws as [|w ws IH]; [reflexivity|].
  cbn [map concat]. rewrite length_app, IH. cbn. lia.
Qed.

End CryptoFacts.

(** With the sample table, the keys of the hash table and of the block
    table are those known of the archive format. *)
Lemma sample_table_keys :
  hashString (K := Sample.keystream) (U := Sample.unicode) "(hash table)" 3
  = Ret 0xC3AF3770
  /\ hashString (K := Sample.keystream) (U := Sample.unicode)
       "(block table)" 3
     = Ret 0xEC83B3A3.
Proof. split; vm_compute; reflexivity. Qed.

(** C7. In [decrypt] the second seed starts at 0xEEEEEEEE and is updated
    at each step from the decrypted output word, and the first seed follows
    the recurrence [next_seed], which does not look at the data: two inputs
    of equal length decrypted with the same seed run through the same
    sequence of first seeds. The output is a function of the table, the data
    and the seed alone. *)
Theorem decrypt_seed_schedule {K : Keystream} (data1 data2 : list Z)
    (seed : Z) :
  length data1 = length data2 ->
  map fst (decrypt_seeds data1 seed) = map fst (decrypt_seeds data2 seed)
  /\ map fst (decrypt_seeds data1 seed) = seed_schedule (length data1) seed
  /\ head (decrypt_seeds data1 seed) = Some (seed, 0xEEEEEEEE)
  /\ (forall i s s2 w,
        decrypt_seeds data1 seed !! i = Some (s, s2) ->
        data1 !! i = Some w ->
        let k := add32 s2 (CryptoBuffer (0x400 + Z.land s 0xff)) in
        let out := Z.lxor w (add32 s k) in
        decrypt data1 seed !! i = Some out
        /\ decrypt_seeds data1 seed !! S i
           = Some (next_seed s, add32 (add32 (add32 out k) (shl32 k 5)) 3))
  /\ (forall data seed', data = data1 -> seed' = seed ->
        decrypt data seed' = decrypt data1 seed).
Proof.
  intros Hlen. unfold decrypt_seeds, decrypt.
  rewrite !decrypt_seeds_from_schedule, Hlen.
  split; [reflexivity|]. split; [reflexivity|].
  split; [destruct data1; reflexivity|]. split.
  - intros i s s2 w Hs Hw.
    exact (decrypt_seeds_from_step _ _ _ _ _ _ _ Hs Hw).
  - intros data seed' -> ->. reflexivity.
Qed.

(** The run of [decrypt] on a fixed vector with the sample table. *)
Lemma decrypt_seed_schedule_witness :
  length [0x11111111; 0x22222222; 0x33333333] = length [0; 1; 2]
  /\ map fst (decrypt_seeds (K := Sample.keystream)
                [0x11111111; 0x22222222; 0x33333333] 0xC3AF3770)
     = map fst (decrypt_seeds (K := Sample.keystream) [0; 1; 2] 0xC3AF3770)
  /\ decrypt (K := Sample.keystream)
       [0x11111111; 0x22222222; 0x33333333] 0xC3AF3770
     = [0x972DDEDD; 0xDCD92797; 0x89605D4A].
Proof.
  split; [reflexivity|]. split.
  - apply (decrypt_seed_schedule (K := Sample.keystream)
             [0x11111111; 0x22222222; 0x33333333] [0; 1; 2] 0xC3AF3770).
    reflexivity.
  - vm_compute. reflexivity.
Defined.

(** C8. [decryptBytes] decrypts the leading [4 * (len / 4)] bytes, as the
    little-endian words that [decrypt] makes of them, and leaves the bytes
    from index [4 * (len / 4)] on as they are; a buffer of fewer than four
    bytes is left as it is. *)
Theorem decryptBytes_trailing_bytes_untouched {K : Keystream}
    (data : list ascii) (seed : Z) :
  let n := (4 * (length data / 4))%nat in
  length (decryptBytes data seed) = length data
  /\ take n (decryptBytes data seed)
     = concat (map le_bytes (decrypt (le_words data) seed))
  /\ (forall i, (n <= i)%nat -> decryptBytes data seed !! i = data !! i)
  /\ ((length data < 4)%nat -> decryptBytes data seed = data).
Proof.
  intros n. unfold decryptBytes, decrypt.
  rewrite decryptBytes_loop_spec. fold n.
  set (words := concat (map le_bytes
                  (decrypt_loop seed 4008636142 (le_words data)))).
  assert (length words = n) as Hwords.
  { unfold words. rewrite concat_le_bytes_length, decrypt_loop_length,
      le_words_length. reflexivity. }
  assert (n <= length data)%nat as Hn.
  { unfold n. pose proof (Nat.Div0.mul_div_le (length data) 4). lia. }
  repeat split.
  - rewrite length_app, length_drop. lia.
  - rewrite take_app_length'; [reflexivity | symmetry; exact Hwords].
  - intros i Hi. rewrite lookup_app_r by lia. rewrite lookup_drop.
    f_equal. lia.
  - intros Hshort.
    assert (n = 0%nat) as Hn0.
    { unfold n. rewrite Nat.div_small by lia. reflexivity. }
    destruct words; [|rewrite Hn0 in Hwords; discriminate].
    rewrite Hn0. reflexivity.
Qed.

Lemma decryptBytes_trailing_bytes_untouched_witness :
  (length ["a"%char; "b"%char; "c"%char] < 4)%nat
  /\ decryptBytes (K := Sample.keystream) ["a"%char; "b"%char; "c"%char] 7
     = ["a"%char; "b"%char; "c"%char].
Proof.
  split; [cbn; lia|].
  apply (decryptBytes_trailing_bytes_untouched (K := Sample.keystream)
           ["a"%char; "b"%char; "c"%char] 7).
  cbn; lia.
Defined.

(* ===================================================================== *)
(** * Properties of the file locator                                      *)
(* ===================================================================== *)

Section LocatorFacts.
Context {K : Keystream} {U : Unicode} {P : Platform}.

(** The scan returns the first entry in stored order whose two hashes
    match. *)
Lemma findHashEntry_first hashA hashB pre e post :
  forallb (fun x => negb (matches hashA hashB x)) pre = true ->
  matches hashA hashB e = true ->
  findHashEntry hashA hashB (pre ++ e :: post) = (e, None).
Proof.
  unfold matches. intros Hpre He.
  induction pre as [|x pre IH]; cbn [app findHashEntry].
  - apply andb_true_iff in He as [-> ->]. reflexivity.
  - cbn [forallb] in Hpre. apply andb_true_iff in Hpre as [Hx Hpre].
    rewrite <- negb_andb, Hx. apply IH, Hpre.
Qed.

Lemma findHashEntry_none hashA hashB entries :
  forallb (fun x => negb (matches hashA hashB x)) entries = true ->
  findHashEntry hashA hashB entries
  = (HashTableEntry_zero, errors_New "file not found").
Proof.
  unfold matches. intros Hall.
  induction entries as [|x entries IH]; cbn [findHashEntry]; [reflexivity|].
  cbn [forallb] in Hall. apply andb_true_iff in Hall as [Hx Hall].
  rewrite <- negb_andb, Hx. apply IH, Hall.
Qed.

(** A block index within the table: the entry at that index. *)
Lemma getFileBlockData_in_bounds (v : MPQ) name e blk :
  getFileHashEntry v name = Ret (e, None) ->
  0 <= BlockIndex e ->
  BlockIndex e < wrap (Z.of_nat (length (BlockTableEntries v))) ->
  BlockTableEntries v !! Z.to_nat (BlockIndex e) = Some blk ->
  getFileBlockData v name = Ret (blk, None).
Proof.
  intros He Hlo Hhi Hblk. unfold getFileBlockData. rewrite He. cbn.
  destruct (Z.leb_spec (wrap (Z.of_nat (length (BlockTableEntries v))))
                       (BlockIndex e)); [lia|].
  unfold index. destruct (Z.ltb_spec (BlockIndex e) 0); [lia|].
  rewrite Hblk. reflexivity.
Qed.

(** No matching entry: [getFileBlockData] hands the error on. *)
Lemma getFileBlockData_not_found (v : MPQ) name e msg :
  getFileHashEntry v name = Ret (e, Some msg) ->
  getFileBlockData v name = Ret (BlockTableEntry_zero, Some msg).
Proof.
  intros He. unfold getFileBlockData. rewrite He. reflexivity.
Qed.

End LocatorFacts.

(** C1. When the entry that matches the name stores a block index beyond
    the block table, [getFileBlockData] returns the zero block entry
    together with the error of [getFileHashEntry], which is nil: the caller
    sees no failure. *)
Theorem getFileBlockData_out_of_bounds_nil_error
    {K : Keystream} {U : Unicode} {P : Platform} (v : MPQ) (name : string)
    (e : HashTableEntry) :
  getFileHashEntry v name = Ret (e, None) ->
  wrap (Z.of_nat (length (BlockTableEntries v))) <= BlockIndex e ->
  getFileBlockData v name = Ret (BlockTableEntry_zero, None).
Proof.
  intros He Hout. unfold getFileBlockData. rewrite He. cbn.
  destruct (Z.leb_spec (wrap (Z.of_nat (length (BlockTableEntries v))))
                       (BlockIndex e)); [reflexivity | lia].
Qed.

Lemma getFileBlockData_out_of_bounds_nil_error_witness :
  getFileHashEntry (K := Sample.keystream) (U := Sample.unicode)
    (archiveOf (P := Sample.diskless) Sample.noFile
       [entryFor (K := Sample.keystream) (U := Sample.unicode) "a.txt" 5]
       [] None) "a.txt"
  = Ret (entryFor (K := Sample.keystream) (U := Sample.unicode) "a.txt" 5,
         None)
  /\ getFileBlockData (K := Sample.keystream) (U := Sample.unicode)
       (archiveOf (P := Sample.diskless) Sample.noFile
          [entryFor (K := Sample.keystream) (U := Sample.unicode) "a.txt" 5]
          [] None) "a.txt"
     = Ret (BlockTableEntry_zero, None).
Proof.
  split; [vm_compute; reflexivity|].
  apply (getFileBlockData_out_of_bounds_nil_error
           (K := Sample.keystream) (U := Sample.unicode)
           (P := Sample.diskless) _ "a.txt"
           (entryFor (K := Sample.keystream) (U := Sample.unicode)
              "a.txt" 5)).
  - vm_compute; reflexivity.
  - vm_compute; discriminate.
Defined.

(* ===================================================================== *)
(** * Properties of ReadFile                                              *)
(* ===================================================================== *)

(** Unfolding the binds of [IO] and [outcome]. *)
Ltac unfold_io :=
  unfold mbind, mret, IO_bind, IO_ret, io_bind, io_ret, outcome_bind,
    outcome_ret, lift, emit, getWorld, putWorld, log_Panic in *.

Section ReadFileFacts.
Context {K : Keystream} {U : Unicode} {P : Platform} {R : Resource} {X : Extractor}.

(** A cached name is served from the cache: the state, and with it the
    trace, is left as it is. *)
Lemma ReadFile_hit (v : MPQ) name w buf :
  cacheOf w v !! normalize name = Some buf ->
  ReadFile v name w = Ret ((buf, None), w).
Proof.
  intros Hhit. unfold ReadFile. fold (normalize name).
  unfold_io. rewrite Hhit. reflexivity.
Qed.

(** After a successful read the bytes are in the cache, under the
    normalized name. *)
Lemma ReadFile_caches (v : MPQ) name w buf w' :
  ReadFile v name w = Ret ((buf, None), w') ->
  cacheOf w' v !! normalize name = Some buf.
Proof.
  unfold ReadFile. fold (normalize name). unfold_io.
  destruct (cacheOf w v !! normalize name) as [cached|] eqn:Hc.
  - intros [= <- <-]. exact Hc.
  - destruct (getFileBlockData v (normalize name)) as [[blk err]|];
      [|discriminate].
    destruct err; [discriminate|].
    destruct (calculateEncryptionSeed _) as [blk'|]; [|discriminate].
    destruct (CreateStream v blk' (normalize name)) as [[s err]|];
      [|discriminate].
    destruct err; [discriminate|].
    destruct (Stream_Read s _ 0 _) as [buffer|]; [|discriminate].
    unfold cacheStore. unfold_io.
    destruct (fileCache v) as [ref|] eqn:Href; [|discriminate].
    intros [= <- <-]. unfold cacheOf. rewrite Href. cbn.
    rewrite lookup_insert_eq. cbn. apply lookup_insert_eq.
Qed.

(** On a miss, the entry that [ReadFile] hands to the extractor is the
    one that [calculateEncryptionSeed] leaves: its seed is [readSeed] of the
    block entry found and the name. *)
Lemma ReadFile_miss (v : MPQ) name w blk e :
  cacheOf w v !! normalize name = None ->
  getFileBlockData v (normalize name) = Ret (blk, None) ->
  calculateEncryptionSeed
    (withFileName blk (GoString.ToLower (normalize name))) = Ret e ->
  readSeed blk name = Ret (EncryptionSeed e)
  /\ ReadFile v name w
     = (_ ← emit (EvLocate (normalize name));
        _ ← emit (EvExtract (normalize name));
        '(mpqStream, err) ← lift (CreateStream v e (normalize name));
        match err with
        | Some _ => mret ([], err)
        | None =>
            buffer ← lift (Stream_Read mpqStream
                             (replicate (Z.to_nat (UncompressedFileSize e))
                                        zero)
                             0 (UncompressedFileSize e));
            _ ← cacheStore v (normalize name) buffer;
            mret (buffer, None)
        end) w.
Proof.
  intros Hmiss Hblk Hseed. split.
  - unfold readSeed. rewrite Hseed. reflexivity.
  - unfold ReadFile. fold (normalize name). unfold_io.
    rewrite Hmiss, Hblk, Hseed. reflexivity.
Qed.

End ReadFileFacts.

(** C9. [ReadFile] looks a file up and caches it under the normalized
    name: after a successful read, a read of any name with the same
    normalized name returns the cached bytes and leaves the state of the
    process, and so the trace of calls to the file locator and to the
    sector extractor, as it is. *)
Theorem ReadFile_second_read_from_cache
    {K : Keystream} {U : Unicode} {P : Platform} {R : Resource} {X : Extractor}
    (v : MPQ) (name name' : string) (w w' : World) (buf : list ascii) :
  ReadFile v name w = Ret ((buf, None), w') ->
  normalize name' = normalize name ->
  cacheOf w' v !! normalize name = Some buf
  /\ ReadFile v name' w' = Ret ((buf, None), w')
  /\ (forall r w'', ReadFile v name' w' = Ret (r, w'') ->
        trace w'' = trace w').
Proof.
  intros Hread Hnorm.
  pose proof (ReadFile_caches _ _ _ _ _ Hread) as Hcached.
  assert (ReadFile v name' w' = Ret ((buf, None), w')) as Hsecond.
  { apply ReadFile_hit. rewrite Hnorm. exact Hcached. }
  split; [exact Hcached|]. split; [exact Hsecond|].
  intros r w'' Hr. rewrite Hsecond in Hr. injection Hr as _ <-. reflexivity.
Qed.

Lemma odd_wrap x : Z.odd (wrap x) = Z.odd x.
Proof.
  unfold wrap, modulus. rewrite <- !Z.bit0_odd.
  apply Z.mod_pow2_bits_low. lia.
Qed.

Lemma odd_lxor a b : Z.odd (Z.lxor a b) = xorb (Z.odd a) (Z.odd b).
Proof. rewrite <- !Z.bit0_odd. apply Z.lxor_spec. Qed.

Lemma odd_add32 a b : Z.odd (add32 a b) = xorb (Z.odd a) (Z.odd b).
Proof. unfold add32. rewrite odd_wrap. apply Z.odd_add. Qed.

Lemma odd_shl32_5 a : Z.odd (shl32 a 5) = false.
Proof.
  unfold shl32. rewrite odd_wrap, Z.shiftl_mul_pow2 by lia.
  rewrite Z.odd_mul. apply andb_false_r.
Qed.

Section HashParity.
Context {K : Keystream} {U : Unicode}.

(** The parity of a hash is that of the table entry of the last
    character, turned by the parities of the character before it and of
    the second seed before that. *)
Lemma hashString_loop_parity t s1 s2 c d h :
  hashString_loop t s1 s2 [c; d] = Ret h ->
  exists x, CryptoBuffer_at (add32 (mul32 t 0x100) (wrap d)) = Ret x
    /\ Z.odd h = xorb (Z.odd x) (xorb (Z.odd c) (negb (Z.odd s2))).
Proof.
  cbn [hashString_loop]. unfold mbind, outcome_bind.
  destruct (CryptoBuffer_at (add32 (mul32 t 256) (wrap c))) as [y|];
    [|discriminate].
  destruct (CryptoBuffer_at (add32 (mul32 t 256) (wrap d))) as [x|];
    [|discriminate].
  intros [= <-]. exists x. split; [reflexivity|].
  rewrite odd_lxor, !odd_add32, odd_shl32_5, odd_wrap, odd_lxor,
    odd_add32.
  change (Z.odd 3) with true.
  destruct (Z.odd x), (Z.odd y), (Z.odd s1), (Z.odd s2), (Z.odd c);
    reflexivity.
Qed.

Lemma hashString_loop_cons t s1 s2 c rest x :
  CryptoBuffer_at (add32 (mul32 t 0x100) (wrap c)) = Ret x ->
  hashString_loop t s1 s2 (c :: rest)
  = hashString_loop t (Z.lxor x (add32 s1 s2))
      (add32 (add32 (add32 (add32 (wrap c) (Z.lxor x (add32 s1 s2))) s2)
                    (shl32 s2 5)) 3) rest.
Proof. intros Hx. cbn [hashString_loop]. rewrite Hx. reflexivity. Qed.

(** A name of ASCII letters is hashed without a panic. *)
Lemma hashString_a_b_returns t (sep : Z) :
  t = 1 \/ t = 2 \/ t = 3 -> sep = 47 \/ sep = 92 ->
  returns (hashString_loop t 0x7FED7FED 0xEEEEEEEE [65; sep; 66]).
Proof.
  intros Ht Hsep. unfold returns.
  destruct Ht as [-> | [-> | ->]], Hsep as [-> | ->];
    eexists; reflexivity.
Qed.

(** The two hashes of a name change when a slash in it, followed by
    another character, becomes a backslash. *)
Lemma hash_slash_backslash t :
  t = 1 \/ t = 2 ->
  exists h h', hashString "a/b" t = Ret h
    /\ hashString "a\b" t = Ret h'
    /\ h <> h'.
Proof.
  intros Ht. unfold hashString.
  replace (GoString.runes (GoString.ToUpper "a/b")) with [65; 47; 66]
    by (vm_compute; reflexivity).
  replace (GoString.runes (GoString.ToUpper "a\b")) with [65; 92; 66]
    by (vm_compute; reflexivity).
  destruct (hashString_a_b_returns t 47) as [h Hh]; [tauto | tauto |].
  destruct (hashString_a_b_returns t 92) as [h' Hh']; [tauto | tauto |].
  exists h, h'. split; [exact Hh|]. split; [exact Hh'|].
  assert (CryptoBuffer_at (add32 (mul32 t 256) (wrap 65))
          = Ret (CryptoBuffer (t * 256 + 65))) as H65
    by (destruct Ht as [-> | ->]; reflexivity).
  rewrite (hashString_loop_cons _ _ _ _ _ _ H65) in Hh.
  rewrite (hashString_loop_cons _ _ _ _ _ _ H65) in Hh'.
  apply hashString_loop_parity in Hh as (x & Hx & Hodd).
  apply hashString_loop_parity in Hh' as (x' & Hx' & Hodd').
  rewrite Hx in Hx'. injection Hx' as <-.
  intros <-. rewrite Hodd in Hodd'.
  change (Z.odd 47) with true in Hodd'.
  change (Z.odd 92) with false in Hodd'.
  revert Hodd'. clear.
  match goal with |- context [negb ?q] => generalize q end.
  intros q. destruct (Z.odd x), q; cbn; discriminate.
Qed.

End HashParity.

Section FileExistsFacts.
Context {K : Keystream} {U : Unicode} {P : Platform}.

Lemma findHashEntry_error hashA hashB entries :
  bool_decide (snd (findHashEntry hashA hashB entries) = None)
  = existsb (matches hashA hashB) entries.
Proof.
  induction entries as [|e entries IH]; [reflexivity|].
  cbn [findHashEntry existsb]. unfold matches at 1.
  rewrite <- negb_andb.
  destruct ((NamePartA e =? hashA) && (NamePartB e =? hashB));
    [reflexivity | exact IH].
Qed.

(** [FileExists] looks for the hashes of the name as it is given. *)
Lemma FileExists_spec (v : MPQ) name hashA hashB :
  hashString name 1 = Ret hashA ->
  hashString name 2 = Ret hashB ->
  FileExists v name
  = Ret (existsb (matches hashA hashB) (HashTableEntries v)).
Proof.
  intros HA HB. unfold FileExists, getFileHashEntry.
  rewrite HA, HB. cbn.
  rewrite <- findHashEntry_error.
  destruct (findHashEntry hashA hashB (HashTableEntries v)); reflexivity.
Qed.

End FileExistsFacts.

(** C10. [FileExists] hashes the name as it is given, where [ReadFile]
    first normalizes it. For the archive that stores one file under the
    name [a\b], [ReadFile] finds the file under the name [a/b], which it
    turns into [a\b], while [FileExists] answers false for [a/b] and true
    for [a\b]. *)
Theorem FileExists_skips_normalization
    {K : Keystream} {U : Unicode} {P : Platform} {R : Resource} {X : Extractor}
    (file : File) (blk : BlockTableEntry) (ref : nat) (w : World) :
  (forall e, exists s,
     CreateStream (archiveOf file [entryFor "a\b" 0] [blk] (Some ref)) e "a\b"
     = Ret (s, None)) ->
  (forall s buffer,
     returns (Stream_Read s buffer 0 (UncompressedFileSize blk))) ->
  normalize "a/b" = "a\b"
  /\ (exists buf w',
        ReadFile (archiveOf file [entryFor "a\b" 0] [blk] (Some ref)) "a/b" w
        = Ret ((buf, None), w'))
  /\ FileExists (archiveOf file [entryFor "a\b" 0] [blk] (Some ref)) "a/b"
     = Ret false
  /\ FileExists (archiveOf file [entryFor "a\b" 0] [blk] (Some ref)) "a\b"
     = Ret true
  /\ (forall (v : MPQ) name hashA hashB,
        hashString name 1 = Ret hashA ->
        hashString name 2 = Ret hashB ->
        FileExists v name
        = Ret (existsb (matches hashA hashB) (HashTableEntries v))).
Proof.
  intros Hcreate Hread.
  set (v := archiveOf file [entryFor "a\b" 0] [blk] (Some ref)).
  destruct (hash_slash_backslash 1) as (hA' & hA & HA' & HA & HneA);
    [tauto|].
  destruct (hash_slash_backslash 2) as (hB' & hB & HB' & HB & HneB);
    [tauto|].
  assert (normalize "a/b" = "a\b") as Hnorm by (vm_compute; reflexivity).
  assert (hashValue "a\b" 1 = hA) as HvA
    by (unfold hashValue; rewrite HA; reflexivity).
  assert (hashValue "a\b" 2 = hB) as HvB
    by (unfold hashValue; rewrite HB; reflexivity).
  split; [exact Hnorm|]. split; [|split; [|split]].
  - destruct (cacheOf w v !! "a\b") as [cached|] eqn:Hc.
    + exists cached, w. apply ReadFile_hit. rewrite Hnorm. exact Hc.
    + unfold ReadFile. fold (normalize "a/b"). rewrite Hnorm.
      unfold_io. rewrite Hc.
      assert (getFileBlockData v "a\b" = Ret (blk, None)) as ->.
      { apply (getFileBlockData_in_bounds v "a\b" (entryFor "a\b" 0)).
        - unfold getFileHashEntry. rewrite HA, HB. cbn.
          rewrite HvA, HvB, !Z.eqb_refl. reflexivity.
        - reflexivity.
        - reflexivity.
        - reflexivity. }
      assert (returns (calculateEncryptionSeed
                (withFileName blk (GoString.ToLower "a\b")))) as [e He].
      { unfold calculateEncryptionSeed.
        replace (hashString _ 3) with
          (hashString_loop 3 0x7FED7FED 0xEEEEEEEE [65; 92; 66])
          by (unfold hashString; f_equal).
        destruct (hashString_a_b_returns 3 92) as [h ->]; [tauto | tauto |].
        cbn. destruct (negb _); eexists; reflexivity. }
      rewrite He.
      destruct (Hcreate e) as [s Hs]. fold v in Hs. rewrite Hs.
      assert (UncompressedFileSize e = UncompressedFileSize blk) as ->.
      { revert He. unfold calculateEncryptionSeed.
        destruct (hashString _ 3); [|discriminate]. cbn.
        destruct (negb _); intros [= <-]; reflexivity. }
      destruct (Hread s (replicate (Z.to_nat (UncompressedFileSize blk))
                                   zero)) as [buffer ->].
      unfold cacheStore. unfold_io. cbn. eexists _, _. reflexivity.
  - rewrite (FileExists_spec v "a/b" hA' hB' HA' HB').
    unfold matches. cbn. rewrite HvA.
    destruct (Z.eqb_spec hA hA'); [congruence | reflexivity].
  - rewrite (FileExists_spec v "a\b" hA hB HA HB).
    unfold matches. cbn. rewrite HvA, HvB, !Z.eqb_refl. reflexivity.
  - intros v0 name hashA hashB. apply FileExists_spec.
Qed.

Lemma ReadFile_second_read_from_cache_witness :
  ReadFile (K := Sample.keystream) (U := Sample.unicode)
    (R := Sample.resource) (X := Sample.helloStored)
    (Sample.helloArchive "data\hello.txt") "DATA/Hello.txt"
    Sample.emptyWorld
  = Ret ((Sample.helloBytes, None), Sample.helloRead "data\hello.txt")
  /\ normalize (U := Sample.unicode) (R := Sample.resource)
       "data\hello.txt"
     = normalize (U := Sample.unicode) (R := Sample.resource)
         "DATA/Hello.txt"
  /\ ReadFile (K := Sample.keystream) (U := Sample.unicode)
       (R := Sample.resource) (X := Sample.helloStored)
       (Sample.helloArchive "data\hello.txt") "data\hello.txt"
       (Sample.helloRead "data\hello.txt")
     = Ret ((Sample.helloBytes, None), Sample.helloRead "data\hello.txt").
Proof.
  assert (ReadFile (K := Sample.keystream) (U := Sample.unicode)
            (R := Sample.resource) (X := Sample.helloStored)
            (Sample.helloArchive "data\hello.txt") "DATA/Hello.txt"
            Sample.emptyWorld
          = Ret ((Sample.helloBytes, None),
                 Sample.helloRead "data\hello.txt")) as Hfirst
    by (vm_compute; reflexivity).
  assert (normalize (U := Sample.unicode) (R := Sample.resource)
            "data\hello.txt"
          = normalize (U := Sample.unicode) (R := Sample.resource)
              "DATA/Hello.txt") as Hnorm
    by (vm_compute; reflexivity).
  split; [exact Hfirst|]. split; [exact Hnorm|].
  apply (ReadFile_second_read_from_cache
           (K := Sample.keystream) (U := Sample.unicode)
           (R := Sample.resource) (X := Sample.helloStored)
           _ _ _ _ _ _ Hfirst Hnorm).
Defined.

Lemma FileExists_skips_normalization_witness :
  (exists buf w',
     ReadFile (K := Sample.keystream) (U := Sample.unicode)
       (R := Sample.resource) (X := Sample.helloStored)
       (Sample.helloArchive "a\b") "a/b" Sample.emptyWorld
     = Ret ((buf, None), w'))
  /\ FileExists (K := Sample.keystream) (U := Sample.unicode)
       (Sample.helloArchive "a\b") "a/b"
     = Ret false.
Proof.
  assert (forall e, exists s,
            CreateStream (Extractor := Sample.helloStored)
              (Sample.helloArchive "a\b") e "a\b" = Ret (s, None)) as Hc
    by (intros e; eexists; reflexivity).
  assert (forall s buffer,
            returns (Stream_Read (Extractor := Sample.helloStored) s buffer 0
                       (UncompressedFileSize (Sample.blockAt 0 5 0)))) as Hr
    by (intros s buffer; eexists; reflexivity).
  pose proof (FileExists_skips_normalization
                (K := Sample.keystream) (U := Sample.unicode)
                (R := Sample.resource) (X := Sample.helloStored)
                Sample.helloFile (Sample.blockAt 0 5 0) 0%nat
                Sample.emptyWorld Hc Hr) as (_ & Hread & Hfalse & _).
  split; [exact Hread | exact Hfalse].
Defined.

(* ===================================================================== *)
(** * The encryption seed                                                 *)
(* ===================================================================== *)

Section SeedFacts.
Context {K : Keystream} {U : Unicode}.

(** The seed is the hash of [path.Base] of the name in the entry, turned
    by the position and the size of the file when the fix-key flag is
    set. *)
Lemma calculateEncryptionSeed_spec (v : BlockTableEntry) :
  calculateEncryptionSeed v
  = h ← hashString (GoPath.Base (FileName v)) 3;
    mret (withEncryptionSeed v
            (if HasFlag v FileFixKey
             then Z.lxor (add32 h (FilePosition v))
                         (UncompressedFileSize v)
             else h)).
Proof.
  unfold calculateEncryptionSeed.
  destruct (hashString (GoPath.Base (FileName v)) 3) as [h|];
    [|reflexivity].
  cbn. unfold HasFlag. cbn.
  destruct (Z.land (Flags v) FileFixKey =? 0); reflexivity.
Qed.

Lemma last_element_no_slash (rev_path acc : list ascii) :
  forallb (fun c => negb (GoPath.is_slash c)) rev_path = true ->
  GoPath.last_element rev_path acc = (rev rev_path ++ acc)%list.
Proof.
  revert acc. induction rev_path as [|c rest IH]; intros acc Hno;
    [reflexivity|].
  cbn [forallb] in Hno. apply andb_true_iff in Hno as [Hc Hrest].
  cbn [GoPath.last_element rev]. apply negb_true_iff in Hc. rewrite Hc.
  rewrite IH by exact Hrest. rewrite <- app_assoc. reflexivity.
Qed.

(** [path.Base] splits a path at its slashes only: a name without a
    slash is its own last element, whatever backslashes it holds. *)
Lemma Base_no_slash (name : string) :
  name <> "" ->
  forallb (fun c => negb (GoPath.is_slash c)) (list_ascii_of_string name)
  = true ->
  GoPath.Base name = name.
Proof.
  intros Hne Hno. unfold GoPath.Base.
  destruct name as [|c name]; [congruence|].
  set (l := list_ascii_of_string (String c name)) in *.
  assert (forallb (fun c => negb (GoPath.is_slash c)) (rev l) = true)
    as Hrev.
  { apply forallb_forall. intros x Hx. apply in_rev in Hx.
    exact (proj1 (forallb_forall _ _) Hno x Hx). }
  assert (GoPath.strip_slashes (rev l) = rev l) as ->.
  { destruct (rev l) as [|x r] eqn:Hr; [reflexivity|].
    cbn [forallb] in Hrev. apply andb_true_iff in Hrev as [Hx _].
    cbn. apply negb_true_iff in Hx. rewrite Hx. reflexivity. }
  rewrite last_element_no_slash by exact Hrev.
  rewrite rev_involutive, app_nil_r.
  unfold l. cbn [list_ascii_of_string string_of_list_ascii].
  f_equal. apply string_of_list_ascii_of_string.
Qed.

End SeedFacts.

(** C3. The seed that [ReadFile] computes for the name [data/x.txt] and a
    block entry without flags is, for every table, the hash of the whole
    normalized name [data\x.txt]: [path.Base] splits at slashes, and the
    normalized name has none left. With the sample table this is not the
    hash of the last component [x.txt]. *)
Theorem readSeed_hashes_whole_name
    {K : Keystream} {U : Unicode} {R : Resource} (position size : Z) :
  normalize "data/x.txt" = "data\x.txt"
  /\ GoPath.Base "data\x.txt" = "data\x.txt"
  /\ readSeed (Sample.blockAt position size 0) "data/x.txt"
     = hashString "data\x.txt" 3
  /\ hashString (K := Sample.keystream) (U := Sample.unicode)
       "data\x.txt" 3 = Ret 2174600857
  /\ hashString (K := Sample.keystream) (U := Sample.unicode) "x.txt" 3
     = Ret 927827393.
Proof.
  assert (GoString.ToLower (normalize "data/x.txt") = "data\x.txt") as Hname
    by (vm_compute; reflexivity).
  split; [vm_compute; reflexivity|]. split; [vm_compute; reflexivity|].
  split; [|split; vm_compute; reflexivity].
  unfold readSeed. rewrite Hname, calculateEncryptionSeed_spec.
  cbn [FileName withFileName].
  replace (GoPath.Base "data\x.txt") with "data\x.txt"
    by (vm_compute; reflexivity).
  destruct (hashString "data\x.txt" 3); reflexivity.
Qed.

(* ===================================================================== *)
(** * Opening an archive                                                  *)
(* ===================================================================== *)

Section LoadFacts.
Context {K : Keystream} {U : Unicode} {P : Platform}.

Lemma loadHashTable_fails (v : MPQ) w msg :
  tableReadFails (HashTableOffset (MPQ_Data v))
    (Data_HashTableEntries (MPQ_Data v)) (MPQ_File v) msg ->
  loadHashTable v w = Panic msg.
Proof.
  intros [[f Hs] | (f & f' & buf & Hs & Hn & Hr)];
    unfold loadHashTable, seek; unfold_io; rewrite Hs; cbn; [reflexivity|].
  unfold binary_Read.
  destruct (Z.eqb_spec
              (4 * mul32 (Data_HashTableEntries (MPQ_Data v)) 4) 0)
    as [H0|_]; [lia|].
  unfold_io. rewrite Hr. reflexivity.
Qed.

Lemma loadBlockTable_fails (v : MPQ) w msg :
  tableReadFails (BlockTableOffset (MPQ_Data v))
    (Data_BlockTableEntries (MPQ_Data v)) (MPQ_File v) msg ->
  loadBlockTable v w = Panic msg.
Proof.
  intros [[f Hs] | (f & f' & buf & Hs & Hn & Hr)];
    unfold loadBlockTable, seek; unfold_io; rewrite Hs; cbn;
    [reflexivity|].
  unfold binary_Read.
  destruct (Z.eqb_spec
              (4 * mul32 (Data_BlockTableEntries (MPQ_Data v)) 4) 0)
    as [H0|_]; [lia|].
  unfold_io. rewrite Hr. reflexivity.
Qed.

End LoadFacts.

Section TraceFacts.
Context {K : Keystream} {U : Unicode} {P : Platform}.

Lemma extends_refl (w : World) :
  mpqCache w = mpqCache w /\ archives w = archives w
  /\ fileCaches w = fileCaches w
  /\ exists tl, trace w = (trace w ++ tl)%list.
Proof.
  repeat split. exists []. symmetry. apply app_nil_r.
Qed.

Lemma extends_ret {A} (a : A) : extends_trace (mret a).
Proof. intros w a' w' [= <- <-]. apply extends_refl. Qed.

Lemma extends_lift {A} (m : outcome A) : extends_trace (lift m).
Proof.
  intros w a w'. unfold lift. destruct m; [|discriminate].
  intros [= <- <-]. apply extends_refl.
Qed.

Lemma extends_panic {A} msg : extends_trace (log_Panic (A := A) msg).
Proof. intros w a w'. discriminate. Qed.

Lemma extends_emit e : extends_trace (emit e).
Proof.
  intros w a w'. unfold emit. intros [= <- <-]. cbn.
  repeat split. exists [e]. reflexivity.
Qed.

Lemma extends_getWorld : extends_trace getWorld.
Proof.
  intros w a w'. unfold getWorld. intros [= <- <-]. apply extends_refl.
Qed.

Lemma extends_bind {A B} (m : IO A) (k : A -> IO B) :
  extends_trace m -> (forall a, extends_trace (k a)) ->
  extends_trace (m ≫= k).
Proof.
  intros Hm Hk w b w'. unfold mbind, IO_bind, io_bind.
  destruct (m w) as [[a w1]|] eqn:Hmw; [|discriminate].
  intros Hkw.
  destruct (Hm _ _ _ Hmw) as (Hc1 & Ha1 & Hf1 & tl1 & H1).
  destruct (Hk a _ _ _ Hkw) as (Hc2 & Ha2 & Hf2 & tl2 & H2).
  split; [congruence|]. split; [congruence|]. split; [congruence|].
  exists (tl1 ++ tl2)%list. rewrite H2, H1. symmetry. apply app_assoc.
Qed.

Lemma extends_open path : extends_trace (open path).
Proof.
  unfold open. apply extends_bind; [apply extends_emit|].
  intros _. apply extends_ret.
Qed.

Lemma extends_readDir dir : extends_trace (readDir dir).
Proof.
  unfold readDir. apply extends_bind; [apply extends_emit|].
  intros _. apply extends_ret.
Qed.

Lemma extends_seek f n : extends_trace (seek f n).
Proof.
  unfold seek. apply extends_bind; [apply extends_emit|].
  intros _. apply extends_ret.
Qed.

Lemma extends_binary_Read f n : extends_trace (binary_Read f n).
Proof.
  unfold binary_Read. destruct (n =? 0); [apply extends_ret|].
  apply extends_bind; [apply extends_emit|].
  intros _. apply extends_ret.
Qed.

End TraceFacts.

(** Goals [extends_trace m], by the shape of [m]. *)
Ltac extends_tac :=
  repeat
    match goal with
    | |- extends_trace (mret _) => apply extends_ret
    | |- extends_trace (lift _) => apply extends_lift
    | |- extends_trace (log_Panic _) => apply extends_panic
    | |- extends_trace (emit _) => apply extends_emit
    | |- extends_trace getWorld => apply extends_getWorld
    | |- extends_trace (open _) => apply extends_open
    | |- extends_trace (readDir _) => apply extends_readDir
    | |- extends_trace (seek _ _) => apply extends_seek
    | |- extends_trace (binary_Read _ _) => apply extends_binary_Read
    | |- extends_trace (_ ≫= _) => apply extends_bind; [|intros ?]
    | |- extends_trace (match ?x with _ => _ end) => destruct x
    end.

Section TraceFactsOfLoad.
Context {K : Keystream} {U : Unicode} {P : Platform}.

Lemma extends_loadHashTable (v : MPQ) : extends_trace (loadHashTable v).
Proof. unfold loadHashTable. extends_tac. Qed.

Lemma extends_loadBlockTable (v : MPQ) : extends_trace (loadBlockTable v).
Proof. unfold loadBlockTable. extends_tac. Qed.

Lemma extends_readHeader (v : MPQ) : extends_trace (readHeader v).
Proof.
  unfold readHeader. extends_tac;
    first [apply extends_loadHashTable | apply extends_loadBlockTable].
Qed.

End TraceFactsOfLoad.

Section RegistryFacts.
Context {K : Keystream} {U : Unicode} {P : Platform}.

(** A registered path is answered from the registry: the state, and
    with it the trace, is left as it is. *)
Lemma Load_hit fileName w ptr :
  mpqCache w !! fileName = Some ptr ->
  Load fileName w = Ret ((Some ptr, None), w).
Proof.
  intros Hhit. unfold Load. unfold_io. rewrite Hhit. reflexivity.
Qed.

Lemma Load_miss fileName w :
  mpqCache w !! fileName = None ->
  Load fileName w
  = ((if String.eqb runtime_GOOS "linux" then openIgnoreCase fileName
      else open fileName) ≫= Load_rest fileName) w.
Proof.
  intros Hmiss. unfold Load. unfold mbind at 1.
  unfold IO_bind, io_bind at 1. unfold getWorld at 1. rewrite Hmiss.
  reflexivity.
Qed.

(** Registration: the trace grows, and a pointer that is returned is
    that of a new archive, registered under the path. *)
Lemma Load_rest_spec fileName r w res w' :
  Load_rest fileName r w = Ret (res, w') ->
  (exists tl, trace w' = (trace w ++ tl)%list)
  /\ forall ptr, fst res = Some ptr ->
       ptr = length (archives w)
       /\ mpqCache w' = <[fileName := ptr]> (mpqCache w)
       /\ exists a, archives w' = (archives w ++ [a])%list.
Proof.
  unfold Load_rest. destruct r as [file|err].
  2:{ intros [= <- <-]. split; [apply extends_refl|]. discriminate. }
  unfold mbind at 1. unfold IO_bind, io_bind at 1. unfold getWorld at 1.
  unfold mbind at 1. unfold IO_bind, io_bind at 1.
  destruct (readHeader _ w) as [[[result err] w1]|] eqn:Hhdr;
    [|discriminate].
  destruct (extends_readHeader _ _ _ _ Hhdr) as (Hc & Ha & Hf & tl & Ht).
  destruct err.
  - intros [= <- <-]. split; [exists tl; exact Ht|]. discriminate.
  - unfold_io. intros [= <- <-]. cbn. split; [exists tl; exact Ht|].
    intros ptr [= <-]. rewrite Ha, Hc. split; [reflexivity|].
    split; [reflexivity|]. exists result. reflexivity.
Qed.

(** A path that is not registered is opened on disk, by a first call
    of [os.Open] on the path itself; when the call returns an archive, it
    is a new one, registered under the path. *)
Lemma Load_miss_opens fileName w res w' :
  mpqCache w !! fileName = None ->
  Load fileName w = Ret (res, w') ->
  (exists tl, trace w' = (trace w ++ EvOpen fileName :: tl)%list)
  /\ forall ptr, fst res = Some ptr ->
       ptr = length (archives w)
       /\ mpqCache w' = <[fileName := ptr]> (mpqCache w)
       /\ exists a, archives w' = (archives w ++ [a])%list.
Proof.
  intros Hmiss. rewrite (Load_miss _ _ Hmiss).
  assert (forall k : File + string -> IO (File + string),
            (forall x, extends_trace (k x)) ->
            ((open fileName ≫= k) ≫= Load_rest fileName) w
            = Ret (res, w') ->
            (exists tl, trace w' = (trace w ++ EvOpen fileName :: tl)%list)
            /\ forall ptr, fst res = Some ptr ->
                 ptr = length (archives w)
                 /\ mpqCache w' = <[fileName := ptr]> (mpqCache w)
                 /\ exists a, archives w' = (archives w ++ [a])%list)
    as Hopen.
  { intros k Hk. unfold open.
    unfold mbind at 1 2 3. unfold IO_bind, io_bind at 1 2 3.
    unfold emit at 1. unfold mret at 1. unfold IO_ret, io_ret at 1.
    destruct (k (os_Open fileName) _) as [[x w1]|] eqn:Hkx; [|discriminate].
    intros Hr.
    destruct (Hk _ _ _ _ Hkx) as (Hc & Ha & Hf & tl1 & H1).
    cbn in Hc, Ha, Hf, H1.
    destruct (Load_rest_spec _ _ _ _ _ Hr) as [[tl2 H2] Hptr].
    split.
    - exists (tl1 ++ tl2)%list. rewrite H2, H1, <- !app_assoc. reflexivity.
    - intros ptr Hres. destruct (Hptr ptr Hres) as (-> & -> & a & ->).
      rewrite Ha, Hc. repeat split. exists a. reflexivity. }
  destruct (String.eqb runtime_GOOS "linux").
  - intros Hr. apply (Hopen (fun r =>
      match r with
      | inl mpqFile => mret (inl mpqFile)
      | inr _ =>
          files ← readDir (GoPath.Dir fileName);
          match files with
          | inr err => mret (inr err)
          | inl files =>
              open (GoPath.Join (GoPath.Dir fileName)
                      (matchName files (GoPath.Base fileName)))
          end
      end)); [|exact Hr].
    intros x. extends_tac.
  - intros Hr. apply (Hopen mret); [intros x; apply extends_ret|].
    revert Hr. unfold open. unfold_io.
    destruct (Load_rest fileName (os_Open fileName) _); intros Hr; exact Hr.
Qed.

End RegistryFacts.

Section LoadErrors.
Context {K : Keystream} {U : Unicode} {P : Platform}.

(** An error that [readHeader] returns is that of the read of the
    header or tells that the magic signature is missing: once the tables
    are being loaded no error is returned. *)
Lemma readHeader_error (v v' : MPQ) w msg w' :
  readHeader v w = Ret ((v', Some msg), w') ->
  exists file' buf,
    binary_Read (MPQ_File v) Data_size w
    = Ret ((file', (buf, Some msg)), w')
    \/ (binary_Read (MPQ_File v) Data_size w
        = Ret ((file', (buf, None)), w')
        /\ Magic (decodeData buf) <> magic
        /\ msg = "invalid mpq header").
Proof.
  unfold readHeader.
  unfold mbind at 1. unfold IO_bind, io_bind at 1.
  destruct (binary_Read (MPQ_File v) Data_size w)
    as [[[file' [buf [e|]]] w1]|]; [| |discriminate].
  - intros [= _ <- <-]. exists file', buf. left. reflexivity.
  - cbn [MPQ_FileName MPQ_File HashTableEntries BlockTableEntries MPQ_Data
         fileCache].
    destruct (bool_decide (Magic (decodeData buf) = magic)) eqn:Hmagic;
      cbn [negb].
    + unfold mbind at 1. unfold IO_bind, io_bind at 1.
      destruct (loadHashTable _ w1) as [[v1 w2]|]; [|discriminate].
      unfold mbind at 1. unfold IO_bind, io_bind at 1.
      destruct (loadBlockTable v1 w2) as [[v2 w3]|]; discriminate.
    + apply bool_decide_eq_false_1 in Hmagic.
      intros [= _ <- <-]. exists file', buf. right.
      split; [reflexivity|]. split; [exact Hmagic | reflexivity].
Qed.

(** The same for [Load]: an error that it returns comes with no archive
    and is the error of the opening of the file, the error of the read of
    the header, or tells that the magic signature is missing. *)
Lemma Load_error_cause fileName w res msg w' :
  Load fileName w = Ret ((res, Some msg), w') ->
  res = None
  /\ mpqCache w !! fileName = None
  /\ ((if String.eqb runtime_GOOS "linux" then openIgnoreCase fileName
       else open fileName) w = Ret (inr msg, w')
      \/ exists file w1 file' buf,
           (if String.eqb runtime_GOOS "linux" then openIgnoreCase fileName
            else open fileName) w = Ret (inl file, w1)
           /\ (binary_Read file Data_size w1
               = Ret ((file', (buf, Some msg)), w')
               \/ (binary_Read file Data_size w1
                   = Ret ((file', (buf, None)), w')
                   /\ Magic (decodeData buf) <> magic
                   /\ msg = "invalid mpq header"))).
Proof.
  destruct (mpqCache w !! fileName) as [ptr|] eqn:Hreg.
  { rewrite (Load_hit _ _ _ Hreg). discriminate. }
  rewrite (Load_miss _ _ Hreg).
  unfold mbind at 1. unfold IO_bind, io_bind at 1.
  destruct ((if String.eqb runtime_GOOS "linux"
             then openIgnoreCase fileName else open fileName) w)
    as [[[file|err] w1]|]; [| |discriminate].
  - unfold Load_rest.
    unfold mbind at 1. unfold IO_bind, io_bind at 1. unfold getWorld at 1.
    unfold mbind at 1. unfold IO_bind, io_bind at 1.
    destruct (readHeader _ w1) as [[[v' [e|]] w2]|] eqn:Hhdr;
      [| |discriminate].
    + intros [= <- <- <-]. split; [reflexivity|]. split; [reflexivity|].
      right. apply readHeader_error in Hhdr as (file' & buf & Hcause).
      cbn [MPQ_File] in Hcause. exists file, w1, file', buf.
      split; [reflexivity | exact Hcause].
    + unfold_io. discriminate.
  - cbn [Load_rest]. intros [= <- <- <-].
    split; [reflexivity|]. split; [reflexivity|]. left. reflexivity.
Qed.

End LoadErrors.

(** C2 (as amended). Once the header has been read and carries the magic
    signature, a failure of the seek or of the read of the hash table, or,
    the hash table loaded, of the block table, makes [Load] panic with the
    error: it returns nothing to its caller. And an error that [Load]
    returns comes with no archive, for a path that is not registered, and
    is the error with which the file does not open, the error with which
    the header cannot be read, or [invalid mpq header] for a header without
    the magic signature: no failure of the loading of the tables is
    returned as an error. *)
Theorem Load_table_failure_panics
    {K : Keystream} {U : Unicode} {P : Platform}
    (fileName : string) (w : World) :
  (forall (w1 w2 : World) (file file' : File) (buf : list ascii)
          (msg : string),
     mpqCache w !! fileName = None ->
     (if String.eqb runtime_GOOS "linux" then openIgnoreCase fileName
      else open fileName) w = Ret (inl file, w1) ->
     binary_Read file Data_size w1 = Ret ((file', (buf, None)), w2) ->
     Magic (decodeData buf) = magic ->
     let v := {| MPQ_FileName := fileName;
                 MPQ_File := file';
                 HashTableEntries := [];
                 BlockTableEntries := [];
                 MPQ_Data := decodeData buf;
                 fileCache := Some (fresh (dom (fileCaches w1))) |} in
     (tableReadFails (HashTableOffset (MPQ_Data v))
        (Data_HashTableEntries (MPQ_Data v)) (MPQ_File v) msg
      \/ exists v' w',
           loadHashTable v w2 = Ret (v', w')
           /\ tableReadFails (BlockTableOffset (MPQ_Data v'))
                (Data_BlockTableEntries (MPQ_Data v')) (MPQ_File v') msg) ->
     Load fileName w = Panic msg)
  /\ (forall (res : option nat) (msg : string) (w' : World),
        Load fileName w = Ret ((res, Some msg), w') ->
        res = None
        /\ mpqCache w !! fileName = None
        /\ ((if String.eqb runtime_GOOS "linux"
             then openIgnoreCase fileName else open fileName) w
            = Ret (inr msg, w')
            \/ exists file w1 file' buf,
                 (if String.eqb runtime_GOOS "linux"
                  then openIgnoreCase fileName else open fileName) w
                 = Ret (inl file, w1)
                 /\ (binary_Read file Data_size w1
                     = Ret ((file', (buf, Some msg)), w')
                     \/ (binary_Read file Data_size w1
                         = Ret ((file', (buf, None)), w')
                         /\ Magic (decodeData buf) <> magic
                         /\ msg = "invalid mpq header")))).
Proof.
  split; [|apply Load_error_cause].
  intros w1 w2 file file' buf msg Hmiss Hopen Hhdr Hmagic v Hfail.
  unfold Load. unfold mbind at 1. unfold IO_bind, io_bind at 1.
  unfold getWorld at 1. rewrite Hmiss.
  unfold mbind at 1. unfold IO_bind, io_bind at 1. rewrite Hopen.
  unfold mbind at 1. unfold IO_bind, io_bind at 1. unfold getWorld at 1.
  unfold mbind at 1. unfold IO_bind, io_bind at 1.
  unfold readHeader. unfold mbind at 1. unfold IO_bind, io_bind at 1.
  cbn [MPQ_File]. rewrite Hhdr.
  cbn [MPQ_FileName MPQ_File HashTableEntries BlockTableEntries MPQ_Data
       fileCache].
  rewrite Hmagic. rewrite bool_decide_eq_true_2 by reflexivity.
  cbn [negb]. fold v.
  unfold mbind at 1. unfold IO_bind, io_bind at 1.
  destruct Hfail as [Hhash | (v' & w' & Hhash & Hblock)].
  - rewrite (loadHashTable_fails v w2 msg Hhash). reflexivity.
  - rewrite Hhash.
    unfold mbind at 1. unfold IO_bind, io_bind at 1.
    rewrite (loadBlockTable_fails v' w' msg Hblock). reflexivity.
Qed.

Lemma Load_table_failure_panics_witness :
  Magic (decodeData (Sample.header 32 32 1 0)) = magic
  /\ Load (K := Sample.keystream) (U := Sample.unicode)
       (P := Sample.truncated) "a.mpq" Sample.emptyWorld
     = Panic "EOF".
Proof.
  split; [reflexivity|].
  eapply (proj1 (Load_table_failure_panics (K := Sample.keystream)
                   (U := Sample.unicode) (P := Sample.truncated)
                   "a.mpq" Sample.emptyWorld) _ _ _ _ _ "EOF").
  - reflexivity.
  - reflexivity.
  - reflexivity.
  - reflexivity.
  - left. right. eexists _, _, _.
    split; [reflexivity|]. split; [discriminate | reflexivity].
Defined.

(** C2, the claim as stated fails: on an archive file that ends after a
    header with the magic signature and one announced hash entry, the read
    of the hash table meets the end of the file and [Load] panics instead
    of returning an error. *)
Lemma Load_table_failure_counterexample :
  Magic (decodeData (Sample.header 32 32 1 0)) = magic
  /\ Load (K := Sample.keystream) (U := Sample.unicode)
       (P := Sample.truncated) "a.mpq" Sample.emptyWorld
     = Panic "EOF"
  /\ ~ returns (Load (K := Sample.keystream) (U := Sample.unicode)
                  (P := Sample.truncated) "a.mpq" Sample.emptyWorld).
Proof.
  split; [reflexivity|].
  assert (Load (K := Sample.keystream) (U := Sample.unicode)
            (P := Sample.truncated) "a.mpq" Sample.emptyWorld
          = Panic "EOF") as Hpanic by (vm_compute; reflexivity).
  split; [exact Hpanic|].
  intros [r Hr]. rewrite Hpanic in Hr. discriminate.
Qed.

(** C4 (as amended). [Load] keys the registry by the path as it is given.
    After a successful [Load] the path is registered, and a second [Load] of
    the same path returns the registered archive and leaves the state, and
    with it the trace of calls to the operating system, as it is. A path
    that is not itself registered, whatever it has in common with the
    registered ones, is opened on disk, first by [os.Open] on the path
    itself, and an archive that this call returns is a new one, registered
    under that path. *)
Theorem Load_keyed_by_given_path
    {K : Keystream} {U : Unicode} {P : Platform}
    (fileName : string) (w w' : World) (ptr : nat) :
  Load fileName w = Ret ((Some ptr, None), w') ->
  mpqCache w' !! fileName = Some ptr
  /\ Load fileName w' = Ret ((Some ptr, None), w')
  /\ forall other res w'',
       mpqCache w' !! other = None ->
       Load other w' = Ret (res, w'') ->
       (exists tl, trace w'' = (trace w' ++ EvOpen other :: tl)%list)
       /\ forall ptr', fst res = Some ptr' ->
            ptr' = length (archives w')
            /\ mpqCache w'' = <[other := ptr']> (mpqCache w')
            /\ exists a, archives w'' = (archives w' ++ [a])%list.
Proof.
  intros Hload.
  assert (mpqCache w' !! fileName = Some ptr) as Hreg.
  { destruct (mpqCache w !! fileName) as [cached|] eqn:Hc.
    - rewrite (Load_hit _ _ _ Hc) in Hload. injection Hload as <- <-.
      exact Hc.
    - destruct (Load_miss_opens _ _ _ _ Hc Hload) as [_ Hptr].
      destruct (Hptr ptr eq_refl) as (_ & -> & _).
      apply lookup_insert_eq. }
  split; [exact Hreg|]. split; [apply Load_hit, Hreg|].
  intros other res w'' Hmiss Hother.
  exact (Load_miss_opens _ _ _ _ Hmiss Hother).
Qed.

Lemma Load_keyed_by_given_path_witness :
  Load (K := Sample.keystream) (U := Sample.unicode)
    (P := Sample.emptyTables) "a.mpq" Sample.emptyWorld
  = Ret ((Some 0%nat, None),
         Sample.stateAfter
           (Load (K := Sample.keystream) (U := Sample.unicode)
              (P := Sample.emptyTables) "a.mpq"))
  /\ Load (K := Sample.keystream) (U := Sample.unicode)
       (P := Sample.emptyTables) "a.mpq"
       (Sample.stateAfter
          (Load (K := Sample.keystream) (U := Sample.unicode)
             (P := Sample.emptyTables) "a.mpq"))
     = Ret ((Some 0%nat, None),
            Sample.stateAfter
              (Load (K := Sample.keystream) (U := Sample.unicode)
                 (P := Sample.emptyTables) "a.mpq")).
Proof.
  assert (Load (K := Sample.keystream) (U := Sample.unicode)
            (P := Sample.emptyTables) "a.mpq" Sample.emptyWorld
          = Ret ((Some 0%nat, None),
                 Sample.stateAfter
                   (Load (K := Sample.keystream) (U := Sample.unicode)
                      (P := Sample.emptyTables) "a.mpq"))) as Hfirst
    by (vm_compute; reflexivity).
  split; [exact Hfirst|].
  apply (Load_keyed_by_given_path (K := Sample.keystream)
           (U := Sample.unicode) (P := Sample.emptyTables)
           "a.mpq" Sample.emptyWorld _ 0%nat Hfirst).
Defined.

(** C4, the claim as stated fails: in a directory that holds [a.mpq], the
    paths [A.MPQ] and [a.mpq] differ only in case and open the same file,
    yet the [Load] of the second, after that of the first, goes to the disk
    again and returns a second archive. *)
Lemma Load_case_variants_counterexample :
  GoString.EqualFold (U := Sample.unicode) "A.MPQ" "a.mpq" = true
  /\ Sample.run (openTwice (K := Sample.keystream) (U := Sample.unicode)
                   (P := Sample.emptyTables) "A.MPQ" "a.mpq")
     = Ret ((Some 0%nat, None), (Some 1%nat, None),
            [EvOpen "A.MPQ"; EvReadDir "."; EvOpen "a.mpq"; EvRead 32;
             EvSeek 32; EvSeek 32;
             EvOpen "a.mpq"; EvRead 32; EvSeek 32; EvSeek 32]).
Proof.
  split; vm_compute; reflexivity.
Qed.

(* ===================================================================== *)
(** * The listfile                                                        *)
(* ===================================================================== *)

Section ListfileFacts.

Lemma TrimRight_byte_padding c l n :
  GoString.TrimRight_byte c (l ++ replicate n c)%list
  = GoString.TrimRight_byte c l.
Proof.
  induction l as [|x l IH]; cbn [app GoString.TrimRight_byte].
  - induction n as [|n IHn]; [reflexivity|].
    cbn [replicate GoString.TrimRight_byte]. rewrite IHn.
    rewrite Ascii.eqb_refl. reflexivity.
  - rewrite IH. reflexivity.
Qed.

Lemma TrimRight_byte_last c l x :
  x <> c ->
  GoString.TrimRight_byte c (l ++ [x])%list = (l ++ [x])%list.
Proof.
  intros Hx. induction l as [|y l IH]; cbn [app GoString.TrimRight_byte].
  - destruct (Ascii.eqb_spec x c); [congruence | reflexivity].
  - rewrite IH. destruct (l ++ [x])%list eqn:Hl; [|reflexivity].
    destruct l; discriminate.
Qed.

Lemma encodeLines_end lines :
  GoScanner.encodeLines lines = []
  \/ exists l, GoScanner.encodeLines lines = (l ++ [GoScanner.LF])%list.
Proof.
  induction lines as [|[line crlf] rest IH]; [left; reflexivity|].
  right. cbn [GoScanner.encodeLines].
  destruct IH as [-> | [l ->]].
  - rewrite app_nil_r. destruct crlf.
    + exists (list_ascii_of_string line ++ [GoScanner.CR])%list.
      rewrite <- app_assoc. reflexivity.
    + exists (list_ascii_of_string line). reflexivity.
  - exists (list_ascii_of_string line
            ++ (if crlf then [GoScanner.CR; GoScanner.LF]
                else [GoScanner.LF]) ++ l)%list.
    rewrite <- !app_assoc. reflexivity.
Qed.

(** The scanner takes in the bytes of a line that holds no line feed and
    fits in its buffer. *)
Lemma scan_line chars : forall rev_line n tail,
  Forall (fun c => c <> GoScanner.LF) chars ->
  n + Z.of_nat (length chars) < GoScanner.MaxScanTokenSize ->
  GoScanner.scan rev_line n (chars ++ tail)%list
  = GoScanner.scan (rev chars ++ rev_line)%list
      (n + Z.of_nat (length chars)) tail.
Proof.
  induction chars as [|c chars IH]; intros rev_line n tail Hno Hlen.
  - cbn [app rev length]. rewrite Z.add_0_r. reflexivity.
  - inversion Hno as [|? ? Hc Hrest]; subst.
    cbn [app GoScanner.scan length] in *.
    destruct (Ascii.eqb_spec c GoScanner.LF); [congruence|].
    destruct (Z.leb_spec GoScanner.MaxScanTokenSize (n + 1)); [lia|].
    rewrite IH by (assumption || lia).
    cbn [rev]. rewrite <- app_assoc. cbn [app].
    f_equal. lia.
Qed.

Lemma token_line (line : string) :
  Forall (fun c => c <> GoScanner.LF /\ c <> GoScanner.CR)
         (list_ascii_of_string line) ->
  GoScanner.token (rev (list_ascii_of_string line)) = line
  /\ GoScanner.token (GoScanner.CR :: rev (list_ascii_of_string line))
     = line.
Proof.
  intros Hplain. unfold GoScanner.token. split.
  - assert (GoScanner.dropCR (rev (list_ascii_of_string line))
            = rev (list_ascii_of_string line)) as ->.
    { destruct (rev (list_ascii_of_string line)) as [|c r] eqn:Hr;
        [reflexivity|].
      cbn. destruct (Ascii.eqb_spec c GoScanner.CR) as [->|]; [|reflexivity].
      exfalso.
      assert (In GoScanner.CR (list_ascii_of_string line)) as Hin
        by (apply in_rev; rewrite Hr; left; reflexivity).
      rewrite Forall_forall in Hplain.
      apply list_elem_of_In in Hin.
      destruct (Hplain _ Hin) as [_ Hcr]. congruence. }
    rewrite rev_involutive. apply string_of_list_ascii_of_string.
  - unfold GoScanner.dropCR. rewrite Ascii.eqb_refl.
    rewrite rev_involutive. apply string_of_list_ascii_of_string.
Qed.

Lemma ScanLines_encodeLines (lines : list (string * bool)) :
  Forall GoScanner.plain_line lines.*1 ->
  GoScanner.ScanLines (GoScanner.encodeLines lines) = lines.*1.
Proof.
  unfold GoScanner.ScanLines.
  induction lines as [|[line crlf] rest IH]; intros Hplain;
    [reflexivity|].
  cbn [fmap list_fmap fst] in Hplain.
  inversion Hplain as [|? ? [Hchars Hlen] Hrest]; subst.
  cbn [GoScanner.encodeLines fmap list_fmap fst].
  assert (Forall (fun c => c <> GoScanner.LF) (list_ascii_of_string line))
    as Hnolf by (eapply Forall_impl; [exact Hchars | intros c [? _]; assumption]).
  assert (length (list_ascii_of_string line) = String.length line) as Hl.
  { clear. induction line; cbn; congruence. }
  rewrite scan_line by (assumption || lia).
  rewrite app_nil_r, Z.add_0_l.
  destruct (token_line line Hchars) as [Hlf Hcrlf].
  destruct crlf; cbn [app GoScanner.scan].
  - change (Ascii.eqb GoScanner.CR GoScanner.LF) with false. cbv iota.
    destruct (Z.leb_spec GoScanner.MaxScanTokenSize
                (Z.of_nat (length (list_ascii_of_string line)) + 1));
      [lia|].
    rewrite Ascii.eqb_refl, Hcrlf.
    change (list_fmap _ _ fst rest) with rest.*1.
    f_equal. apply IH, Hrest.
  - rewrite Ascii.eqb_refl, Hlf.
    change (list_fmap _ _ fst rest) with rest.*1.
    f_equal. apply IH, Hrest.
Qed.

(** The lines of a padded listing, empty lines among them. *)
Lemma listfileLines_encodeLines (lines : list (string * bool))
    (pad : nat) :
  Forall GoScanner.plain_line lines.*1 ->
  listfileLines (GoScanner.encodeLines lines ++ replicate pad zero)%list
  = lines.*1.
Proof.
  intros Hplain. unfold listfileLines.
  rewrite TrimRight_byte_padding.
  destruct (encodeLines_end lines) as [Hnil | [l Hl]].
  - rewrite Hnil. cbn. rewrite <- (ScanLines_encodeLines lines Hplain).
    rewrite Hnil. reflexivity.
  - rewrite Hl, TrimRight_byte_last by discriminate.
    rewrite <- Hl. apply ScanLines_encodeLines, Hplain.
Qed.

Lemma TrimRight_byte_app c (pre l : list ascii) :
  l <> [] ->
  GoString.TrimRight_byte c l = l ->
  GoString.TrimRight_byte c (pre ++ l)%list = (pre ++ l)%list.
Proof.
  intros Hne Hl. induction pre as [|x pre IH]; [exact Hl|].
  cbn [app GoString.TrimRight_byte]. rewrite IH.
  destruct (pre ++ l)%list eqn:Happ; [|reflexivity].
  apply app_eq_nil in Happ as [_ ->]. congruence.
Qed.

(** The scanner yields the lines of a listing one by one and goes on
    with what follows them. *)
Lemma scan_encodeLines_app (lines : list (string * bool))
    (tail : list ascii) :
  Forall GoScanner.plain_line lines.*1 ->
  GoScanner.scan [] 0 (GoScanner.encodeLines lines ++ tail)%list
  = (lines.*1 ++ GoScanner.scan [] 0 tail)%list.
Proof.
  induction lines as [|[line crlf] rest IH]; intros Hplain;
    [reflexivity|].
  cbn [fmap list_fmap fst] in Hplain.
  inversion Hplain as [|? ? [Hchars Hlen] Hrest]; subst.
  cbn [GoScanner.encodeLines fmap list_fmap fst].
  assert (Forall (fun c => c <> GoScanner.LF) (list_ascii_of_string line))
    as Hnolf
    by (eapply Forall_impl; [exact Hchars | intros c [? _]; assumption]).
  assert (length (list_ascii_of_string line) = String.length line) as Hl.
  { clear. induction line; cbn; congruence. }
  rewrite <- !app_assoc.
  rewrite scan_line by (assumption || lia).
  rewrite app_nil_r, Z.add_0_l.
  destruct (token_line line Hchars) as [Hlf Hcrlf].
  destruct crlf; cbn [app GoScanner.scan].
  - change (Ascii.eqb GoScanner.CR GoScanner.LF) with false. cbv iota.
    destruct (Z.leb_spec GoScanner.MaxScanTokenSize
                (Z.of_nat (length (list_ascii_of_string line)) + 1));
      [lia|].
    rewrite Ascii.eqb_refl, Hcrlf.
    change (list_fmap _ _ fst rest) with rest.*1.
    f_equal. apply IH, Hrest.
  - rewrite Ascii.eqb_refl, Hlf.
    change (list_fmap _ _ fst rest) with rest.*1.
    f_equal. apply IH, Hrest.
Qed.

(** The bytes after the last line feed: a line of its own when there
    are any. *)
Lemma scan_last_line (last : string) :
  GoScanner.plain_line last ->
  GoScanner.scan [] 0 (list_ascii_of_string last)
  = if String.eqb last "" then [] else [last].
Proof.
  intros [Hchars Hlen].
  assert (Forall (fun c => c <> GoScanner.LF) (list_ascii_of_string last))
    as Hnolf
    by (eapply Forall_impl; [exact Hchars | intros c [? _]; assumption]).
  assert (length (list_ascii_of_string last) = String.length last) as Hl.
  { clear. induction last; cbn; congruence. }
  rewrite <- (app_nil_r (list_ascii_of_string last)) at 1.
  rewrite scan_line by (assumption || lia).
  rewrite app_nil_r. cbn [GoScanner.scan].
  destruct last as [|c last]; [reflexivity|].
  destruct (token_line (String c last) Hchars) as [-> _].
  cbn [list_ascii_of_string rev].
  destruct (rev (list_ascii_of_string last) ++ [c])%list eqn:Hrev;
    [destruct (rev (list_ascii_of_string last)); discriminate|].
  reflexivity.
Qed.

(** The lines of a listing: lines that end at a line feed or at a
    carriage return and a line feed, then the bytes of a last line without
    a line ending, then the padding. *)
Lemma listfileLines_listing (lines : list (string * bool)) (last : string)
    (pad : nat) :
  Forall GoScanner.plain_line lines.*1 ->
  GoScanner.plain_line last ->
  GoString.TrimRight_byte zero (list_ascii_of_string last)
  = list_ascii_of_string last ->
  listfileLines (GoScanner.encodeLines lines ++ list_ascii_of_string last
                 ++ replicate pad zero)%list
  = (lines.*1 ++ if String.eqb last "" then [] else [last])%list.
Proof.
  intros Hplain Hlast Htrim. unfold listfileLines.
  rewrite app_assoc, TrimRight_byte_padding.
  assert (GoString.TrimRight_byte zero
            (GoScanner.encodeLines lines ++ list_ascii_of_string last)%list
          = (GoScanner.encodeLines lines ++ list_ascii_of_string last)%list)
    as ->.
  { destruct last as [|c last].
    - cbn [list_ascii_of_string]. rewrite app_nil_r.
      destruct (encodeLines_end lines) as [-> | [l ->]]; [reflexivity|].
      apply TrimRight_byte_last. discriminate.
    - apply TrimRight_byte_app; [discriminate | exact Htrim]. }
  unfold GoScanner.ScanLines.
  rewrite (scan_encodeLines_app _ _ Hplain), (scan_last_line _ Hlast).
  reflexivity.
Qed.

End ListfileFacts.

(** C5 (as amended). [GetFileList] reads the file [(listfile)], strips the
    trailing NUL bytes and returns every line in stored order, a line ending
    at a line feed or at a carriage return followed by a line feed, and the
    bytes after the last line feed, when there are any, making a last line:
    a listing of plain lines, padded or not, comes back line by line, its
    last line whether a line ending follows it or not, and an empty line
    comes back as an empty string. The listing [a.txt], [b.txt] of the
    specification comes back as these two names. An error of [ReadFile] is
    handed on with no lines. *)
Theorem GetFileList_returns_every_line
    {K : Keystream} {U : Unicode} {P : Platform} {R : Resource}
    {X : Extractor} :
  (forall (v : MPQ) w data w',
     ReadFile v "(listfile)" w = Ret ((data, None), w') ->
     GetFileList v w = Ret ((listfileLines data, None), w'))
  /\ (forall (v : MPQ) w data msg w',
        ReadFile v "(listfile)" w = Ret ((data, Some msg), w') ->
        GetFileList v w = Ret (([], Some msg), w'))
  /\ (forall (lines : list (string * bool)) (last : string) (pad : nat),
        Forall GoScanner.plain_line lines.*1 ->
        GoScanner.plain_line last ->
        GoString.TrimRight_byte zero (list_ascii_of_string last)
        = list_ascii_of_string last ->
        listfileLines
          (GoScanner.encodeLines lines ++ list_ascii_of_string last
           ++ replicate pad zero)%list
        = (lines.*1 ++ if String.eqb last "" then [] else [last])%list)
  /\ listfileLines Sample.specListing = ["a.txt"; "b.txt"].
Proof.
  split; [|split; [|split]].
  - intros v w data w' Hread. unfold GetFileList. unfold_io.
    rewrite Hread. reflexivity.
  - intros v w data msg w' Hread. unfold GetFileList. unfold_io.
    rewrite Hread. reflexivity.
  - apply listfileLines_listing.
  - vm_compute. reflexivity.
Qed.

Lemma GetFileList_returns_every_line_witness :
  Forall GoScanner.plain_line ["a.txt"; ""]
  /\ GoScanner.plain_line "b.txt"
  /\ listfileLines
       (GoScanner.encodeLines [("a.txt", true); ("", false)]
        ++ list_ascii_of_string "b.txt" ++ replicate 2 zero)%list
     = ["a.txt"; ""; "b.txt"].
Proof.
  assert (Forall GoScanner.plain_line
            [("a.txt", true); ("", false)].*1) as Hplain.
  { repeat constructor; try discriminate; vm_compute; reflexivity. }
  assert (GoScanner.plain_line "b.txt") as Hlast.
  { repeat constructor; try discriminate; vm_compute; reflexivity. }
  split; [exact Hplain|]. split; [exact Hlast|].
  apply (proj1 (proj2 (proj2
           (GetFileList_returns_every_line (K := Sample.keystream)
              (U := Sample.unicode) (P := Sample.diskless)
              (R := Sample.resource)
              (X := Sample.stored "linux" []))))
           [("a.txt", true); ("", false)] "b.txt" 2%nat Hplain Hlast
           eq_refl).
Defined.

(** C5, the claim as stated fails: for the listing with an empty line
    between [a.txt] and [b.txt], [GetFileList] returns the empty string
    between the two names. *)
Lemma GetFileList_empty_line_counterexample :
  Sample.run (GetFileList (K := Sample.keystream) (U := Sample.unicode)
                (R := Sample.resource)
                (X := Sample.listfileStored Sample.gapListing)
                (Sample.listfileArchive Sample.gapListing))
  = Ret (["a.txt"; ""; "b.txt"], None)
  /\ In "" ["a.txt"; ""; "b.txt"].
Proof.
  split; [vm_compute; reflexivity | right; left; reflexivity].
Qed.

(* ===================================================================== *)
(** * Properties of Go strings                                            *)
(* ===================================================================== *)

Module GoStringFacts.
Import GoString.

Ltac zlia :=
  repeat match goal with
         | |- context [2 ^ ?k] =>
             let v := eval cbv in (2 ^ k) in change (2 ^ k) with v
         end;
  Z.div_mod_to_equations; lia.

Lemma lor_plus a b k m :
  m = 2 ^ k -> 0 <= k -> 0 <= b < m -> a mod m = 0 -> Z.lor a b = a + b.
Proof.
  intros -> Hk Hb Ha.
  rewrite <- Z.add_lor_land.
  assert (Z.land a b = 0) as ->; [|symmetry; apply Z.add_0_r].
  apply Z.bits_inj'. intros n Hn. rewrite Z.land_spec, Z.bits_0.
  destruct (Z.lt_ge_cases n k) as [Hlt|Hge].
  - assert (Z.testbit a n = false) as ->; [|reflexivity].
    rewrite <- (Z.mod_pow2_bits_low a k n) by lia. rewrite Ha. apply Z.bits_0.
  - assert (Z.testbit b n = false) as ->; [|apply andb_false_r].
    rewrite <- (Z.mod_small b (2 ^ k)) by lia.
    apply Z.mod_pow2_bits_high. lia.
Qed.


Ltac cases_bool :=
  repeat match goal with
  | |- context [?a <=? ?b] => destruct (Z.leb_spec a b); try lia
  | |- context [?a <? ?b] => destruct (Z.ltb_spec a b); try lia
  | |- context [?a =? ?b] => destruct (Z.eqb_spec a b); try lia
  end.

Lemma between_true lo hi x : lo <= x <= hi -> between lo hi x = true.
Proof.
  intros H. unfold between. apply andb_true_iff.
  split; apply Z.leb_le; lia.
Qed.

Lemma between_false lo hi x : x < lo \/ hi < x -> between lo hi x = false.
Proof.
  intros H. unfold between. apply andb_false_iff.
  destruct H; [left | right]; apply Z.leb_gt; lia.
Qed.

Lemma utf8_first_2 b0 :
  0xC2 <= b0 <= 0xDF -> utf8_first b0 = Some (2, (0x80, 0xBF)).
Proof. intros H. unfold utf8_first. rewrite between_true by lia. reflexivity. Qed.

Lemma utf8_first_3 b0 :
  0xE0 <= b0 <= 0xEF ->
  utf8_first b0
  = Some (3, (if b0 =? 0xE0 then 0xA0 else 0x80,
              if b0 =? 0xED then 0x9F else 0xBF)).
Proof.
  intros H. unfold utf8_first.
  rewrite (between_false 0xC2 0xDF) by lia.
  destruct (Z.eqb_spec b0 0xE0) as [->|]; [reflexivity|].
  destruct (Z.eqb_spec b0 0xED) as [->|]; [reflexivity|].
  destruct (Z.le_gt_cases b0 0xEC).
  - rewrite (between_true 0xE1 0xEC) by lia. reflexivity.
  - rewrite (between_false 0xE1 0xEC) by lia.
    rewrite (between_true 0xEE 0xEF) by lia. reflexivity.
Qed.

Lemma utf8_first_4 b0 :
  0xF0 <= b0 <= 0xF4 ->
  utf8_first b0
  = Some (4, (if b0 =? 0xF0 then 0x90 else 0x80,
              if b0 =? 0xF4 then 0x8F else 0xBF)).
Proof.
  intros H. unfold utf8_first.
  rewrite (between_false 0xC2 0xDF) by lia.
  destruct (Z.eqb_spec b0 0xE0); [lia|].
  rewrite (between_false 0xE1 0xEC) by lia.
  destruct (Z.eqb_spec b0 0xED); [lia|].
  rewrite (between_false 0xEE 0xEF) by lia.
  destruct (Z.eqb_spec b0 0xF0) as [->|]; [reflexivity|].
  destruct (Z.eqb_spec b0 0xF4) as [->|].
  - reflexivity.
  - rewrite (between_true 0xF1 0xF3) by lia. reflexivity.
Qed.

Lemma decode1 b0 rest :
  b0 < 0x80 -> decodeRunes (b0 :: rest) = b0 :: decodeRunes rest.
Proof.
  intros H. cbn [decodeRunes]. unfold RuneSelf.
  destruct (Z.ltb_spec b0 128); [reflexivity | lia].
Qed.

Lemma decode2 b0 b1 rest :
  0xC2 <= b0 <= 0xDF -> 0x80 <= b1 <= 0xBF ->
  decodeRunes (b0 :: b1 :: rest) = rune2 b0 b1 :: decodeRunes rest.
Proof.
  intros H0 H1. cbn [decodeRunes]. unfold RuneSelf.
  destruct (Z.ltb_spec b0 128); [lia|].
  rewrite utf8_first_2 by lia. rewrite between_true by lia. reflexivity.
Qed.

Lemma decode3 b0 b1 b2 rest :
  0xE0 <= b0 <= 0xEF -> second3 b0 b1 -> 0x80 <= b2 <= 0xBF ->
  decodeRunes (b0 :: b1 :: b2 :: rest) = rune3 b0 b1 b2 :: decodeRunes rest.
Proof.
  intros H0 H1 H2. cbn [decodeRunes]. unfold RuneSelf.
  destruct (Z.ltb_spec b0 128); [lia|].
  rewrite utf8_first_3 by lia. rewrite between_true by exact H1.
  rewrite between_true by lia. reflexivity.
Qed.

Lemma decode4 b0 b1 b2 b3 rest :
  0xF0 <= b0 <= 0xF4 -> second4 b0 b1 -> 0x80 <= b2 <= 0xBF ->
  0x80 <= b3 <= 0xBF ->
  decodeRunes (b0 :: b1 :: b2 :: b3 :: rest)
  = rune4 b0 b1 b2 b3 :: decodeRunes rest.
Proof.
  intros H0 H1 H2 H3. cbn [decodeRunes]. unfold RuneSelf.
  destruct (Z.ltb_spec b0 128); [lia|].
  rewrite utf8_first_4 by lia. rewrite between_true by exact H1.
  rewrite !between_true by lia. reflexivity.
Qed.

Lemma land_07 x : Z.land x 0x07 = x mod 8.
Proof. change 7 with (Z.ones 3). apply Z.land_ones. lia. Qed.

Lemma land_0F x : Z.land x 0x0F = x mod 16.
Proof. change 15 with (Z.ones 4). apply Z.land_ones. lia. Qed.

Lemma land_1F x : Z.land x 0x1F = x mod 32.
Proof. change 31 with (Z.ones 5). apply Z.land_ones. lia. Qed.

Lemma land_3F x : Z.land x 0x3F = x mod 64.
Proof. change 63 with (Z.ones 6). apply Z.land_ones. lia. Qed.

Lemma rune2_arith b0 b1 : rune2 b0 b1 = (b0 mod 32) * 64 + b1 mod 64.
Proof.
  unfold rune2. rewrite land_1F, land_3F.
  rewrite Z.shiftl_mul_pow2 by lia.
  apply (lor_plus _ _ 6 64 eq_refl); [lia | zlia | zlia].
Qed.

Lemma rune3_arith b0 b1 b2 :
  rune3 b0 b1 b2 = (b0 mod 16) * 4096 + (b1 mod 64) * 64 + b2 mod 64.
Proof.
  unfold rune3.
  rewrite land_0F, !land_3F.
  rewrite !Z.shiftl_mul_pow2 by lia.
  rewrite (lor_plus (b0 mod 16 * 2 ^ 12) _ 12 4096 eq_refl);
    [|lia | zlia | zlia].
  apply (lor_plus _ _ 6 64 eq_refl); [lia | zlia | zlia].
Qed.

Lemma rune4_arith b0 b1 b2 b3 :
  rune4 b0 b1 b2 b3
  = (b0 mod 8) * 262144 + (b1 mod 64) * 4096 + (b2 mod 64) * 64 + b3 mod 64.
Proof.
  unfold rune4.
  rewrite land_07, !land_3F.
  rewrite !Z.shiftl_mul_pow2 by lia.
  rewrite (lor_plus (b0 mod 8 * 2 ^ 18) _ 18 262144 eq_refl);
    [|lia | zlia | zlia].
  rewrite (lor_plus (b0 mod 8 * 2 ^ 18 + b1 mod 64 * 2 ^ 12) _ 12 4096
             eq_refl); [|lia | zlia | zlia].
  apply (lor_plus _ _ 6 64 eq_refl); [lia | zlia | zlia].
Qed.

(** The continuation byte that carries the six bits of [x]. *)
Lemma cont_arith x : Z.lor 0x80 (Z.land x 0x3F) = 0x80 + x mod 64.
Proof.
  rewrite land_3F.
  apply (lor_plus _ _ 7 128 eq_refl); [lia | zlia | reflexivity].
Qed.

Lemma encodeRune_1 r : 0 <= r <= 0x7F -> encodeRune r = [r].
Proof.
  intros H. unfold encodeRune.
  destruct (Z.leb_spec r 127); [reflexivity | lia].
Qed.

Lemma encodeRune_2 r :
  0x80 <= r <= 0x7FF -> encodeRune r = [0xC0 + r / 64; 0x80 + r mod 64].
Proof.
  intros H. unfold encodeRune.
  destruct (Z.leb_spec r 127); [lia|].
  destruct (Z.leb_spec r 2047); [|lia].
  rewrite cont_arith, Z.shiftr_div_pow2 by lia.
  rewrite (lor_plus _ _ 6 64 eq_refl); [reflexivity | lia | zlia | reflexivity].
Qed.

Lemma encode3_arith r :
  0 <= r <= 0xFFFF ->
  encode3 r = [0xE0 + r / 4096; 0x80 + (r / 64) mod 64; 0x80 + r mod 64].
Proof.
  intros H. unfold encode3.
  rewrite !cont_arith, !Z.shiftr_div_pow2 by lia.
  rewrite (lor_plus _ _ 5 32 eq_refl); [reflexivity | lia | zlia | reflexivity].
Qed.

Lemma encodeRune_3 r :
  0x800 <= r <= 0xFFFF -> ~ (0xD800 <= r <= 0xDFFF) ->
  encodeRune r = [0xE0 + r / 4096; 0x80 + (r / 64) mod 64; 0x80 + r mod 64].
Proof.
  intros H Hs. unfold encodeRune, MaxRune.
  destruct (Z.leb_spec r 127); [lia|].
  destruct (Z.leb_spec r 2047); [lia|].
  destruct (Z.ltb_spec 1114111 r); [lia|].
  rewrite between_false by lia. cbn [orb].
  destruct (Z.leb_spec r 65535); [|lia].
  apply encode3_arith. lia.
Qed.

Lemma encodeRune_4 r :
  0x10000 <= r <= 0x10FFFF ->
  encodeRune r
  = [0xF0 + r / 262144; 0x80 + (r / 4096) mod 64; 0x80 + (r / 64) mod 64;
     0x80 + r mod 64].
Proof.
  intros H. unfold encodeRune, MaxRune.
  destruct (Z.leb_spec r 127); [lia|].
  destruct (Z.leb_spec r 2047); [lia|].
  destruct (Z.ltb_spec 1114111 r); [lia|].
  rewrite between_false by lia. cbn [orb].
  destruct (Z.leb_spec r 65535); [lia|].
  rewrite !cont_arith, !Z.shiftr_div_pow2 by lia.
  rewrite (lor_plus _ _ 4 16 eq_refl); [reflexivity | lia | zlia | reflexivity].
Qed.

Lemma valid_rune_spec r :
  valid_rune r = true <-> 0 <= r <= 0x10FFFF /\ ~ (0xD800 <= r <= 0xDFFF).
Proof.
  unfold valid_rune, between, MaxRune.
  rewrite andb_true_iff, negb_true_iff, andb_true_iff, andb_false_iff,
    !Z.leb_le, !Z.leb_gt. lia.
Qed.

(** Decoding undoes encoding. *)
Lemma decode_encode r rest :
  valid_rune r = true ->
  decodeRunes (encodeRune r ++ rest) = r :: decodeRunes rest.
Proof.
  intros Hv. apply valid_rune_spec in Hv as [Hr Hs].
  destruct (Z.le_gt_cases r 0x7F).
  { rewrite encodeRune_1 by lia. cbn [app]. apply decode1. lia. }
  destruct (Z.le_gt_cases r 0x7FF).
  { rewrite encodeRune_2 by lia. cbn [app].
    rewrite decode2 by zlia. rewrite rune2_arith. f_equal. zlia. }
  destruct (Z.le_gt_cases r 0xFFFF).
  { rewrite encodeRune_3 by lia. cbn [app].
    rewrite decode3; [|zlia| |zlia].
    - rewrite rune3_arith. f_equal. zlia.
    - unfold second3.
      destruct (Z.eqb_spec (224 + r / 4096) 224),
               (Z.eqb_spec (224 + r / 4096) 237); zlia. }
  rewrite encodeRune_4 by lia. cbn [app].
  rewrite decode4; [|zlia| |zlia|zlia].
  - rewrite rune4_arith. f_equal. zlia.
  - unfold second4.
    destruct (Z.eqb_spec (240 + r / 262144) 240),
             (Z.eqb_spec (240 + r / 262144) 244); zlia.
Qed.

Lemma between_spec lo hi x : between lo hi x = true <-> lo <= x <= hi.
Proof.
  unfold between. rewrite andb_true_iff, !Z.leb_le. reflexivity.
Qed.

Lemma utf8_first_none b0 :
  b0 < 0xC2 \/ 0xF4 < b0 -> utf8_first b0 = None.
Proof.
  intros H. unfold utf8_first.
  rewrite (between_false 0xC2 0xDF) by lia.
  destruct (Z.eqb_spec b0 0xE0); [lia|].
  rewrite (between_false 0xE1 0xEC) by lia.
  destruct (Z.eqb_spec b0 0xED); [lia|].
  rewrite (between_false 0xEE 0xEF) by lia.
  destruct (Z.eqb_spec b0 0xF0); [lia|].
  rewrite (between_false 0xF1 0xF3) by lia.
  destruct (Z.eqb_spec b0 0xF4); [lia|]. reflexivity.
Qed.

(** One step of the decoder: a valid rune, and the rest of the input
    without the bytes of its encoding. *)
Lemma decode_step s0 t :
  0 <= s0 ->
  exists r n, valid_rune r = true
    /\ decodeRunes (s0 :: t) = r :: decodeRunes (drop n t).
Proof.
  intros Hs0.
  assert (exists r n, valid_rune r = true
            /\ RuneError :: decodeRunes t = r :: decodeRunes (drop n t))
    as Herr by (exists RuneError, 0%nat; split; reflexivity).
  destruct (Z.lt_ge_cases s0 0x80) as [Hascii|Hhigh].
  { exists s0, 0%nat.
    split; [apply valid_rune_spec; lia | apply decode1; lia]. }
  cbn [decodeRunes]. unfold RuneSelf.
  destruct (Z.ltb_spec s0 128) as [Hlt|_]; [lia|].
  destruct (Z.lt_ge_cases s0 0xC2) as [Hlow|Hc2];
    [rewrite utf8_first_none by lia; exact Herr|].
  destruct (Z.le_gt_cases s0 0xDF) as [Hdf|Hdf].
  { rewrite utf8_first_2 by lia.
    destruct t as [|s1 t1]; [exact Herr|].
    destruct (between 128 191 s1) eqn:B1; [|exact Herr].
    apply between_spec in B1. cbn [Z.eqb Pos.eqb].
    exists (rune2 s0 s1), 1%nat. split; [|reflexivity].
    apply valid_rune_spec. rewrite rune2_arith. zlia. }
  destruct (Z.le_gt_cases s0 0xEF) as [Hef|Hef].
  { rewrite utf8_first_3 by lia.
    destruct t as [|s1 t1]; [exact Herr|].
    destruct (between _ _ s1) eqn:B1; [|exact Herr].
    apply between_spec in B1. cbn [Z.eqb Pos.eqb].
    destruct t1 as [|s2 t2]; [exact Herr|].
    destruct (between 128 191 s2) eqn:B2; [|exact Herr].
    apply between_spec in B2.
    exists (rune3 s0 s1 s2), 2%nat. split; [|reflexivity].
    apply valid_rune_spec. rewrite rune3_arith.
    destruct (Z.eqb_spec s0 224), (Z.eqb_spec s0 237); zlia. }
  destruct (Z.le_gt_cases s0 0xF4) as [Hf4|Hf4];
    [|rewrite utf8_first_none by lia; exact Herr].
  rewrite utf8_first_4 by lia.
  destruct t as [|s1 t1]; [exact Herr|].
  destruct (between _ _ s1) eqn:B1; [|exact Herr].
  apply between_spec in B1. cbn [Z.eqb Pos.eqb].
  destruct t1 as [|s2 t2]; [exact Herr|].
  destruct (between 128 191 s2) eqn:B2; [|exact Herr].
  apply between_spec in B2.
  destruct t2 as [|s3 t3]; [exact Herr|].
  destruct (between 128 191 s3) eqn:B3; [|exact Herr].
  apply between_spec in B3.
  exists (rune4 s0 s1 s2 s3), 3%nat. split; [|reflexivity].
  apply valid_rune_spec. rewrite rune4_arith.
  destruct (Z.eqb_spec s0 240), (Z.eqb_spec s0 244); zlia.
Qed.

(** The decoder yields Unicode scalar values only. *)
Lemma decodeRunes_valid bs :
  Forall (fun b => 0 <= b) bs ->
  Forall (fun r => valid_rune r = true) (decodeRunes bs).
Proof.
  remember (length bs) as n eqn:Hn.
  assert (length bs <= n)%nat as Hle by lia. clear Hn.
  revert bs Hle. induction n as [|n IH]; intros bs Hle Hpos.
  - destruct bs; [constructor | cbn in Hle; lia].
  - destruct bs as [|s0 t]; [constructor|].
    inversion Hpos as [|? ? Hs0 Ht]; subst.
    destruct (decode_step s0 t Hs0) as (r & k & Hr & ->).
    constructor; [exact Hr|].
    apply IH.
    + rewrite length_drop. cbn in Hle. lia.
    + apply Forall_drop, Ht.
Qed.

Lemma byteZ_range c : is_byte (byteZ c).
Proof.
  unfold is_byte, byteZ. pose proof (N_ascii_bounded c) as Hc. lia.
Qed.

Lemma Zbyte_byteZ c : Zbyte (byteZ c) = c.
Proof.
  unfold Zbyte. rewrite Z.mod_small by apply byteZ_range.
  unfold byteZ. rewrite N2Z.id. apply ascii_N_embedding.
Qed.

Lemma byteZ_Zbyte z : is_byte z -> byteZ (Zbyte z) = z.
Proof.
  unfold is_byte, byteZ, Zbyte. intros Hz.
  rewrite Z.mod_small by lia.
  rewrite N_ascii_embedding by lia. apply Z2N.id. lia.
Qed.

Lemma bytes_range s : Forall is_byte (bytes s).
Proof.
  unfold bytes. apply Forall_forall. intros b Hb.
  apply list_elem_of_In, in_map_iff in Hb as (c & <- & _).
  apply byteZ_range.
Qed.

Lemma bytes_of_bytes l : Forall is_byte l -> bytes (of_bytes l) = l.
Proof.
  unfold bytes, of_bytes. intros Hl.
  rewrite list_ascii_of_string_of_list_ascii.
  induction Hl as [|b l Hb _ IH]; [reflexivity|].
  cbn [map]. rewrite byteZ_Zbyte by exact Hb. f_equal. exact IH.
Qed.

Lemma encodeRune_bytes r :
  valid_rune r = true -> Forall is_byte (encodeRune r).
Proof.
  intros Hv. apply valid_rune_spec in Hv as [Hr Hs]. unfold is_byte.
  destruct (Z.le_gt_cases r 0x7F).
  { rewrite encodeRune_1 by lia. repeat constructor; lia. }
  destruct (Z.le_gt_cases r 0x7FF).
  { rewrite encodeRune_2 by lia. repeat constructor; zlia. }
  destruct (Z.le_gt_cases r 0xFFFF).
  { rewrite encodeRune_3 by lia. repeat constructor; zlia. }
  rewrite encodeRune_4 by lia. repeat constructor; zlia.
Qed.

Section MapFacts.
Variable f : Z -> Z.
Hypothesis f_valid : forall r, valid_rune r = true -> valid_rune (f r) = true.

Lemma Map_rune_valid c :
  valid_rune c = true -> Map_rune f c = encodeRune (f c).
Proof.
  intros Hc. unfold Map_rune.
  pose proof (proj1 (valid_rune_spec _) (f_valid c Hc)) as [Hf _].
  destruct (Z.ltb_spec (f c) 0); [lia | reflexivity].
Qed.

Lemma Map_bytes rs :
  Forall (fun r => valid_rune r = true) rs ->
  Forall is_byte (concat (map (Map_rune f) rs))
  /\ decodeRunes (concat (map (Map_rune f) rs)) = map f rs.
Proof.
  induction 1 as [|r rs Hr _ [IHb IHd]]; [split; [constructor | reflexivity]|].
  cbn [map concat]. rewrite (Map_rune_valid r Hr). split.
  - apply Forall_app. split; [apply encodeRune_bytes, f_valid, Hr | exact IHb].
  - rewrite decode_encode by (apply f_valid, Hr). f_equal. exact IHd.
Qed.

Lemma runes_valid s : Forall (fun r => valid_rune r = true) (runes s).
Proof.
  unfold runes. apply decodeRunes_valid.
  eapply Forall_impl; [apply bytes_range | intros b [Hb _]; exact Hb].
Qed.

(** The runes of a mapped string are the images of the runes of the
    string. *)
Lemma runes_Map s : runes (Map f s) = map f (runes s).
Proof.
  unfold Map. unfold runes at 1.
  destruct (Map_bytes (runes s) (runes_valid s)) as [Hb Hd].
  rewrite bytes_of_bytes by exact Hb. exact Hd.
Qed.

Hypothesis f_idem : forall r, valid_rune r = true -> f (f r) = f r.

Lemma Map_idempotent s : Map f (Map f s) = Map f s.
Proof.
  unfold Map at 1. rewrite runes_Map. unfold Map. f_equal. f_equal.
  rewrite map_map. apply map_ext_Forall.
  eapply Forall_impl; [apply runes_valid|]. intros r Hr. cbn beta.
  rewrite (Map_rune_valid r Hr), (Map_rune_valid (f r) (f_valid r Hr)).
  rewrite f_idem by exact Hr. reflexivity.
Qed.

End MapFacts.

Lemma decodeRunes_ascii bs :
  forallb (fun c => c <? RuneSelf) bs = true -> decodeRunes bs = bs.
Proof.
  induction bs as [|b bs IH]; [reflexivity|].
  cbn [forallb]. intros Hb. apply andb_true_iff in Hb as [Hb Hbs].
  cbn [decodeRunes]. rewrite Hb. f_equal. apply IH, Hbs.
Qed.

Section CaseFacts.
Context {U : Unicode}.

Lemma ascii_upper_range c : 0 <= c <= 0x7F -> 0 <= ascii_upper c <= 0x7F.
Proof.
  intros Hc. unfold ascii_upper, between.
  destruct (Z.leb_spec 97 c), (Z.leb_spec c 122); cbn; lia.
Qed.

Lemma ascii_upper_idem c : ascii_upper (ascii_upper c) = ascii_upper c.
Proof.
  unfold ascii_upper, between.
  destruct (Z.leb_spec 97 c), (Z.leb_spec c 122); cbn;
    destruct (Z.leb_spec 97 (c - 32)), (Z.leb_spec (c - 32) 122); cbn;
    try lia;
    destruct (Z.leb_spec 97 c), (Z.leb_spec c 122); cbn; lia.
Qed.

(** On an ASCII string the two paths of [strings.ToUpper] agree. *)
Lemma ToUpper_Map s : ToUpper s = Map unicode_ToUpper s.
Proof.
  unfold ToUpper. destruct (isASCII s) eqn:Hascii; [|reflexivity].
  unfold Map, runes. unfold isASCII in Hascii.
  rewrite (decodeRunes_ascii _ Hascii). f_equal.
  pose proof (bytes_range s) as Hrange.
  induction (bytes s) as [|b bs IH]; [reflexivity|].
  cbn [forallb] in Hascii. apply andb_true_iff in Hascii as [Hb Hbs].
  inversion Hrange as [|? ? [Hb0 _] Hrange']; subst.
  apply Z.ltb_lt in Hb. unfold RuneSelf in Hb.
  cbn [map concat]. rewrite <- (IH Hbs Hrange').
  unfold Map_rune, unicode_ToUpper.
  destruct (Z.leb_spec b 127); [|lia].
  pose proof (ascii_upper_range b ltac:(lia)) as Hup.
  destruct (Z.ltb_spec (ascii_upper b) 0); [lia|].
  rewrite encodeRune_1 by lia. reflexivity.
Qed.

(** What the statement on [hashString] asks of the table of upper case
    beyond ASCII: an upper-case letter is a Unicode scalar value, and is
    its own upper case. *)
Hypothesis upperCase_valid :
  forall r, valid_rune r = true -> 0x7F < r ->
    valid_rune (upperCase r) = true.
Hypothesis upperCase_idem :
  forall r, valid_rune r = true -> 0x7F < r ->
    unicode_ToUpper (upperCase r) = upperCase r.

Lemma unicode_ToUpper_valid r :
  valid_rune r = true -> valid_rune (unicode_ToUpper r) = true.
Proof.
  intros Hr. unfold unicode_ToUpper.
  destruct (Z.leb_spec r 127); [|apply upperCase_valid; [exact Hr | lia]].
  apply valid_rune_spec in Hr as [Hr _].
  apply valid_rune_spec. pose proof (ascii_upper_range r ltac:(lia)). lia.
Qed.

Lemma unicode_ToUpper_idem r :
  valid_rune r = true ->
  unicode_ToUpper (unicode_ToUpper r) = unicode_ToUpper r.
Proof.
  intros Hr. unfold unicode_ToUpper at 2 3.
  destruct (Z.leb_spec r 127); [|apply upperCase_idem; [exact Hr | lia]].
  apply valid_rune_spec in Hr as [Hr _].
  pose proof (ascii_upper_range r ltac:(lia)) as Hup.
  unfold unicode_ToUpper.
  destruct (Z.leb_spec (ascii_upper r) 127); [|lia].
  apply ascii_upper_idem.
Qed.

Lemma ToUpper_idempotent s : ToUpper (ToUpper s) = ToUpper s.
Proof.
  rewrite !ToUpper_Map.
  apply Map_idempotent;
    [exact unicode_ToUpper_valid | exact unicode_ToUpper_idem].
Qed.

End CaseFacts.

End GoStringFacts.

(** C6. [hashString] does not tell a string from its upper case: it hashes
    the runes of [strings.ToUpper key], and [strings.ToUpper] leaves an
    upper-cased string as it is. Beyond ASCII this rests on the case table
    of package unicode, of which the statement asks that the upper case of
    a Unicode scalar value is a Unicode scalar value and is its own upper
    case. The hash type is any, 0 to 3 among them. *)
Theorem hashString_case_insensitive {K : Keystream} {U : Unicode}
    (s : string) (hashType : Z) :
  (forall r, GoString.valid_rune r = true -> 0x7F < r ->
     GoString.valid_rune (upperCase r) = true) ->
  (forall r, GoString.valid_rune r = true -> 0x7F < r ->
     GoString.unicode_ToUpper (upperCase r) = upperCase r) ->
  hashString s hashType = hashString (GoString.ToUpper s) hashType.
Proof.
  intros Hvalid Hidem. unfold hashString.
  rewrite (GoStringFacts.ToUpper_idempotent Hvalid Hidem). reflexivity.
Qed.

Lemma hashString_case_insensitive_witness :
  hashString (K := Sample.keystream) (U := Sample.unicode) "foo.txt" 1
  = hashString (K := Sample.keystream) (U := Sample.unicode) "FOO.TXT" 1
  /\ hashString (K := Sample.keystream) (U := Sample.unicode) "FOO.TXT" 1
     = Ret 2769607526.
Proof.
  split; [|vm_compute; reflexivity].
  apply (hashString_case_insensitive (K := Sample.keystream)
           (U := Sample.unicode) "foo.txt" 1).
  - intros r Hr _. exact Hr.
  - intros r _ Hr. unfold GoString.unicode_ToUpper. cbn [upperCase Sample.unicode].
    destruct (Z.leb_spec r 127); [lia | reflexivity].
Defined.

(* ===================================================================== *)
(** * Further properties of the crypto engine                             *)
(* ===================================================================== *)

Lemma lxor_cancel_r a b k : Z.lxor a k = Z.lxor b k -> a = b.
Proof.
  intros H. rewrite <- (Z.lxor_0_r a), <- (Z.lxor_0_r b).
  rewrite <- (Z.lxor_nilpotent k), <- !Z.lxor_assoc, H. reflexivity.
Qed.

Lemma wrap_range x : 0 <= wrap x < 2 ^ 32.
Proof. unfold wrap, modulus. apply Z.mod_pos_bound. lia. Qed.

Lemma lxor_range a b :
  0 <= a < 2 ^ 32 -> 0 <= b < 2 ^ 32 -> 0 <= Z.lxor a b < 2 ^ 32.
Proof.
  intros Ha Hb.
  assert (0 <= Z.lxor a b) as Hlo by (apply Z.lxor_nonneg; lia).
  split; [exact Hlo|].
  destruct (Z.eq_dec (Z.lxor a b) 0) as [->|Hne]; [lia|].
  apply Z.log2_lt_pow2; [lia|].
  eapply Z.le_lt_trans; [apply Z.log2_lxor; lia|].
  apply Z.max_lub_lt.
  - destruct (Z.eq_dec a 0) as [->|]; [cbn; lia|].
    apply Z.log2_lt_pow2; lia.
  - destruct (Z.eq_dec b 0) as [->|]; [cbn; lia|].
    apply Z.log2_lt_pow2; lia.
Qed.

Section DecryptFacts.
Context {K : Keystream}.

Lemma decrypt_loop_take n : forall data seed seed2,
  take n (decrypt_loop seed seed2 data)
  = decrypt_loop seed seed2 (take n data).
Proof.
  induction n as [|n IH]; intros [|w data] seed seed2; try reflexivity.
  cbn [take decrypt_loop].
  destruct (decrypt_step seed seed2 w) as [r [s s2]].
  cbn [take]. f_equal. apply IH.
Qed.

Lemma decrypt_loop_injective d1 : forall d2 seed seed2,
  decrypt_loop seed seed2 d1 = decrypt_loop seed seed2 d2 -> d1 = d2.
Proof.
  induction d1 as [|w1 d1 IH]; intros [|w2 d2] seed seed2;
    cbn [decrypt_loop]; unfold decrypt_step; try discriminate;
    [reflexivity|].
  intros [= Hw Hrest]. apply lxor_cancel_r in Hw. subst w2.
  f_equal. eapply IH, Hrest.
Qed.

Lemma decrypt_loop_onto plain : forall seed seed2,
  exists data, decrypt_loop seed seed2 data = plain.
Proof.
  induction plain as [|p plain IH]; intros seed seed2;
    [exists []; reflexivity|].
  set (k := add32 seed
              (add32 seed2 (CryptoBuffer (0x400 + Z.land seed 0xff)))).
  destruct (IH (next_seed seed)
               (add32 (add32 (add32 p
                  (add32 seed2 (CryptoBuffer (0x400 + Z.land seed 0xff))))
                  (shl32 (add32 seed2
                            (CryptoBuffer (0x400 + Z.land seed 0xff))) 5)) 3))
    as [data Hdata].
  exists (Z.lxor p k :: data). cbn [decrypt_loop]. unfold decrypt_step.
  fold k. rewrite Z.lxor_assoc, Z.lxor_nilpotent, Z.lxor_0_r.
  fold (next_seed seed). rewrite Hdata. reflexivity.
Qed.

End DecryptFacts.

(** X1. [decrypt] works as a stream: the first [n] words it leaves
    depend on the first [n] words of the input alone, so decrypting a
    prefix of the data gives the prefix of the decrypted data, and the
    call keeps the number of words. *)
Theorem decrypt_prefix {K : Keystream} (data : list Z) (seed : Z) (n : nat) :
  take n (decrypt data seed) = decrypt (take n data) seed
  /\ length (decrypt data seed) = length data.
Proof.
  split; [apply decrypt_loop_take | apply decrypt_loop_length].
Qed.

(** X2. For every seed [decrypt] is a bijection on the sequences of
    words: two inputs that it decrypts to the same words are equal, and
    every sequence of words is what it leaves of some input. *)
Theorem decrypt_bijective {K : Keystream} (seed : Z) :
  (forall data1 data2,
     decrypt data1 seed = decrypt data2 seed -> data1 = data2)
  /\ (forall plain, exists data, decrypt data seed = plain).
Proof.
  split.
  - intros data1 data2. apply decrypt_loop_injective.
  - intros plain. apply decrypt_loop_onto.
Qed.

(* ===================================================================== *)
(** * Further properties of hashString                                    *)
(* ===================================================================== *)

Section HashFacts.
Context {K : Keystream} {U : Unicode}.

(** The index of the table entry that [hashString] reads for a rune. *)
Lemma CryptoBuffer_at_returns i :
  returns (CryptoBuffer_at i) <-> 0 <= i < CryptoBuffer_len.
Proof.
  unfold CryptoBuffer_at, returns.
  destruct (Z.leb_spec 0 i), (Z.ltb_spec i CryptoBuffer_len); cbn;
    split; try lia; try (intros [a Ha]; discriminate);
    intros _; eexists; reflexivity.
Qed.

Lemma CryptoBuffer_at_panics i :
  ~ 0 <= i < CryptoBuffer_len ->
  CryptoBuffer_at i = Panic "index out of range".
Proof.
  unfold CryptoBuffer_at.
  destruct (Z.leb_spec 0 i), (Z.ltb_spec i CryptoBuffer_len); cbn;
    intros Hout; try reflexivity; lia.
Qed.

Lemma hashString_loop_returns t chars : forall s1 s2,
  returns (hashString_loop t s1 s2 chars)
  <-> Forall (fun c => add32 (mul32 t 0x100) (wrap c) < CryptoBuffer_len)
             chars.
Proof.
  induction chars as [|c chars IH]; intros s1 s2; cbn [hashString_loop].
  - split; [constructor | intros _; eexists; reflexivity].
  - pose proof (wrap_range (mul32 t 0x100 + wrap c)) as Hw.
    fold (add32 (mul32 t 0x100) (wrap c)) in Hw.
    destruct (CryptoBuffer_at (add32 (mul32 t 256) (wrap c))) as [x|msg]
      eqn:Hx.
    + cbn. rewrite IH. split.
      * intros Hrest. constructor; [|exact Hrest].
        apply CryptoBuffer_at_returns. eexists; exact Hx.
      * intros Hall. inversion Hall; assumption.
    + cbn. split; [intros [a Ha]; discriminate|].
      intros Hall. inversion Hall as [|? ? Hc _]; subst.
      assert (returns (CryptoBuffer_at (add32 (mul32 t 256) (wrap c))))
        as [a Ha] by (apply CryptoBuffer_at_returns; lia).
      rewrite Hx in Ha. discriminate.
Qed.

Lemma hashString_loop_panics t chars : forall s1 s2,
  Exists (fun c => CryptoBuffer_len <= add32 (mul32 t 0x100) (wrap c))
         chars ->
  hashString_loop t s1 s2 chars = Panic "index out of range".
Proof.
  induction chars as [|c chars IH]; intros s1 s2 Hex;
    [inversion Hex|].
  cbn [hashString_loop].
  destruct (Z.lt_ge_cases (add32 (mul32 t 0x100) (wrap c)) CryptoBuffer_len)
    as [Hin|Hout].
  - inversion Hex as [? ? Hc|? ? Hrest]; subst; [lia|].
    destruct (CryptoBuffer_at (add32 (mul32 t 256) (wrap c))) as [x|msg]
      eqn:Hx.
    + cbn. apply IH, Hrest.
    + pose proof (wrap_range (mul32 t 0x100 + wrap c)) as Hw.
      fold (add32 (mul32 t 0x100) (wrap c)) in Hw.
      assert (returns (CryptoBuffer_at (add32 (mul32 t 256) (wrap c))))
        as [a Ha] by (apply CryptoBuffer_at_returns; lia).
      rewrite Hx in Ha. discriminate.
  - rewrite CryptoBuffer_at_panics by lia. reflexivity.
Qed.

(** The runes of the upper case of an ASCII string are ASCII. *)
Lemma runes_ToUpper_ascii key :
  GoString.isASCII key = true ->
  Forall (fun c => 0 <= c <= 0x7F) (GoString.runes (GoString.ToUpper key)).
Proof.
  intros Hascii. unfold GoString.ToUpper. rewrite Hascii.
  unfold GoString.runes, GoString.isASCII in *.
  pose proof (GoStringFacts.bytes_range key) as Hrange.
  assert (Forall (fun c => 0 <= c <= 0x7F)
            (map GoString.ascii_upper (GoString.bytes key))) as Hup.
  { induction (GoString.bytes key) as [|b bs IH]; [constructor|].
    cbn [forallb] in Hascii. apply andb_true_iff in Hascii as [Hb Hbs].
    inversion Hrange as [|? ? [Hb0 _] Hrange']; subst.
    apply Z.ltb_lt in Hb. unfold GoString.RuneSelf in Hb.
    cbn [map]. constructor; [|apply IH; assumption].
    apply GoStringFacts.ascii_upper_range. lia. }
  rewrite GoStringFacts.bytes_of_bytes.
  - rewrite GoStringFacts.decodeRunes_ascii; [exact Hup|].
    apply forallb_forall. intros c Hc.
    apply (proj1 (List.Forall_forall _ _) Hup) in Hc.
    apply Z.ltb_lt. unfold GoString.RuneSelf. lia.
  - eapply Forall_impl; [exact Hup|]. unfold is_byte. cbn. lia.
Qed.

Lemma hashString_ascii key hashType :
  GoString.isASCII key = true ->
  0 <= hashType <= 4 ->
  returns (hashString key hashType).
Proof.
  intros Hascii Ht. unfold hashString. apply hashString_loop_returns.
  eapply Forall_impl; [apply runes_ToUpper_ascii, Hascii|].
  cbn. intros c Hc. unfold add32, mul32, wrap, modulus, CryptoBuffer_len.
  rewrite (Z.mod_small (hashType * 256)) by lia.
  rewrite (Z.mod_small c) by lia.
  rewrite Z.mod_small by lia. lia.
Qed.

End HashFacts.

(** X3. [hashString] hashes every ASCII key without a panic when the
    hash type is at most 4: each index [hashType*0x100 + char] that it
    computes lies within the 0x500 entries of the keystream table. *)
Theorem hashString_ascii_returns {K : Keystream} {U : Unicode}
    (key : string) (hashType : Z) :
  GoString.isASCII key = true ->
  0 <= hashType <= 4 ->
  returns (hashString key hashType).
Proof.
  apply hashString_ascii.
Qed.

Lemma hashString_ascii_returns_witness :
  GoString.isASCII "(listfile)" = true
  /\ returns (hashString (K := Sample.keystream) (U := Sample.unicode)
                "(listfile)" 3).
Proof.
  split; [reflexivity|].
  apply (hashString_ascii_returns (K := Sample.keystream)
           (U := Sample.unicode) "(listfile)" 3); [reflexivity | lia].
Defined.

(** X4. [hashString] panics with an index out of range on a key whose
    upper case holds a rune [r] with [hashType*0x100 + r] at or beyond the
    0x500 entries of the keystream table; for the hash types 0 to 4 these
    are the runes from [0x500 - hashType*0x100] on. *)
Theorem hashString_high_rune_panics {K : Keystream} {U : Unicode}
    (key : string) (hashType r : Z) :
  0 <= hashType <= 4 ->
  In r (GoString.runes (GoString.ToUpper key)) ->
  0x500 - hashType * 0x100 <= r ->
  hashString key hashType = Panic "index out of range".
Proof.
  intros Ht Hin Hr. unfold hashString. apply hashString_loop_panics.
  apply List.Exists_exists. exists r. split; [exact Hin|].
  pose proof (GoStringFacts.runes_valid (GoString.ToUpper key)) as Hvalid.
  apply (proj1 (List.Forall_forall _ _) Hvalid) in Hin.
  apply GoStringFacts.valid_rune_spec in Hin as [Hrange _].
  unfold GoString.MaxRune in Hrange.
  unfold add32, mul32, wrap, modulus, CryptoBuffer_len.
  rewrite (Z.mod_small (hashType * 256)) by lia.
  rewrite (Z.mod_small r) by lia.
  rewrite Z.mod_small by lia. lia.
Qed.

Lemma hashString_high_rune_panics_witness :
  In 0x416 (GoString.runes
              (GoString.ToUpper (U := Sample.unicode)
                 (GoString.of_bytes [0xD0; 0x96])))
  /\ hashString (K := Sample.keystream) (U := Sample.unicode)
       (GoString.of_bytes [0xD0; 0x96]) 1
     = Panic "index out of range".
Proof.
  assert (In 0x416 (GoString.runes
                      (GoString.ToUpper (U := Sample.unicode)
                         (GoString.of_bytes [0xD0; 0x96])))) as Hin
    by (vm_compute; left; reflexivity).
  split; [exact Hin|].
  apply (hashString_high_rune_panics (K := Sample.keystream)
           (U := Sample.unicode) _ 1 0x416); [lia | exact Hin | lia].
Defined.

(* ===================================================================== *)
(** * Flags                                                               *)
(* ===================================================================== *)

(** X5. [HasFlag] tests whether the entry has a bit in common with its
    argument: for a union of flags it holds as soon as one of them is set,
    for the one-bit flag [FileFixKey] it is bit 17 of [Flags], and no entry
    has the empty flag. *)
Theorem HasFlag_any_bit (v : BlockTableEntry) (a b : Z) :
  HasFlag v (Z.lor a b) = HasFlag v a || HasFlag v b
  /\ HasFlag v FileFixKey = Z.testbit (Flags v) 17
  /\ HasFlag v 0 = false.
Proof.
  unfold HasFlag. split; [|split].
  - rewrite Z.land_lor_distr_r.
    destruct (Z.eqb_spec (Z.land (Flags v) a) 0) as [Ha|Ha],
             (Z.eqb_spec (Z.land (Flags v) b) 0) as [Hb|Hb]; cbn.
    + rewrite Ha, Hb. reflexivity.
    + destruct (Z.eqb_spec (Z.lor (Z.land (Flags v) a) (Z.land (Flags v) b)) 0)
        as [H|H]; [|reflexivity].
      apply Z.lor_eq_0_iff in H. tauto.
    + destruct (Z.eqb_spec (Z.lor (Z.land (Flags v) a) (Z.land (Flags v) b)) 0)
        as [H|H]; [|reflexivity].
      apply Z.lor_eq_0_iff in H. tauto.
    + destruct (Z.eqb_spec (Z.lor (Z.land (Flags v) a) (Z.land (Flags v) b)) 0)
        as [H|H]; [|reflexivity].
      apply Z.lor_eq_0_iff in H. tauto.
  - change FileFixKey with (2 ^ 17).
    destruct (Z.testbit (Flags v) 17) eqn:Hbit.
    + destruct (Z.eqb_spec (Z.land (Flags v) (2 ^ 17)) 0) as [H|H];
        [|reflexivity].
      assert (Z.testbit (Z.land (Flags v) (2 ^ 17)) 17 = true) as Hb.
      { rewrite Z.land_spec, Hbit, Z.pow2_bits_true by lia. reflexivity. }
      rewrite H in Hb. rewrite Z.bits_0 in Hb. discriminate.
    + destruct (Z.eqb_spec (Z.land (Flags v) (2 ^ 17)) 0) as [H|H];
        [reflexivity|].
      exfalso. apply H. apply Z.bits_inj'. intros n Hn.
      rewrite Z.land_spec, Z.bits_0.
      destruct (Z.eq_dec n 17) as [->|Hne].
      * rewrite Hbit. reflexivity.
      * rewrite (Z.pow2_bits_false 17 n) by lia. apply andb_false_r.
  - rewrite Z.land_0_r. reflexivity.
Qed.

(* ===================================================================== *)
(** * Loading the tables                                                  *)
(* ===================================================================== *)

Lemma index_app_at {A} (pre post : list A) (a : A) (i : Z) :
  i = Z.of_nat (length pre) ->
  index (pre ++ a :: post) i = Ret a.
Proof.
  intros ->. unfold index.
  destruct (Z.ltb_spec (Z.of_nat (length pre)) 0); [lia|].
  rewrite Nat2Z.id, list_lookup_middle by reflexivity. reflexivity.
Qed.

Lemma index_beyond {A} (l : list A) (i : Z) :
  Z.of_nat (length l) <= i -> index l i = Panic "index out of range".
Proof.
  intros Hi. unfold index. destruct (Z.ltb_spec i 0); [reflexivity|].
  rewrite lookup_ge_None_2 by lia. reflexivity.
Qed.

Lemma mul32_4 i : 0 <= i -> 4 * i < 2 ^ 32 -> mul32 i 4 = 4 * i.
Proof.
  intros H0 H1. unfold mul32, wrap, modulus. rewrite Z.mod_small; lia.
Qed.

Lemma add32_small a b : 0 <= a + b < 2 ^ 32 -> add32 a b = a + b.
Proof.
  intros H. unfold add32, wrap, modulus. apply Z.mod_small, H.
Qed.

(** The four words of the entry of rank [i], in a table that [pre]
    starts with its [4 * i] first words. *)
Lemma index_entry_words (pre rest : list Z) (a b c d : Z) (i : Z) :
  Z.of_nat (length pre) = 4 * i -> 4 * i + 3 < 2 ^ 32 ->
  index (pre ++ a :: b :: c :: d :: rest) (mul32 i 4) = Ret a
  /\ index (pre ++ a :: b :: c :: d :: rest) (add32 (mul32 i 4) 1) = Ret b
  /\ index (pre ++ a :: b :: c :: d :: rest) (add32 (mul32 i 4) 2) = Ret c
  /\ index (pre ++ a :: b :: c :: d :: rest) (add32 (mul32 i 4) 3) = Ret d.
Proof.
  intros Hpre Hi. rewrite mul32_4, !add32_small by lia.
  split; [apply index_app_at; lia|].
  split; [|split].
  - change (pre ++ a :: b :: c :: d :: rest)%list
      with (pre ++ [a] ++ b :: c :: d :: rest)%list.
    rewrite app_assoc. apply index_app_at.
    rewrite length_app. cbn. lia.
  - change (pre ++ a :: b :: c :: d :: rest)%list
      with (pre ++ [a; b] ++ c :: d :: rest)%list.
    rewrite app_assoc. apply index_app_at.
    rewrite length_app. cbn. lia.
  - change (pre ++ a :: b :: c :: d :: rest)%list
      with (pre ++ [a; b; c] ++ d :: rest)%list.
    rewrite app_assoc. apply index_app_at.
    rewrite length_app. cbn. lia.
Qed.

Lemma hashEntries_from_layout (words : list Z) : forall pre n i,
  Z.of_nat (length pre) = 4 * i ->
  length words = (4 * n)%nat ->
  4 * (i + Z.of_nat n) <= 2 ^ 32 ->
  hashEntries_from (pre ++ words) n i = Ret (hashEntriesOf words).
Proof.
  induction words as [| | | |a b c d rest IH] using list_ind4;
    intros pre n i Hpre Hlen Hmax; cbn [length] in Hlen;
    try (exfalso; lia).
  - destruct n; [reflexivity | lia].
  - destruct n as [|n]; [lia|].
    cbn [hashEntries_from hashEntriesOf].
    destruct (index_entry_words pre rest a b c d i Hpre ltac:(lia))
      as (-> & -> & -> & ->).
    cbn. change (pre ++ a :: b :: c :: d :: rest)%list
      with (pre ++ [a; b; c; d] ++ rest)%list.
    rewrite app_assoc, IH; [reflexivity | | lia | lia].
    rewrite length_app. cbn. lia.
Qed.

Lemma blockEntries_from_layout (words : list Z) : forall pre n i,
  Z.of_nat (length pre) = 4 * i ->
  length words = (4 * n)%nat ->
  4 * (i + Z.of_nat n) <= 2 ^ 32 ->
  blockEntries_from (pre ++ words) n i = Ret (blockEntriesOf words).
Proof.
  induction words as [| | | |a b c d rest IH] using list_ind4;
    intros pre n i Hpre Hlen Hmax; cbn [length] in Hlen;
    try (exfalso; lia).
  - destruct n; [reflexivity | lia].
  - destruct n as [|n]; [lia|].
    cbn [blockEntries_from blockEntriesOf].
    destruct (index_entry_words pre rest a b c d i Hpre ltac:(lia))
      as (-> & -> & -> & ->).
    cbn. change (pre ++ a :: b :: c :: d :: rest)%list
      with (pre ++ [a; b; c; d] ++ rest)%list.
    rewrite app_assoc, IH; [reflexivity | | lia | lia].
    rewrite length_app. cbn. lia.
Qed.

(** More entries announced than the table holds: the loop leaves the
    table at the first entry beyond it. *)
Lemma hashEntries_from_beyond (words : list Z) : forall pre n i,
  Z.of_nat (length pre) = 4 * i ->
  (length words < 4 * n)%nat ->
  (exists q, length words = 4 * q)%nat ->
  4 * i + Z.of_nat (length words) < 2 ^ 32 ->
  hashEntries_from (pre ++ words) n i = Panic "index out of range".
Proof.
  induction words as [| | | |a b c d rest IH] using list_ind4;
    intros pre n i Hpre Hlen [q Hq] Hmax; cbn [length] in *;
    try (exfalso; lia).
  - destruct n as [|n]; [lia|]. cbn [hashEntries_from].
    rewrite (index_beyond (pre ++ []) (mul32 i 4)); [reflexivity|].
    rewrite mul32_4 by lia. rewrite length_app. cbn. lia.
  - destruct n as [|n]; [lia|].
    cbn [hashEntries_from].
    destruct (index_entry_words pre rest a b c d i Hpre ltac:(lia))
      as (-> & -> & -> & ->).
    cbn. change (pre ++ a :: b :: c :: d :: rest)%list
      with (pre ++ [a; b; c; d] ++ rest)%list.
    rewrite app_assoc, IH;
      [reflexivity | | lia | exists (q - 1)%nat; lia | lia].
    rewrite length_app. cbn. lia.
Qed.

Lemma blockEntries_from_beyond (words : list Z) : forall pre n i,
  Z.of_nat (length pre) = 4 * i ->
  (length words < 4 * n)%nat ->
  (exists q, length words = 4 * q)%nat ->
  4 * i + Z.of_nat (length words) < 2 ^ 32 ->
  blockEntries_from (pre ++ words) n i = Panic "index out of range".
Proof.
  induction words as [| | | |a b c d rest IH] using list_ind4;
    intros pre n i Hpre Hlen [q Hq] Hmax; cbn [length] in *;
    try (exfalso; lia).
  - destruct n as [|n]; [lia|]. cbn [blockEntries_from].
    rewrite (index_beyond (pre ++ []) (mul32 i 4)); [reflexivity|].
    rewrite mul32_4 by lia. rewrite length_app. cbn. lia.
  - destruct n as [|n]; [lia|].
    cbn [blockEntries_from].
    destruct (index_entry_words pre rest a b c d i Hpre ltac:(lia))
      as (-> & -> & -> & ->).
    cbn. change (pre ++ a :: b :: c :: d :: rest)%list
      with (pre ++ [a; b; c; d] ++ rest)%list.
    rewrite app_assoc, IH;
      [reflexivity | | lia | exists (q - 1)%nat; lia | lia].
    rewrite length_app. cbn. lia.
Qed.

Section TableFacts.
Context {K : Keystream} {U : Unicode} {P : Platform}.

Lemma table_key_returns (name : string) :
  GoString.isASCII name = true ->
  hashString name 3 = Ret (hashValue name 3).
Proof.
  intros Hascii. unfold hashValue.
  destruct (hashString_ascii name 3 Hascii ltac:(lia)) as [h ->].
  reflexivity.
Qed.

Lemma table_words_length (buf : list ascii) (seed count : Z) :
  0 <= count < 2 ^ 30 ->
  Z.of_nat (length buf) = 4 * mul32 count 4 ->
  length (decrypt (le_words buf) seed) = (4 * Z.to_nat count)%nat.
Proof.
  intros Hcount Hlen. unfold decrypt.
  rewrite decrypt_loop_length, le_words_length.
  rewrite mul32_4 in Hlen by lia.
  replace (length buf) with (4 * Z.to_nat count * 4)%nat by lia.
  apply Nat.div_mul. lia.
Qed.


Lemma loadHashTable_decodes (v : MPQ) (w w1 w2 : World) (f f' : File)
    (buf : list ascii) :
  0 <= Data_HashTableEntries (MPQ_Data v) < 2 ^ 30 ->
  seek (MPQ_File v) (HashTableOffset (MPQ_Data v)) w = Ret ((f, None), w1) ->
  binary_Read f (4 * mul32 (Data_HashTableEntries (MPQ_Data v)) 4) w1
  = Ret ((f', (buf, None)), w2) ->
  Z.of_nat (length buf) = 4 * mul32 (Data_HashTableEntries (MPQ_Data v)) 4 ->
  loadHashTable v w
  = Ret ({| MPQ_FileName := MPQ_FileName v;
            MPQ_File := f';
            HashTableEntries :=
              HashTableEntries v
              ++ hashEntriesOf
                   (decrypt (le_words buf) (hashValue "(hash table)" 3));
            BlockTableEntries := BlockTableEntries v;
            MPQ_Data := MPQ_Data v;
            fileCache := fileCache v |}, w2)
  /\ length (hashEntriesOf
               (decrypt (le_words buf) (hashValue "(hash table)" 3)))
     = Z.to_nat (Data_HashTableEntries (MPQ_Data v)).
Proof.
  intros Hcount Hseek Hread Hlen.
  pose proof (table_words_length buf (hashValue "(hash table)" 3) _
                Hcount Hlen) as Hwords.
  pose proof (hashEntries_from_layout
                (decrypt (le_words buf) (hashValue "(hash table)" 3))
                [] (Z.to_nat (Data_HashTableEntries (MPQ_Data v))) 0
                eq_refl Hwords ltac:(lia)) as Hentries.
  cbn [app] in Hentries.
  split.
  - unfold loadHashTable.
    unfold mbind at 1. unfold IO_bind, io_bind at 1. rewrite Hseek.
    unfold mbind at 1. unfold IO_bind, io_bind at 1. rewrite Hread.
    rewrite (table_key_returns "(hash table)" eq_refl).
    unfold_io. rewrite Hentries. reflexivity.
  - clear Hentries. revert Hwords.
    generalize (decrypt (le_words buf) (hashValue "(hash table)" 3)).
    generalize (Z.to_nat (Data_HashTableEntries (MPQ_Data v))).
    intros n words. revert n.
    induction words as [| | | |a b c d rest IH] using list_ind4;
      intros n Hn; cbn [length] in Hn; try (exfalso; lia).
    + cbn. lia.
    + destruct n as [|n]; [lia|]. cbn [hashEntriesOf length].
      f_equal. apply IH. lia.
Qed.

Lemma loadBlockTable_decodes (v : MPQ) (w w1 w2 : World) (f f' : File)
    (buf : list ascii) :
  0 <= Data_BlockTableEntries (MPQ_Data v) < 2 ^ 30 ->
  seek (MPQ_File v) (BlockTableOffset (MPQ_Data v)) w = Ret ((f, None), w1) ->
  binary_Read f (4 * mul32 (Data_BlockTableEntries (MPQ_Data v)) 4) w1
  = Ret ((f', (buf, None)), w2) ->
  Z.of_nat (length buf) = 4 * mul32 (Data_BlockTableEntries (MPQ_Data v)) 4 ->
  loadBlockTable v w
  = Ret ({| MPQ_FileName := MPQ_FileName v;
            MPQ_File := f';
            HashTableEntries := HashTableEntries v;
            BlockTableEntries :=
              BlockTableEntries v
              ++ blockEntriesOf
                   (decrypt (le_words buf) (hashValue "(block table)" 3));
            MPQ_Data := MPQ_Data v;
            fileCache := fileCache v |}, w2)
  /\ length (blockEntriesOf
               (decrypt (le_words buf) (hashValue "(block table)" 3)))
     = Z.to_nat (Data_BlockTableEntries (MPQ_Data v)).
Proof.
  intros Hcount Hseek Hread Hlen.
  pose proof (table_words_length buf (hashValue "(block table)" 3) _
                Hcount Hlen) as Hwords.
  pose proof (blockEntries_from_layout
                (decrypt (le_words buf) (hashValue "(block table)" 3))
                [] (Z.to_nat (Data_BlockTableEntries (MPQ_Data v))) 0
                eq_refl Hwords ltac:(lia)) as Hentries.
  cbn [app] in Hentries.
  split.
  - unfold loadBlockTable.
    unfold mbind at 1. unfold IO_bind, io_bind at 1. rewrite Hseek.
    unfold mbind at 1. unfold IO_bind, io_bind at 1. rewrite Hread.
    rewrite (table_key_returns "(block table)" eq_refl).
    unfold_io. rewrite Hentries. reflexivity.
  - clear Hentries. revert Hwords.
    generalize (decrypt (le_words buf) (hashValue "(block table)" 3)).
    generalize (Z.to_nat (Data_BlockTableEntries (MPQ_Data v))).
    intros n words. revert n.
    induction words as [| | | |a b c d rest IH] using list_ind4;
      intros n Hn; cbn [length] in Hn; try (exfalso; lia).
    + cbn. lia.
    + destruct n as [|n]; [lia|]. cbn [blockEntriesOf length].
      f_equal. apply IH. lia.
Qed.

End TableFacts.

(* ===================================================================== *)
(** * Tables written and read back                                        *)
(* ===================================================================== *)

Section WriterFacts.
Context {K : Keystream}.

Lemma decrypt_encrypt_loop plain : forall seed seed2,
  decrypt_loop seed seed2 (encrypt_loop seed seed2 plain) = plain.
Proof.
  induction plain as [|p plain IH]; intros seed seed2; [reflexivity|].
  cbn [encrypt_loop decrypt_loop]. unfold decrypt_step.
  rewrite Z.lxor_assoc, Z.lxor_nilpotent, Z.lxor_0_r.
  fold (next_seed seed). rewrite IH. reflexivity.
Qed.

Lemma encrypt_loop_range plain : forall seed seed2,
  Forall uint32_range plain ->
  Forall uint32_range (encrypt_loop seed seed2 plain).
Proof.
  induction plain as [|p plain IH]; intros seed seed2 Hall; [constructor|].
  inversion Hall as [|? ? Hp Hrest]; subst.
  cbn [encrypt_loop]. constructor; [|apply IH, Hrest].
  apply lxor_range; [exact Hp | apply wrap_range].
Qed.

Lemma encrypt_loop_length plain : forall seed seed2,
  length (encrypt_loop seed seed2 plain) = length plain.
Proof.
  induction plain as [|p plain IH]; intros seed seed2; [reflexivity|].
  cbn [encrypt_loop length]. f_equal. apply IH.
Qed.

End WriterFacts.

Lemma le_uint32_le_bytes w :
  uint32_range w ->
  le_uint32 (Zbyte (Z.land w 0xff)) (Zbyte (Z.land (Z.shiftr w 8) 0xff))
            (Zbyte (Z.land (Z.shiftr w 16) 0xff))
            (Zbyte (Z.land (Z.shiftr w 24) 0xff)) = w.
Proof.
  unfold uint32_range. intros Hw. unfold le_uint32.
  change 0xff with (Z.ones 8). rewrite !Z.land_ones by lia.
  rewrite !Z.shiftr_div_pow2 by lia.
  rewrite !GoStringFacts.byteZ_Zbyte
    by (unfold is_byte; GoStringFacts.zlia).
  rewrite !Z.shiftl_mul_pow2 by lia.
  set (b0 := w mod 2 ^ 8). set (b1 := (w / 2 ^ 8) mod 2 ^ 8).
  set (b2 := (w / 2 ^ 16) mod 2 ^ 8). set (b3 := (w / 2 ^ 24) mod 2 ^ 8).
  assert (0 <= b0 < 256 /\ 0 <= b1 < 256 /\ 0 <= b2 < 256 /\ 0 <= b3 < 256
          /\ w = b0 + b1 * 256 + b2 * 65536 + b3 * 16777216)
    as (H0 & H1 & H2 & H3 & Hsum)
    by (subst b0 b1 b2 b3; GoStringFacts.zlia).
  clearbody b0 b1 b2 b3.
  rewrite (Z.lor_comm b0 (b1 * 2 ^ 8)).
  rewrite (GoStringFacts.lor_plus (b1 * 2 ^ 8) b0 8 256 eq_refl)
    by GoStringFacts.zlia.
  rewrite (Z.lor_comm (b1 * 2 ^ 8 + b0) (b2 * 2 ^ 16)).
  rewrite (GoStringFacts.lor_plus (b2 * 2 ^ 16) (b1 * 2 ^ 8 + b0) 16 65536
             eq_refl) by GoStringFacts.zlia.
  rewrite (Z.lor_comm (b2 * 2 ^ 16 + (b1 * 2 ^ 8 + b0)) (b3 * 2 ^ 24)).
  rewrite (GoStringFacts.lor_plus (b3 * 2 ^ 24)
             (b2 * 2 ^ 16 + (b1 * 2 ^ 8 + b0)) 24 16777216 eq_refl)
    by GoStringFacts.zlia.
  GoStringFacts.zlia.
Qed.

Lemma le_words_le_bytes ws :
  Forall uint32_range ws -> le_words (concat (map le_bytes ws)) = ws.
Proof.
  induction 1 as [|w ws Hw _ IH]; [reflexivity|].
  cbn [map concat le_bytes app le_words].
  rewrite (le_uint32_le_bytes w Hw), IH. reflexivity.
Qed.

Lemma hashEntriesOf_hashWords entries :
  Forall hashEntry_fits entries ->
  hashEntriesOf (concat (map hashWords entries)) = entries.
Proof.
  induction 1 as [|e entries He _ IH]; [reflexivity|].
  cbn [map concat hashWords app hashEntriesOf]. rewrite IH. f_equal.
  destruct e as [a b l p x].
  destruct He as (_ & _ & Hl & Hp & _). cbn in Hl, Hp |- *.
  unfold uint16_range in *.
  rewrite Z.shiftl_mul_pow2 by lia.
  rewrite (GoStringFacts.lor_plus (l * 2 ^ 16) p 16 65536 eq_refl)
    by GoStringFacts.zlia.
  change 0xFFFF with (Z.ones 16). rewrite Z.land_ones by lia.
  rewrite Z.shiftr_div_pow2 by lia.
  f_equal; GoStringFacts.zlia.
Qed.

Lemma blockEntriesOf_blockWords blocks :
  Forall blockEntry_fits blocks ->
  blockEntriesOf (concat (map blockWords blocks)) = blocks.
Proof.
  induction 1 as [|e blocks He _ IH]; [reflexivity|].
  cbn [map concat blockWords app blockEntriesOf]. rewrite IH. f_equal.
  destruct e as [a b c d name seed].
  destruct He as (_ & _ & _ & _ & Hname & Hseed). cbn in Hname, Hseed.
  subst. reflexivity.
Qed.

Lemma hashWords_range entries :
  Forall hashEntry_fits entries ->
  Forall uint32_range (concat (map hashWords entries)).
Proof.
  induction 1 as [|e entries He _ IH]; [constructor|].
  cbn [map concat hashWords app].
  destruct He as (Ha & Hb & Hl & Hp & Hx).
  constructor; [exact Ha|]. constructor; [exact Hb|].
  constructor; [|constructor; [exact Hx | exact IH]].
  unfold uint16_range, uint32_range in *.
  rewrite Z.shiftl_mul_pow2 by lia.
  rewrite (GoStringFacts.lor_plus (Locale e * 2 ^ 16) (Platform_ e) 16 65536
             eq_refl) by GoStringFacts.zlia.
  GoStringFacts.zlia.
Qed.

Lemma blockWords_range blocks :
  Forall blockEntry_fits blocks ->
  Forall uint32_range (concat (map blockWords blocks)).
Proof.
  induction 1 as [|e blocks He _ IH]; [constructor|].
  cbn [map concat blockWords app].
  destruct He as (Ha & Hb & Hc & Hd & _).
  repeat (constructor; [assumption|]). exact IH.
Qed.

Lemma hashWords_length entries :
  length (concat (map hashWords entries)) = (4 * length entries)%nat.
Proof.
  induction entries as [|e entries IH]; [reflexivity|].
  cbn [map concat hashWords app length]. rewrite IH. lia.
Qed.

Lemma blockWords_length blocks :
  length (concat (map blockWords blocks)) = (4 * length blocks)%nat.
Proof.
  induction blocks as [|e blocks IH]; [reflexivity|].
  cbn [map concat blockWords app length]. rewrite IH. lia.
Qed.

Section TableRoundTrip.
Context {K : Keystream}.

Lemma decrypt_tableBytes words seed :
  Forall uint32_range words ->
  decrypt (le_words (tableBytes words seed)) seed = words.
Proof.
  intros Hwords. unfold tableBytes, encrypt, decrypt.
  rewrite le_words_le_bytes by (apply encrypt_loop_range, Hwords).
  apply decrypt_encrypt_loop.
Qed.

Lemma tableBytes_length words seed :
  length (tableBytes words seed) = (4 * length words)%nat.
Proof.
  unfold tableBytes, encrypt.
  rewrite concat_le_bytes_length, encrypt_loop_length. reflexivity.
Qed.

End TableRoundTrip.

(* ===================================================================== *)
(** * Further properties of Load                                          *)
(* ===================================================================== *)

Lemma hashEntries_from_length (hashData : list Z) (n : nat) : forall i entries,
  hashEntries_from hashData n i = Ret entries -> length entries = n.
Proof.
  induction n as [|n IH]; intros i entries; cbn [hashEntries_from].
  - intros [= <-]. reflexivity.
  - unfold mbind, mret, outcome_bind, outcome_ret.
    destruct (index hashData (mul32 i 4)); [|discriminate].
    destruct (index hashData (add32 (mul32 i 4) 1)); [|discriminate].
    destruct (index hashData (add32 (mul32 i 4) 2)); [|discriminate].
    destruct (index hashData (add32 (mul32 i 4) 3)); [|discriminate].
    destruct (hashEntries_from hashData n (i + 1)) as [rest|] eqn:Hrest;
      [|discriminate].
    intros [= <-]. cbn [length]. f_equal. eapply IH, Hrest.
Qed.

Lemma blockEntries_from_length (blockData : list Z) (n : nat) :
  forall i entries,
  blockEntries_from blockData n i = Ret entries -> length entries = n.
Proof.
  induction n as [|n IH]; intros i entries; cbn [blockEntries_from].
  - intros [= <-]. reflexivity.
  - unfold mbind, mret, outcome_bind, outcome_ret.
    destruct (index blockData (mul32 i 4)); [|discriminate].
    destruct (index blockData (add32 (mul32 i 4) 1)); [|discriminate].
    destruct (index blockData (add32 (mul32 i 4) 2)); [|discriminate].
    destruct (index blockData (add32 (mul32 i 4) 3)); [|discriminate].
    destruct (blockEntries_from blockData n (i + 1)) as [rest|] eqn:Hrest;
      [|discriminate].
    intros [= <-]. cbn [length]. f_equal. eapply IH, Hrest.
Qed.

Section LoadResults.
Context {K : Keystream} {U : Unicode} {P : Platform}.

(** What a table loader leaves of the archive when it returns. *)
Lemma loadHashTable_returns (v v' : MPQ) w w' :
  loadHashTable v w = Ret (v', w') ->
  MPQ_FileName v' = MPQ_FileName v
  /\ MPQ_Data v' = MPQ_Data v
  /\ fileCache v' = fileCache v
  /\ BlockTableEntries v' = BlockTableEntries v
  /\ exists entries,
       HashTableEntries v' = (HashTableEntries v ++ entries)%list
       /\ length entries = Z.to_nat (Data_HashTableEntries (MPQ_Data v)).
Proof.
  unfold loadHashTable, seek, binary_Read. unfold_io.
  destruct (File_Seek _ _) as [f [msg|]]; [discriminate|].
  destruct (_ =? 0).
  - destruct (hashString "(hash table)" 3) as [seed|]; [|discriminate].
    destruct (hashEntries_from _ _ 0) as [entries|] eqn:He; [|discriminate].
    intros [= <- <-]. cbn. repeat split.
    exists entries. split; [reflexivity|]. eapply hashEntries_from_length, He.
  - destruct (io_ReadFull f _) as [f' [buf [msg|]]]; [discriminate|].
    destruct (hashString "(hash table)" 3) as [seed|]; [|discriminate].
    destruct (hashEntries_from _ _ 0) as [entries|] eqn:He; [|discriminate].
    intros [= <- <-]. cbn. repeat split.
    exists entries. split; [reflexivity|]. eapply hashEntries_from_length, He.
Qed.

Lemma loadBlockTable_returns (v v' : MPQ) w w' :
  loadBlockTable v w = Ret (v', w') ->
  MPQ_FileName v' = MPQ_FileName v
  /\ MPQ_Data v' = MPQ_Data v
  /\ fileCache v' = fileCache v
  /\ HashTableEntries v' = HashTableEntries v
  /\ exists entries,
       BlockTableEntries v' = (BlockTableEntries v ++ entries)%list
       /\ length entries = Z.to_nat (Data_BlockTableEntries (MPQ_Data v)).
Proof.
  unfold loadBlockTable, seek, binary_Read. unfold_io.
  destruct (File_Seek _ _) as [f [msg|]]; [discriminate|].
  destruct (_ =? 0).
  - destruct (hashString "(block table)" 3) as [seed|]; [|discriminate].
    destruct (blockEntries_from _ _ 0) as [entries|] eqn:He; [|discriminate].
    intros [= <- <-]. cbn. repeat split.
    exists entries. split; [reflexivity|]. eapply blockEntries_from_length, He.
  - destruct (io_ReadFull f _) as [f' [buf [msg|]]]; [discriminate|].
    destruct (hashString "(block table)" 3) as [seed|]; [|discriminate].
    destruct (blockEntries_from _ _ 0) as [entries|] eqn:He; [|discriminate].
    intros [= <- <-]. cbn. repeat split.
    exists entries. split; [reflexivity|]. eapply blockEntries_from_length, He.
Qed.

(** [readHeader] on a header whose read fails, and on one without the
    magic signature. *)
Lemma readHeader_read_error (v : MPQ) w f' buf msg w2 :
  binary_Read (MPQ_File v) Data_size w = Ret ((f', (buf, Some msg)), w2) ->
  exists v', readHeader v w = Ret ((v', Some msg), w2).
Proof.
  intros Hread. unfold readHeader.
  unfold mbind at 1. unfold IO_bind, io_bind at 1. rewrite Hread.
  eexists. reflexivity.
Qed.

Lemma readHeader_bad_magic (v : MPQ) w f' buf w2 :
  binary_Read (MPQ_File v) Data_size w = Ret ((f', (buf, None)), w2) ->
  Magic (decodeData buf) <> magic ->
  exists v',
    readHeader v w = Ret ((v', errors_New "invalid mpq header"), w2).
Proof.
  intros Hread Hmagic. unfold readHeader.
  unfold mbind at 1. unfold IO_bind, io_bind at 1. rewrite Hread.
  cbn [MPQ_Data]. rewrite bool_decide_eq_false_2 by exact Hmagic.
  eexists. reflexivity.
Qed.

(** [readHeader] when it returns no error. *)
Lemma readHeader_returns (v v' : MPQ) w w' :
  readHeader v w = Ret ((v', None), w') ->
  MPQ_FileName v' = MPQ_FileName v
  /\ fileCache v' = fileCache v
  /\ Magic (MPQ_Data v') = magic
  /\ (exists entries,
        HashTableEntries v' = (HashTableEntries v ++ entries)%list
        /\ length entries = Z.to_nat (Data_HashTableEntries (MPQ_Data v')))
  /\ (exists entries,
        BlockTableEntries v' = (BlockTableEntries v ++ entries)%list
        /\ length entries
           = Z.to_nat (Data_BlockTableEntries (MPQ_Data v'))).
Proof.
  unfold readHeader.
  unfold mbind at 1. unfold IO_bind, io_bind at 1.
  destruct (binary_Read _ _ w) as [[[f [buf [msg|]]] w1]|];
    try discriminate.
  cbn [MPQ_FileName MPQ_File HashTableEntries BlockTableEntries MPQ_Data
       fileCache].
  destruct (bool_decide (Magic (decodeData buf) = magic)) eqn:Hmagic;
    cbn [negb]; [|discriminate].
  apply bool_decide_eq_true_1 in Hmagic.
  unfold mbind at 1. unfold IO_bind, io_bind at 1.
  destruct (loadHashTable _ w1) as [[v1 w2]|] eqn:Hhash; [|discriminate].
  unfold mbind at 1. unfold IO_bind, io_bind at 1.
  destruct (loadBlockTable v1 w2) as [[v2 w3]|] eqn:Hblock; [|discriminate].
  intros [= <- <-].
  apply loadHashTable_returns in Hhash
    as (Hn1 & Hd1 & Hc1 & Hb1 & es1 & He1 & Hl1).
  apply loadBlockTable_returns in Hblock
    as (Hn2 & Hd2 & Hc2 & Hh2 & es2 & He2 & Hl2).
  cbn in Hn1, Hd1, Hc1, Hb1, He1, Hl1.
  rewrite Hd2, Hd1. cbn [Magic Data_HashTableEntries Data_BlockTableEntries].
  split; [congruence|]. split; [congruence|]. split; [exact Hmagic|].
  split.
  - exists es1. split; [congruence | exact Hl1].
  - exists es2. split; [congruence|]. rewrite Hl2, Hd1. reflexivity.
Qed.

Lemma extends_openArchive fileName : extends_trace (openArchive fileName).
Proof.
  unfold openArchive. destruct (String.eqb runtime_GOOS "linux").
  - unfold openIgnoreCase. extends_tac.
  - apply extends_open.
Qed.

(** [Load] of a path that is not registered, once the file has been
    opened or not. *)
Lemma Load_opened fileName w r w1 :
  mpqCache w !! fileName = None ->
  openArchive fileName w = Ret (r, w1) ->
  Load fileName w = Load_rest fileName r w1.
Proof.
  intros Hmiss Hopen. rewrite (Load_miss _ _ Hmiss).
  unfold openArchive in Hopen.
  unfold mbind, IO_bind, io_bind. rewrite Hopen. reflexivity.
Qed.

Lemma Load_rest_header_error fileName file w1 v' msg w2 :
  readHeader {| MPQ_FileName := fileName;
                MPQ_File := file;
                HashTableEntries := [];
                BlockTableEntries := [];
                MPQ_Data := Data_zero;
                fileCache := Some (fresh (dom (fileCaches w1))) |} w1
  = Ret ((v', Some msg), w2) ->
  Load_rest fileName (inl file) w1 = Ret ((None, Some msg), w2).
Proof.
  intros Hhdr. unfold Load_rest.
  unfold mbind at 1. unfold IO_bind, io_bind at 1. unfold getWorld at 1.
  unfold mbind at 1. unfold IO_bind, io_bind at 1.
  rewrite Hhdr. reflexivity.
Qed.

(** What [Load_rest] leaves when it returns an error, and when it
    returns an archive. *)
Lemma Load_rest_error fileName r w res msg w' :
  Load_rest fileName r w = Ret ((res, Some msg), w') ->
  res = None
  /\ mpqCache w' = mpqCache w /\ archives w' = archives w
  /\ fileCaches w' = fileCaches w.
Proof.
  unfold Load_rest. destruct r as [file|err].
  2:{ intros [= <- <- <-]. repeat split. }
  unfold mbind at 1. unfold IO_bind, io_bind at 1. unfold getWorld at 1.
  unfold mbind at 1. unfold IO_bind, io_bind at 1.
  destruct (readHeader _ w) as [[[result err] w1]|] eqn:Hhdr;
    [|discriminate].
  destruct (extends_readHeader _ _ _ _ Hhdr) as (Hc & Ha & Hf & _).
  destruct err.
  - intros [= <- <- <-]. repeat split; assumption.
  - unfold_io. discriminate.
Qed.

Lemma Load_rest_archive fileName r w ptr w' :
  Load_rest fileName r w = Ret ((Some ptr, None), w') ->
  exists a,
    archives w' = (archives w ++ [a])%list
    /\ ptr = length (archives w)
    /\ mpqCache w' = <[fileName := ptr]> (mpqCache w)
    /\ fileCaches w' = <[fresh (dom (fileCaches w)) := ∅]> (fileCaches w)
    /\ fileCache a = Some (fresh (dom (fileCaches w)))
    /\ MPQ_FileName a = fileName
    /\ Magic (MPQ_Data a) = magic
    /\ length (HashTableEntries a)
       = Z.to_nat (Data_HashTableEntries (MPQ_Data a))
    /\ length (BlockTableEntries a)
       = Z.to_nat (Data_BlockTableEntries (MPQ_Data a)).
Proof.
  unfold Load_rest. destruct r as [file|err]; [|discriminate].
  unfold mbind at 1. unfold IO_bind, io_bind at 1. unfold getWorld at 1.
  unfold mbind at 1. unfold IO_bind, io_bind at 1.
  destruct (readHeader _ w) as [[[result err] w1]|] eqn:Hhdr;
    [|discriminate].
  destruct (extends_readHeader _ _ _ _ Hhdr) as (Hc & Ha & Hf & _).
  destruct err; [discriminate|].
  apply readHeader_returns in Hhdr
    as (Hname & Hcache & Hmagic & (es1 & He1 & Hl1) & (es2 & He2 & Hl2)).
  cbn in Hname, Hcache, He1, He2.
  unfold_io. intros [= <- <-]. cbn. exists result.
  rewrite Ha, Hc, Hf.
  repeat split; try assumption; try reflexivity.
  - rewrite He1. exact Hl1.
  - rewrite He2. exact Hl2.
Qed.

End LoadResults.

(** X6. [loadHashTable], for a header that announces fewer than 2^30
    entries, when the seek succeeds and the read fills the table: the
    entries appended are those that the decrypted words lay out in their
    order, four words to an entry ([NamePartA], [NamePartB], the locale in
    the high and the platform in the low half of the third word,
    [BlockIndex]), as many as announced; the words are decrypted with the
    hash of ["(hash table)"] of type 3. *)
Theorem loadHashTable_layout {K : Keystream} {U : Unicode} {P : Platform}
    (v : MPQ) (w w1 w2 : World) (f f' : File) (buf : list ascii) :
  0 <= Data_HashTableEntries (MPQ_Data v) < 2 ^ 30 ->
  seek (MPQ_File v) (HashTableOffset (MPQ_Data v)) w = Ret ((f, None), w1) ->
  binary_Read f (4 * mul32 (Data_HashTableEntries (MPQ_Data v)) 4) w1
  = Ret ((f', (buf, None)), w2) ->
  Z.of_nat (length buf) = 4 * mul32 (Data_HashTableEntries (MPQ_Data v)) 4 ->
  loadHashTable v w
  = Ret ({| MPQ_FileName := MPQ_FileName v;
            MPQ_File := f';
            HashTableEntries :=
              HashTableEntries v
              ++ hashEntriesOf
                   (decrypt (le_words buf) (hashValue "(hash table)" 3));
            BlockTableEntries := BlockTableEntries v;
            MPQ_Data := MPQ_Data v;
            fileCache := fileCache v |}, w2)
  /\ length (hashEntriesOf
               (decrypt (le_words buf) (hashValue "(hash table)" 3)))
     = Z.to_nat (Data_HashTableEntries (MPQ_Data v)).
Proof. apply loadHashTable_decodes. Qed.

Lemma loadHashTable_layout_witness :
  loadHashTable (K := Sample.keystream) (U := Sample.unicode)
    Fixture.dataOpened Sample.emptyWorld
  = Ret (@Build_MPQ Fixture.data "data.mpq" (Fixture.dataFile 48)
           Fixture.dataEntries [] (decodeData Fixture.dataBytes)
           (Some 0%nat),
         logged Sample.emptyWorld [EvSeek 32; EvRead 16]).
Proof.
  assert (hashEntriesOf
            (decrypt (K := Sample.keystream)
               (le_words (take 16 (drop 32 Fixture.dataBytes)))
               (hashValue (K := Sample.keystream) (U := Sample.unicode)
                  "(hash table)" 3))
          = Fixture.dataEntries) as Hentries by (vm_compute; reflexivity).
  pose proof (loadHashTable_layout (K := Sample.keystream)
                (U := Sample.unicode) (P := Fixture.data)
                Fixture.dataOpened Sample.emptyWorld
                (logged Sample.emptyWorld [EvSeek 32])
                (logged Sample.emptyWorld [EvSeek 32; EvRead 16])
                (Fixture.dataFile 32) (Fixture.dataFile 48)
                (take 16 (drop 32 Fixture.dataBytes))
                ltac:(vm_compute; split; [discriminate | reflexivity])
                ltac:(vm_compute; reflexivity)
                ltac:(vm_compute; reflexivity)
                ltac:(vm_compute; reflexivity)) as [Hload _].
  rewrite Hentries in Hload. exact Hload.
Defined.

(** X7. [loadBlockTable], under the same conditions: the entries
    appended are those that the decrypted words lay out ([FilePosition],
    [CompressedFileSize], [UncompressedFileSize], [Flags]), without a name
    and with the seed 0, as many as announced; the words are decrypted
    with the hash of ["(block table)"] of type 3. *)
Theorem loadBlockTable_layout {K : Keystream} {U : Unicode} {P : Platform}
    (v : MPQ) (w w1 w2 : World) (f f' : File) (buf : list ascii) :
  0 <= Data_BlockTableEntries (MPQ_Data v) < 2 ^ 30 ->
  seek (MPQ_File v) (BlockTableOffset (MPQ_Data v)) w = Ret ((f, None), w1) ->
  binary_Read f (4 * mul32 (Data_BlockTableEntries (MPQ_Data v)) 4) w1
  = Ret ((f', (buf, None)), w2) ->
  Z.of_nat (length buf) = 4 * mul32 (Data_BlockTableEntries (MPQ_Data v)) 4 ->
  loadBlockTable v w
  = Ret ({| MPQ_FileName := MPQ_FileName v;
            MPQ_File := f';
            HashTableEntries := HashTableEntries v;
            BlockTableEntries :=
              BlockTableEntries v
              ++ blockEntriesOf
                   (decrypt (le_words buf) (hashValue "(block table)" 3));
            MPQ_Data := MPQ_Data v;
            fileCache := fileCache v |}, w2)
  /\ length (blockEntriesOf
               (decrypt (le_words buf) (hashValue "(block table)" 3)))
     = Z.to_nat (Data_BlockTableEntries (MPQ_Data v)).
Proof. apply loadBlockTable_decodes. Qed.

Lemma loadBlockTable_layout_witness :
  loadBlockTable (K := Sample.keystream) (U := Sample.unicode)
    Fixture.dataOpened Sample.emptyWorld
  = Ret (@Build_MPQ Fixture.data "data.mpq" (Fixture.dataFile 64)
           [] Fixture.dataBlocks (decodeData Fixture.dataBytes)
           (Some 0%nat),
         logged Sample.emptyWorld [EvSeek 48; EvRead 16]).
Proof.
  assert (blockEntriesOf
            (decrypt (K := Sample.keystream)
               (le_words (take 16 (drop 48 Fixture.dataBytes)))
               (hashValue (K := Sample.keystream) (U := Sample.unicode)
                  "(block table)" 3))
          = Fixture.dataBlocks) as Hentries by (vm_compute; reflexivity).
  pose proof (loadBlockTable_layout (K := Sample.keystream)
                (U := Sample.unicode) (P := Fixture.data)
                Fixture.dataOpened Sample.emptyWorld
                (logged Sample.emptyWorld [EvSeek 48])
                (logged Sample.emptyWorld [EvSeek 48; EvRead 16])
                (Fixture.dataFile 48) (Fixture.dataFile 64)
                (take 16 (drop 48 Fixture.dataBytes))
                ltac:(vm_compute; split; [discriminate | reflexivity])
                ltac:(vm_compute; reflexivity)
                ltac:(vm_compute; reflexivity)
                ltac:(vm_compute; reflexivity)) as [Hload _].
  rewrite Hentries in Hload. exact Hload.
Defined.

(** X8. A header that announces 2^30 hash entries or more: the number
    of words of the table, [HashTableEntries*4], wraps around in [uint32],
    the table that is allocated and read is shorter than announced, and the
    loop over the announced entries leaves it: [loadHashTable] panics with
    an index out of range. *)
Theorem loadHashTable_count_overflow
    {K : Keystream} {U : Unicode} {P : Platform}
    (v : MPQ) (w w1 w2 : World) (f f' : File) (buf : list ascii) :
  2 ^ 30 <= Data_HashTableEntries (MPQ_Data v) < 2 ^ 32 ->
  seek (MPQ_File v) (HashTableOffset (MPQ_Data v)) w = Ret ((f, None), w1) ->
  binary_Read f (4 * mul32 (Data_HashTableEntries (MPQ_Data v)) 4) w1
  = Ret ((f', (buf, None)), w2) ->
  Z.of_nat (length buf) = 4 * mul32 (Data_HashTableEntries (MPQ_Data v)) 4 ->
  loadHashTable v w = Panic "index out of range".
Proof.
  intros Hcount Hseek Hread Hlen.
  set (count := Data_HashTableEntries (MPQ_Data v)) in *.
  assert (mul32 count 4 = 4 * (count mod 2 ^ 30)) as Hmul
    by (unfold mul32, wrap, modulus; GoStringFacts.zlia).
  assert (length (decrypt (le_words buf) (hashValue "(hash table)" 3))
          = (4 * Z.to_nat (count mod 2 ^ 30))%nat) as Hwords.
  { unfold decrypt. rewrite decrypt_loop_length, le_words_length.
    replace (length buf) with (4 * Z.to_nat (count mod 2 ^ 30) * 4)%nat
      by GoStringFacts.zlia.
    apply Nat.div_mul. lia. }
  pose proof (hashEntries_from_beyond
                (decrypt (le_words buf) (hashValue "(hash table)" 3))
                [] (Z.to_nat count) 0 eq_refl) as Hloop.
  cbn [app] in Hloop.
  unfold loadHashTable.
  unfold mbind at 1. unfold IO_bind, io_bind at 1. rewrite Hseek.
  unfold mbind at 1. unfold IO_bind, io_bind at 1. fold count. rewrite Hread.
  rewrite (table_key_returns "(hash table)" eq_refl).
  unfold_io. rewrite Hloop; [reflexivity | | |].
  - rewrite Hwords. GoStringFacts.zlia.
  - eexists. exact Hwords.
  - rewrite Hwords. GoStringFacts.zlia.
Qed.

Lemma loadHashTable_count_overflow_witness :
  Data_HashTableEntries (decodeData Fixture.hugeBytes) = 2 ^ 30
  /\ loadHashTable (K := Sample.keystream) (U := Sample.unicode)
       Fixture.hugeOpened Sample.emptyWorld
     = Panic "index out of range".
Proof.
  split; [vm_compute; reflexivity|].
  apply (loadHashTable_count_overflow (K := Sample.keystream)
           (U := Sample.unicode) (P := Fixture.huge)
           Fixture.hugeOpened Sample.emptyWorld
           (logged Sample.emptyWorld [EvSeek 32])
           (logged Sample.emptyWorld [EvSeek 32])
           {| Sample.content := Fixture.hugeBytes; Sample.pos := 32 |}
           {| Sample.content := Fixture.hugeBytes; Sample.pos := 32 |} []).
  - vm_compute. split; [discriminate | reflexivity].
  - vm_compute. reflexivity.
  - vm_compute. reflexivity.
  - vm_compute. reflexivity.
Defined.

(** X9. A file that does not start with the magic signature: [Load]
    returns no archive and the error [invalid mpq header]; after the read
    of the 32 bytes of the header it makes no further call, so no table is
    looked for, and it registers nothing. *)
Theorem Load_invalid_header {K : Keystream} {U : Unicode} {P : Platform}
    (fileName : string) (w w1 w2 : World) (file file' : File)
    (buf : list ascii) :
  mpqCache w !! fileName = None ->
  openArchive fileName w = Ret (inl file, w1) ->
  binary_Read file Data_size w1 = Ret ((file', (buf, None)), w2) ->
  Magic (decodeData buf) <> magic ->
  Load fileName w = Ret ((None, errors_New "invalid mpq header"), w2)
  /\ w2 = logged w1 [EvRead Data_size]
  /\ mpqCache w2 = mpqCache w
  /\ archives w2 = archives w
  /\ fileCaches w2 = fileCaches w.
Proof.
  intros Hmiss Hopen Hread Hmagic.
  destruct (readHeader_bad_magic
              {| MPQ_FileName := fileName;
                 MPQ_File := file;
                 HashTableEntries := [];
                 BlockTableEntries := [];
                 MPQ_Data := Data_zero;
                 fileCache := Some (fresh (dom (fileCaches w1))) |}
              w1 file' buf w2 Hread Hmagic) as [v' Hhdr].
  split.
  { rewrite (Load_opened _ _ _ _ Hmiss Hopen).
    apply (Load_rest_header_error _ _ _ _ _ _ Hhdr). }
  assert (w2 = logged w1 [EvRead Data_size]) as Hw2.
  { revert Hread. unfold binary_Read. cbn. unfold_io.
    destruct (io_ReadFull file Data_size) as [f [b e]].
    intros [= _ _ _ <-]. reflexivity. }
  split; [exact Hw2|]. subst w2. cbn.
  destruct (extends_openArchive fileName _ _ _ Hopen) as (Hc & Ha & Hf & _).
  repeat split; assumption.
Qed.

Lemma Load_invalid_header_witness :
  Load (K := Sample.keystream) (U := Sample.unicode) (P := Fixture.junk)
    "junk.mpq" Sample.emptyWorld
  = Ret ((None, errors_New "invalid mpq header"),
         logged Sample.emptyWorld [EvOpen "junk.mpq"; EvRead 32]).
Proof.
  apply (Load_invalid_header (K := Sample.keystream) (U := Sample.unicode)
           (P := Fixture.junk) "junk.mpq" Sample.emptyWorld
           (logged Sample.emptyWorld [EvOpen "junk.mpq"]) _
           {| Sample.content := replicate 32 zero; Sample.pos := 0 |}
           {| Sample.content := replicate 32 zero; Sample.pos := 32 |}
           (replicate 32 zero)).
  - reflexivity.
  - vm_compute. reflexivity.
  - vm_compute. reflexivity.
  - vm_compute. discriminate.
Defined.

(** X10. [Load] hands the errors of the operating system on as they
    are, without an archive: the error with which the file cannot be
    opened, and the error with which the 32 bytes of the header cannot be
    read (a file that is too short). *)
Theorem Load_returns_io_errors {K : Keystream} {U : Unicode} {P : Platform}
    (fileName : string) (w : World) :
  mpqCache w !! fileName = None ->
  (forall err w1,
     openArchive fileName w = Ret (inr err, w1) ->
     Load fileName w = Ret ((None, Some err), w1))
  /\ (forall file w1 file' buf msg w2,
        openArchive fileName w = Ret (inl file, w1) ->
        binary_Read file Data_size w1
        = Ret ((file', (buf, Some msg)), w2) ->
        Load fileName w = Ret ((None, Some msg), w2)).
Proof.
  intros Hmiss. split.
  - intros err w1 Hopen. rewrite (Load_opened _ _ _ _ Hmiss Hopen).
    reflexivity.
  - intros file w1 file' buf msg w2 Hopen Hread.
    rewrite (Load_opened _ _ _ _ Hmiss Hopen).
    destruct (readHeader_read_error
                {| MPQ_FileName := fileName;
                   MPQ_File := file;
                   HashTableEntries := [];
                   BlockTableEntries := [];
                   MPQ_Data := Data_zero;
                   fileCache := Some (fresh (dom (fileCaches w1))) |}
                w1 file' buf msg w2 Hread) as [v' Hhdr].
    apply (Load_rest_header_error _ _ _ _ _ _ Hhdr).
Qed.

Lemma Load_returns_io_errors_witness :
  Load (K := Sample.keystream) (U := Sample.unicode) (P := Sample.hello)
    "hello.mpq" Sample.emptyWorld
  = Ret ((None, Some "unexpected EOF"),
         logged Sample.emptyWorld [EvOpen "hello.mpq"; EvRead 32]).
Proof.
  apply (proj2 (Load_returns_io_errors (K := Sample.keystream)
                  (U := Sample.unicode) (P := Sample.hello)
                  "hello.mpq" Sample.emptyWorld eq_refl)
           Sample.helloFile
           (logged Sample.emptyWorld [EvOpen "hello.mpq"])
           {| Sample.content := Sample.helloBytes; Sample.pos := 5 |} []).
  - vm_compute. reflexivity.
  - vm_compute. reflexivity.
Defined.

(** X11. A [Load] that returns an error returns no archive and leaves
    the registry, the archives and the content caches as they were: only
    the trace of the calls has grown. *)
Theorem Load_error_keeps_registry
    {K : Keystream} {U : Unicode} {P : Platform}
    (fileName : string) (w w' : World) (res : option nat) (msg : string) :
  Load fileName w = Ret ((res, Some msg), w') ->
  res = None
  /\ mpqCache w' = mpqCache w
  /\ archives w' = archives w
  /\ fileCaches w' = fileCaches w
  /\ exists tl, trace w' = (trace w ++ tl)%list.
Proof.
  destruct (mpqCache w !! fileName) as [ptr|] eqn:Hreg.
  { rewrite (Load_hit _ _ _ Hreg). discriminate. }
  rewrite (Load_miss _ _ Hreg). fold (openArchive fileName).
  unfold mbind, IO_bind, io_bind.
  destruct (openArchive fileName w) as [[r w1]|] eqn:Hopen; [|discriminate].
  intros Hrest.
  destruct (extends_openArchive fileName _ _ _ Hopen)
    as (Hc & Ha & Hf & tl1 & Ht1).
  destruct (Load_rest_spec _ _ _ _ _ Hrest) as [[tl2 Ht2] _].
  apply Load_rest_error in Hrest as (-> & Hc' & Ha' & Hf').
  split; [reflexivity|]. split; [congruence|]. split; [congruence|].
  split; [congruence|].
  exists (tl1 ++ tl2)%list. rewrite Ht2, Ht1. symmetry. apply app_assoc.
Qed.

Lemma Load_error_keeps_registry_witness :
  Load (K := Sample.keystream) (U := Sample.unicode) (P := Fixture.junk)
    "junk.mpq" Sample.emptyWorld
  = Ret ((None, Some "invalid mpq header"),
         logged Sample.emptyWorld [EvOpen "junk.mpq"; EvRead 32])
  /\ mpqCache (logged (P := Fixture.junk) Sample.emptyWorld
                 [EvOpen "junk.mpq"; EvRead 32])
     = mpqCache (P := Fixture.junk) Sample.emptyWorld.
Proof.
  assert (Load (K := Sample.keystream) (U := Sample.unicode)
            (P := Fixture.junk) "junk.mpq" Sample.emptyWorld
          = Ret ((None, Some "invalid mpq header"),
                 logged Sample.emptyWorld [EvOpen "junk.mpq"; EvRead 32]))
    as Hload by (vm_compute; reflexivity).
  split; [exact Hload|].
  apply (Load_error_keeps_registry (K := Sample.keystream)
           (U := Sample.unicode) (P := Fixture.junk) _ _ _ _ _ Hload).
Defined.

(** X12. A [Load] that goes to the disk and returns an archive has
    allocated it: the archive is new, it carries the path, a header with
    the magic signature, tables with as many entries as the header
    announces, and a content cache of its own, which no archive had before
    and which is empty; and it is registered under the path. *)
Theorem Load_registers_fresh_archive
    {K : Keystream} {U : Unicode} {P : Platform}
    (fileName : string) (w w' : World) (ptr : nat) :
  mpqCache w !! fileName = None ->
  Load fileName w = Ret ((Some ptr, None), w') ->
  exists a ref,
    archives w' = (archives w ++ [a])%list
    /\ ptr = length (archives w)
    /\ mpqCache w' = <[fileName := ptr]> (mpqCache w)
    /\ MPQ_FileName a = fileName
    /\ Magic (MPQ_Data a) = magic
    /\ length (HashTableEntries a)
       = Z.to_nat (Data_HashTableEntries (MPQ_Data a))
    /\ length (BlockTableEntries a)
       = Z.to_nat (Data_BlockTableEntries (MPQ_Data a))
    /\ fileCache a = Some ref
    /\ fileCaches w !! ref = None
    /\ fileCaches w' = <[ref := ∅]> (fileCaches w)
    /\ cacheOf w' a = ∅.
Proof.
  intros Hmiss. rewrite (Load_miss _ _ Hmiss). fold (openArchive fileName).
  unfold mbind, IO_bind, io_bind.
  destruct (openArchive fileName w) as [[r w1]|] eqn:Hopen; [|discriminate].
  intros Hrest.
  destruct (extends_openArchive fileName _ _ _ Hopen) as (Hc & Ha & Hf & _).
  apply Load_rest_archive in Hrest
    as (a & Harch & Hptr & Hreg & Hcaches & Hcache & Hname & Hmagic
        & Hhash & Hblock).
  rewrite Ha in Harch, Hptr. rewrite Hc in Hreg.
  rewrite Hf in Hcaches, Hcache.
  exists a, (fresh (dom (fileCaches w))).
  repeat (split; [assumption|]).
  split.
  - apply not_elem_of_dom, is_fresh.
  - split; [exact Hcaches|].
    unfold cacheOf. rewrite Hcache, Hcaches, lookup_insert_eq. reflexivity.
Qed.

Lemma Load_registers_fresh_archive_witness :
  exists a ref,
    archives (P := Fixture.data)
      (Sample.stateAfter
         (Load (K := Sample.keystream) (U := Sample.unicode)
            (P := Fixture.data) "data.mpq"))
    = ([] ++ [a])%list
    /\ fileCache a = Some ref
    /\ length (HashTableEntries a)
       = Z.to_nat (Data_HashTableEntries (MPQ_Data a)).
Proof.
  destruct (Load_registers_fresh_archive (K := Sample.keystream)
              (U := Sample.unicode) (P := Fixture.data)
              "data.mpq" Sample.emptyWorld
              (Sample.stateAfter
                 (Load (K := Sample.keystream) (U := Sample.unicode)
                    (P := Fixture.data) "data.mpq"))
              0%nat eq_refl ltac:(vm_compute; reflexivity))
    as (a & ref & Harch & _ & _ & _ & _ & Hhash & _ & Hcache & _).
  exists a, ref. split; [exact Harch|]. split; [exact Hcache | exact Hhash].
Defined.

(** X13. An archive written and opened. When the file opens, its header
    carries the magic signature and announces the numbers of entries of
    [entries] and of [blocks] (fewer than 2^30, with fields that fit their
    types), and the reads at the offsets of the two tables return the words
    of [entries] and of [blocks], encrypted with the hashes of
    ["(hash table)"] and of ["(block table)"]: then [Load] returns a new
    archive whose tables are [entries] and [blocks]. *)
Theorem Load_recovers_tables {K : Keystream} {U : Unicode} {P : Platform}
    (fileName : string) (w w1 w2 w3 w4 w5 w6 : World)
    (file f1 f2 f3 f4 f5 : File) (hdr : list ascii)
    (entries : list HashTableEntry) (blocks : list BlockTableEntry) :
  mpqCache w !! fileName = None ->
  openArchive fileName w = Ret (inl file, w1) ->
  binary_Read file Data_size w1 = Ret ((f1, (hdr, None)), w2) ->
  Magic (decodeData hdr) = magic ->
  Data_HashTableEntries (decodeData hdr) = Z.of_nat (length entries) ->
  Data_BlockTableEntries (decodeData hdr) = Z.of_nat (length blocks) ->
  Z.of_nat (length entries) < 2 ^ 30 ->
  Z.of_nat (length blocks) < 2 ^ 30 ->
  Forall hashEntry_fits entries ->
  Forall blockEntry_fits blocks ->
  seek f1 (HashTableOffset (decodeData hdr)) w2 = Ret ((f2, None), w3) ->
  binary_Read f2 (16 * Z.of_nat (length entries)) w3
  = Ret ((f3, (tableBytes (concat (map hashWords entries))
                 (hashValue "(hash table)" 3), None)), w4) ->
  seek f3 (BlockTableOffset (decodeData hdr)) w4 = Ret ((f4, None), w5) ->
  binary_Read f4 (16 * Z.of_nat (length blocks)) w5
  = Ret ((f5, (tableBytes (concat (map blockWords blocks))
                 (hashValue "(block table)" 3), None)), w6) ->
  Load fileName w
  = Ret ((Some (length (archives w)), None),
         {| mpqCache := <[fileName := length (archives w)]> (mpqCache w);
            archives :=
              archives w
              ++ [{| MPQ_FileName := fileName;
                     MPQ_File := f5;
                     HashTableEntries := entries;
                     BlockTableEntries := blocks;
                     MPQ_Data := decodeData hdr;
                     fileCache := Some (fresh (dom (fileCaches w))) |}];
            fileCaches := <[fresh (dom (fileCaches w)) := ∅]> (fileCaches w);
            trace := trace w6 |}).
Proof.
  intros Hmiss Hopen Hhdr Hmagic Hn Hm Hnmax Hmmax Hfit Hbfit
    Hseek1 Hread1 Hseek2 Hread2.
  destruct (extends_openArchive fileName _ _ _ Hopen) as (Hc1 & Ha1 & Hf1 & _).
  destruct (extends_binary_Read _ _ _ _ _ Hhdr) as (Hc2 & Ha2 & Hf2 & _).
  destruct (extends_seek _ _ _ _ _ Hseek1) as (Hc3 & Ha3 & Hf3 & _).
  destruct (extends_binary_Read _ _ _ _ _ Hread1) as (Hc4 & Ha4 & Hf4 & _).
  destruct (extends_seek _ _ _ _ _ Hseek2) as (Hc5 & Ha5 & Hf5 & _).
  destruct (extends_binary_Read _ _ _ _ _ Hread2) as (Hc6 & Ha6 & Hf6 & _).
  rewrite (Load_opened _ _ _ _ Hmiss Hopen). unfold Load_rest.
  unfold mbind at 1. unfold IO_bind, io_bind at 1. unfold getWorld at 1.
  unfold mbind at 1. unfold IO_bind, io_bind at 1.
  unfold readHeader. unfold mbind at 1. unfold IO_bind, io_bind at 1.
  cbn [MPQ_File]. rewrite Hhdr.
  cbn [MPQ_FileName MPQ_File HashTableEntries BlockTableEntries MPQ_Data
       fileCache].
  rewrite Hmagic, bool_decide_eq_true_2 by reflexivity. cbn [negb].
  unfold mbind at 1. unfold IO_bind, io_bind at 1.
  match goal with
  | |- context [loadHashTable ?v w2] =>
      destruct (loadHashTable_decodes v w2 w3 w4 f2 f3
                  (tableBytes (concat (map hashWords entries))
                     (hashValue "(hash table)" 3))) as [Hhash _]
  end.
  { cbn [MPQ_Data]. rewrite Hn. lia. }
  { exact Hseek1. }
  { cbn [MPQ_Data]. rewrite Hn, mul32_4 by lia.
    replace (4 * (4 * Z.of_nat (length entries)))
      with (16 * Z.of_nat (length entries)) by lia.
    exact Hread1. }
  { cbn [MPQ_Data]. rewrite Hn, mul32_4 by lia.
    rewrite tableBytes_length, hashWords_length. lia. }
  rewrite Hhash. clear Hhash.
  rewrite decrypt_tableBytes by (apply hashWords_range, Hfit).
  rewrite hashEntriesOf_hashWords by exact Hfit.
  cbn [MPQ_FileName MPQ_File HashTableEntries BlockTableEntries MPQ_Data
       fileCache app].
  unfold mbind at 1. unfold IO_bind, io_bind at 1.
  match goal with
  | |- context [loadBlockTable ?v w4] =>
      destruct (loadBlockTable_decodes v w4 w5 w6 f4 f5
                  (tableBytes (concat (map blockWords blocks))
                     (hashValue "(block table)" 3))) as [Hblock _]
  end.
  { cbn [MPQ_Data]. rewrite Hm. lia. }
  { exact Hseek2. }
  { cbn [MPQ_Data]. rewrite Hm, mul32_4 by lia.
    replace (4 * (4 * Z.of_nat (length blocks)))
      with (16 * Z.of_nat (length blocks)) by lia.
    exact Hread2. }
  { cbn [MPQ_Data]. rewrite Hm, mul32_4 by lia.
    rewrite tableBytes_length, blockWords_length. lia. }
  rewrite Hblock. clear Hblock.
  rewrite decrypt_tableBytes by (apply blockWords_range, Hbfit).
  rewrite blockEntriesOf_blockWords by exact Hbfit.
  cbn [MPQ_FileName MPQ_File HashTableEntries BlockTableEntries MPQ_Data
       fileCache app].
  unfold_io.
  rewrite Hc6, Hc5, Hc4, Hc3, Hc2, Hc1, Ha6, Ha5, Ha4, Ha3, Ha2, Ha1,
    Hf6, Hf5, Hf4, Hf3, Hf2, Hf1.
  reflexivity.
Qed.

Lemma Load_recovers_tables_witness :
  Load (K := Sample.keystream) (U := Sample.unicode) (P := Fixture.data)
    "data.mpq" Sample.emptyWorld
  = Ret ((Some 0%nat, None),
         {| mpqCache := {[ "data.mpq" := 0%nat ]};
            archives := [Fixture.dataLoaded];
            fileCaches := {[ 0%nat := ∅ ]};
            trace := [EvOpen "data.mpq"; EvRead 32; EvSeek 32; EvRead 16;
                      EvSeek 48; EvRead 16] |}).
Proof.
  pose proof (Load_recovers_tables (K := Sample.keystream)
                (U := Sample.unicode) (P := Fixture.data)
                "data.mpq" Sample.emptyWorld
                (logged Sample.emptyWorld [EvOpen "data.mpq"])
                (logged Sample.emptyWorld [EvOpen "data.mpq"; EvRead 32])
                (logged Sample.emptyWorld
                   [EvOpen "data.mpq"; EvRead 32; EvSeek 32])
                (logged Sample.emptyWorld
                   [EvOpen "data.mpq"; EvRead 32; EvSeek 32; EvRead 16])
                (logged Sample.emptyWorld
                   [EvOpen "data.mpq"; EvRead 32; EvSeek 32; EvRead 16;
                    EvSeek 48])
                (logged Sample.emptyWorld
                   [EvOpen "data.mpq"; EvRead 32; EvSeek 32; EvRead 16;
                    EvSeek 48; EvRead 16])
                (Fixture.dataFile 0) (Fixture.dataFile 32)
                (Fixture.dataFile 32) (Fixture.dataFile 48)
                (Fixture.dataFile 48) (Fixture.dataFile 64)
                (take 32 Fixture.dataBytes)
                Fixture.dataEntries Fixture.dataBlocks
                eq_refl
                ltac:(vm_compute; reflexivity)
                ltac:(vm_compute; reflexivity)
                ltac:(vm_compute; reflexivity)
                ltac:(vm_compute; reflexivity)
                ltac:(vm_compute; reflexivity)
                ltac:(vm_compute; reflexivity)
                ltac:(vm_compute; reflexivity)
                ltac:(repeat constructor; vm_compute; congruence)
                ltac:(repeat constructor; vm_compute; congruence)
                ltac:(vm_compute; reflexivity)
                ltac:(vm_compute; reflexivity)
                ltac:(vm_compute; reflexivity)
                ltac:(vm_compute; reflexivity)) as Hload.
  exact Hload.
Defined.

(* ===================================================================== *)
(** * Opening a file whatever the case of its name                        *)
(* ===================================================================== *)

Section OpenFacts.
Context {U : Unicode} {P : Platform}.

Lemma matchName_first pre f post name :
  forallb (fun x => negb (GoString.EqualFold x name)) pre = true ->
  GoString.EqualFold f name = true ->
  matchName (pre ++ f :: post) name = f.
Proof.
  intros Hpre Hf. induction pre as [|x pre IH]; cbn [app matchName].
  - rewrite Hf. reflexivity.
  - cbn [forallb] in Hpre. apply andb_true_iff in Hpre as [Hx Hpre].
    apply negb_true_iff in Hx. rewrite Hx. apply IH, Hpre.
Qed.

Lemma matchName_none files name :
  forallb (fun x => negb (GoString.EqualFold x name)) files = true ->
  matchName files name = name.
Proof.
  intros Hall. induction files as [|x files IH]; [reflexivity|].
  cbn [forallb] in Hall. apply andb_true_iff in Hall as [Hx Hall].
  apply negb_true_iff in Hx. cbn [matchName]. rewrite Hx. apply IH, Hall.
Qed.

Lemma openIgnoreCase_listing mpqPath w err files :
  os_Open mpqPath = inr err ->
  ioutil_ReadDir (GoPath.Dir mpqPath) = inl files ->
  openIgnoreCase mpqPath w
  = Ret (os_Open (GoPath.Join (GoPath.Dir mpqPath)
                    (matchName files (GoPath.Base mpqPath))),
         logged w [EvOpen mpqPath; EvReadDir (GoPath.Dir mpqPath);
                   EvOpen (GoPath.Join (GoPath.Dir mpqPath)
                             (matchName files (GoPath.Base mpqPath)))]).
Proof.
  intros Hopen Hdir. unfold openIgnoreCase, open, readDir, logged.
  unfold_io. cbn. rewrite Hopen. cbn. rewrite Hdir. cbn.
  rewrite <- !app_assoc. reflexivity.
Qed.

End OpenFacts.

(** X14. [openIgnoreCase], when the path as given does not open: the
    directory of the path is listed, and the file opened is the first entry
    of the listing whose name equals the last element of the path under
    case folding, in that directory. The calls made are the first
    [os.Open], the listing and the second [os.Open]. *)
Theorem openIgnoreCase_first_fold_match {U : Unicode} {P : Platform}
    (mpqPath : string) (w : World) (err : string)
    (pre post : list string) (f : string) :
  os_Open mpqPath = inr err ->
  ioutil_ReadDir (GoPath.Dir mpqPath) = inl (pre ++ f :: post)%list ->
  forallb (fun x => negb (GoString.EqualFold x (GoPath.Base mpqPath))) pre
  = true ->
  GoString.EqualFold f (GoPath.Base mpqPath) = true ->
  openIgnoreCase mpqPath w
  = Ret (os_Open (GoPath.Join (GoPath.Dir mpqPath) f),
         logged w [EvOpen mpqPath; EvReadDir (GoPath.Dir mpqPath);
                   EvOpen (GoPath.Join (GoPath.Dir mpqPath) f)]).
Proof.
  intros Hopen Hdir Hpre Hf.
  rewrite (openIgnoreCase_listing _ _ _ _ Hopen Hdir).
  rewrite (matchName_first _ _ _ _ Hpre Hf). reflexivity.
Qed.

Lemma openIgnoreCase_first_fold_match_witness :
  openIgnoreCase (U := Sample.unicode) (P := Sample.emptyTables) "A.MPQ"
    Sample.emptyWorld
  = Ret (inl {| Sample.content := Sample.header 32 32 0 0; Sample.pos := 0 |},
         logged Sample.emptyWorld
           [EvOpen "A.MPQ"; EvReadDir "."; EvOpen "a.mpq"]).
Proof.
  apply (openIgnoreCase_first_fold_match (U := Sample.unicode)
           (P := Sample.emptyTables) "A.MPQ" Sample.emptyWorld
           "no such file or directory" [] [] "a.mpq");
    vm_compute; reflexivity.
Defined.

(** X15. [openIgnoreCase] lists no directory when the path as given
    opens; it hands on the error of the listing when the directory cannot
    be listed, without a second [os.Open]; and when no entry of the listing
    equals the last element of the path under case folding, it tries the
    directory joined with that element as it is, and returns what this
    [os.Open] returns. *)
Theorem openIgnoreCase_other_paths {U : Unicode} {P : Platform}
    (mpqPath : string) (w : World) :
  (forall file,
     os_Open mpqPath = inl file ->
     openIgnoreCase mpqPath w = Ret (inl file, logged w [EvOpen mpqPath]))
  /\ (forall err msg,
        os_Open mpqPath = inr err ->
        ioutil_ReadDir (GoPath.Dir mpqPath) = inr msg ->
        openIgnoreCase mpqPath w
        = Ret (inr msg,
               logged w [EvOpen mpqPath; EvReadDir (GoPath.Dir mpqPath)]))
  /\ (forall err files,
        os_Open mpqPath = inr err ->
        ioutil_ReadDir (GoPath.Dir mpqPath) = inl files ->
        forallb (fun x => negb (GoString.EqualFold x (GoPath.Base mpqPath)))
                files = true ->
        openIgnoreCase mpqPath w
        = Ret (os_Open (GoPath.Join (GoPath.Dir mpqPath)
                          (GoPath.Base mpqPath)),
               logged w [EvOpen mpqPath; EvReadDir (GoPath.Dir mpqPath);
                         EvOpen (GoPath.Join (GoPath.Dir mpqPath)
                                   (GoPath.Base mpqPath))])).
Proof.
  split; [|split].
  - intros file Hopen. unfold openIgnoreCase, open, logged. unfold_io.
    cbn. rewrite Hopen. reflexivity.
  - intros err msg Hopen Hdir.
    unfold openIgnoreCase, open, readDir, logged. unfold_io.
    cbn. rewrite Hopen. cbn. rewrite Hdir. cbn.
    rewrite <- !app_assoc. reflexivity.
  - intros err files Hopen Hdir Hnone.
    rewrite (openIgnoreCase_listing _ _ _ _ Hopen Hdir).
    rewrite (matchName_none _ _ Hnone). reflexivity.
Qed.

(* ===================================================================== *)
(** * Further properties of the file locator                              *)
(* ===================================================================== *)

(** X16. [getFileBlockData] returns the block entry at the index stored
    in the first entry of the hash table, in stored order, whose two hashes
    are those of the name, when this index lies within the block table. *)
Theorem getFileBlockData_first_match
    {K : Keystream} {U : Unicode} {P : Platform}
    (v : MPQ) (name : string) (hashA hashB : Z)
    (pre post : list HashTableEntry) (e : HashTableEntry)
    (blk : BlockTableEntry) :
  hashString name 1 = Ret hashA ->
  hashString name 2 = Ret hashB ->
  HashTableEntries v = (pre ++ e :: post)%list ->
  forallb (fun x => negb (matches hashA hashB x)) pre = true ->
  matches hashA hashB e = true ->
  0 <= BlockIndex e ->
  BlockTableEntries v !! Z.to_nat (BlockIndex e) = Some blk ->
  Z.of_nat (length (BlockTableEntries v)) < 2 ^ 32 ->
  getFileHashEntry v name = Ret (e, None)
  /\ getFileBlockData v name = Ret (blk, None).
Proof.
  intros HA HB Hentries Hpre He Hlo Hblk Hlen.
  assert (getFileHashEntry v name = Ret (e, None)) as Hentry.
  { unfold getFileHashEntry. rewrite HA, HB, Hentries. cbn.
    rewrite (findHashEntry_first _ _ _ _ _ Hpre He). reflexivity. }
  split; [exact Hentry|].
  apply (getFileBlockData_in_bounds _ _ _ _ Hentry Hlo); [|exact Hblk].
  apply lookup_lt_Some in Hblk.
  unfold wrap, modulus. rewrite Z.mod_small by lia. lia.
Qed.

Lemma getFileBlockData_first_match_witness :
  getFileBlockData (K := Sample.keystream) (U := Sample.unicode)
    (archiveOf (P := Sample.diskless) Sample.noFile
       [entryFor (K := Sample.keystream) (U := Sample.unicode) "b.txt" 0;
        entryFor (K := Sample.keystream) (U := Sample.unicode) "a.txt" 1;
        entryFor (K := Sample.keystream) (U := Sample.unicode) "a.txt" 0]
       [Sample.blockAt 0 5 0; Sample.blockAt 5 7 0] None) "a.txt"
  = Ret (Sample.blockAt 5 7 0, None).
Proof.
  apply (getFileBlockData_first_match (K := Sample.keystream)
           (U := Sample.unicode) (P := Sample.diskless) _ "a.txt"
           (hashValue (K := Sample.keystream) (U := Sample.unicode)
              "a.txt" 1)
           (hashValue (K := Sample.keystream) (U := Sample.unicode)
              "a.txt" 2)
           [entryFor (K := Sample.keystream) (U := Sample.unicode)
              "b.txt" 0]
           [entryFor (K := Sample.keystream) (U := Sample.unicode)
              "a.txt" 0]
           (entryFor (K := Sample.keystream) (U := Sample.unicode)
              "a.txt" 1));
    vm_compute; first [reflexivity | discriminate].
Defined.

(** X17. A name whose two hashes no entry of the hash table carries is
    not found: [getFileHashEntry] and [getFileBlockData] return the zero
    entry with the error [file not found], and [FileExists] returns
    false. *)
Theorem lookup_of_absent_name
    {K : Keystream} {U : Unicode} {P : Platform}
    (v : MPQ) (name : string) (hashA hashB : Z) :
  hashString name 1 = Ret hashA ->
  hashString name 2 = Ret hashB ->
  forallb (fun x => negb (matches hashA hashB x)) (HashTableEntries v)
  = true ->
  getFileHashEntry v name
  = Ret (HashTableEntry_zero, errors_New "file not found")
  /\ getFileBlockData v name
     = Ret (BlockTableEntry_zero, errors_New "file not found")
  /\ FileExists v name = Ret false.
Proof.
  intros HA HB Hnone.
  assert (getFileHashEntry v name
          = Ret (HashTableEntry_zero, errors_New "file not found"))
    as Hentry.
  { unfold getFileHashEntry. rewrite HA, HB. cbn.
    rewrite (findHashEntry_none _ _ _ Hnone). reflexivity. }
  split; [exact Hentry|]. split.
  - apply (getFileBlockData_not_found _ _ _ _ Hentry).
  - unfold FileExists. rewrite Hentry. reflexivity.
Qed.

Lemma lookup_of_absent_name_witness :
  FileExists (K := Sample.keystream) (U := Sample.unicode)
    (Sample.helloArchive "hello.txt") "other.txt"
  = Ret false.
Proof.
  apply (lookup_of_absent_name (K := Sample.keystream)
           (U := Sample.unicode) (P := Sample.hello)
           (Sample.helloArchive "hello.txt") "other.txt"
           (hashValue (K := Sample.keystream) (U := Sample.unicode)
              "other.txt" 1)
           (hashValue (K := Sample.keystream) (U := Sample.unicode)
              "other.txt" 2));
    vm_compute; reflexivity.
Defined.

(* ===================================================================== *)
(** * Further properties of ReadFile                                      *)
(* ===================================================================== *)

Section ReadFileResults.
Context {K : Keystream} {U : Unicode} {P : Platform} {R : Resource}
        {X : Extractor}.

(** The states that [ReadFile] can leave: the one it found, with a
    longer trace, or that one with the buffer stored in the cache of the
    archive under the normalized name, which was not cached before. *)
Lemma ReadFile_states (v : MPQ) name w res w' :
  ReadFile v name w = Ret (res, w') ->
  (exists tl, w' = logged w tl)
  \/ (exists tl ref buf,
        res = (buf, None)
        /\ fileCache v = Some ref
        /\ cacheOf w v !! normalize name = None
        /\ w' = {| mpqCache := mpqCache w;
                   archives := archives w;
                   fileCaches :=
                     <[ref := <[normalize name := buf]>
                                (default ∅ (fileCaches w !! ref))]>
                       (fileCaches w);
                   trace := trace w ++ tl |}).
Proof.
  unfold ReadFile. fold (normalize name). unfold_io.
  destruct (cacheOf w v !! normalize name) as [cached|] eqn:Hc.
  { intros [= <- <-]. left. exists []. unfold logged.
    rewrite app_nil_r. destruct w; reflexivity. }
  destruct (getFileBlockData v (normalize name)) as [[blk err]|];
    [|discriminate].
  destruct err.
  { intros [= <- <-]. left. eexists. reflexivity. }
  destruct (calculateEncryptionSeed _) as [blk'|]; [|discriminate].
  destruct (CreateStream v blk' (normalize name)) as [[s err]|];
    [|discriminate].
  destruct err.
  { intros [= <- <-]. left. eexists. unfold logged. cbn.
    rewrite <- app_assoc. reflexivity. }
  destruct (Stream_Read s _ 0 _) as [buffer|]; [|discriminate].
  unfold cacheStore. unfold_io.
  destruct (fileCache v) as [ref|] eqn:Href; [|discriminate].
  intros [= <- <-]. right. exists [EvLocate (normalize name);
                                    EvExtract (normalize name)], ref, buffer.
  cbn. rewrite <- app_assoc. repeat split.
Qed.

End ReadFileResults.

(** X18. A [ReadFile] that returns an error returns no bytes and caches
    nothing: it leaves the registry, the archives and the content caches as
    they were. *)
Theorem ReadFile_error_caches_nothing
    {K : Keystream} {U : Unicode} {P : Platform} {R : Resource}
    {X : Extractor}
    (v : MPQ) (name : string) (w w' : World) (buf : list ascii)
    (msg : string) :
  ReadFile v name w = Ret ((buf, Some msg), w') ->
  buf = []
  /\ mpqCache w' = mpqCache w
  /\ archives w' = archives w
  /\ fileCaches w' = fileCaches w.
Proof.
  intros Hread.
  assert (buf = []) as ->.
  { revert Hread. unfold ReadFile. fold (normalize name). unfold_io.
    destruct (cacheOf w v !! normalize name); [discriminate|].
    destruct (getFileBlockData v (normalize name)) as [[blk err]|];
      [|discriminate].
    destruct err; [intros [= <- _ _]; reflexivity|].
    destruct (calculateEncryptionSeed _) as [blk'|]; [|discriminate].
    destruct (CreateStream v blk' (normalize name)) as [[s err]|];
      [|discriminate].
    destruct err; [intros [= <- _ _]; reflexivity|].
    destruct (Stream_Read s _ 0 _) as [buffer|]; [|discriminate].
    unfold cacheStore. unfold_io.
    destruct (fileCache v); discriminate. }
  split; [reflexivity|].
  destruct (ReadFile_states _ _ _ _ _ Hread)
    as [[tl ->] | (tl & ref & b & Hres & _)]; [|discriminate].
  repeat split.
Qed.

Lemma ReadFile_error_caches_nothing_witness :
  ReadFile (K := Sample.keystream) (U := Sample.unicode)
    (R := Sample.resource) (X := Sample.helloStored)
    (Sample.helloArchive "hello.txt") "other.txt"
    (Sample.helloRead "hello.txt")
  = Ret (([], errors_New "file not found"),
         logged (Sample.helloRead "hello.txt") [EvLocate "other.txt"])
  /\ fileCaches (logged (P := Sample.hello) (Sample.helloRead "hello.txt")
                   [EvLocate "other.txt"])
     = fileCaches (P := Sample.hello) (Sample.helloRead "hello.txt").
Proof.
  assert (ReadFile (K := Sample.keystream) (U := Sample.unicode)
            (R := Sample.resource) (X := Sample.helloStored)
            (Sample.helloArchive "hello.txt") "other.txt"
            (Sample.helloRead "hello.txt")
          = Ret (([], errors_New "file not found"),
                 logged (Sample.helloRead "hello.txt")
                   [EvLocate "other.txt"])) as Hread
    by (vm_compute; reflexivity).
  split; [exact Hread|].
  apply (ReadFile_error_caches_nothing (K := Sample.keystream)
           (U := Sample.unicode) (R := Sample.resource)
           (X := Sample.helloStored) _ _ _ _ _ _ Hread).
Defined.

(** X19. A name that is not cached and that no entry of the hash table
    carries: [ReadFile] returns no bytes and the error [file not found],
    after the lookup alone; the sector extractor is not called. *)
Theorem ReadFile_not_found
    {K : Keystream} {U : Unicode} {P : Platform} {R : Resource}
    {X : Extractor}
    (v : MPQ) (name : string) (w : World) (hashA hashB : Z) :
  cacheOf w v !! normalize name = None ->
  hashString (normalize name) 1 = Ret hashA ->
  hashString (normalize name) 2 = Ret hashB ->
  forallb (fun x => negb (matches hashA hashB x)) (HashTableEntries v)
  = true ->
  ReadFile v name w
  = Ret (([], errors_New "file not found"),
         logged w [EvLocate (normalize name)]).
Proof.
  intros Hmiss HA HB Hnone.
  assert (getFileBlockData v (normalize name)
          = Ret (BlockTableEntry_zero, errors_New "file not found"))
    as Hblk.
  { apply (getFileBlockData_not_found _ _ HashTableEntry_zero).
    unfold getFileHashEntry. rewrite HA, HB. cbn.
    rewrite (findHashEntry_none _ _ _ Hnone). reflexivity. }
  unfold ReadFile. fold (normalize name). unfold_io.
  rewrite Hmiss, Hblk. reflexivity.
Qed.

Lemma ReadFile_not_found_witness :
  ReadFile (K := Sample.keystream) (U := Sample.unicode)
    (R := Sample.resource) (X := Sample.helloStored)
    (Sample.helloArchive "hello.txt") "Other.txt" Sample.emptyWorld
  = Ret (([], errors_New "file not found"),
         logged Sample.emptyWorld [EvLocate "other.txt"]).
Proof.
  apply (ReadFile_not_found (K := Sample.keystream) (U := Sample.unicode)
           (R := Sample.resource) (X := Sample.helloStored)
           (Sample.helloArchive "hello.txt") "Other.txt" Sample.emptyWorld
           (hashValue (K := Sample.keystream) (U := Sample.unicode)
              "other.txt" 1)
           (hashValue (K := Sample.keystream) (U := Sample.unicode)
              "other.txt" 2));
    vm_compute; reflexivity.
Defined.

(** X20. [ReadFile] never evicts: whatever it returns, every name that
    was cached before the call, in the cache of any archive, is cached
    with the same bytes after it, and the registry and the archives are as
    they were. *)
Theorem ReadFile_cache_grows
    {K : Keystream} {U : Unicode} {P : Platform} {R : Resource}
    {X : Extractor}
    (v : MPQ) (name : string) (w w' : World)
    (res : list ascii * error) :
  ReadFile v name w = Ret (res, w') ->
  mpqCache w' = mpqCache w
  /\ archives w' = archives w
  /\ forall (u : MPQ) (other : string) (buf : list ascii),
       cacheOf w u !! other = Some buf ->
       cacheOf w' u !! other = Some buf.
Proof.
  intros Hread.
  destruct (ReadFile_states _ _ _ _ _ Hread)
    as [[tl ->] | (tl & ref & b & _ & Href & Hmiss & ->)].
  { repeat split. intros u other buf Hu. exact Hu. }
  cbn. repeat split. intros u other buf.
  unfold cacheOf in *. cbn. rewrite Href in Hmiss.
  destruct (fileCache u) as [ref'|]; [|intros Hu; exact Hu].
  destruct (decide (ref' = ref)) as [->|Hne].
  - rewrite lookup_insert_eq. cbn. intros Hu.
    destruct (decide (other = normalize name)) as [->|Hother].
    + rewrite Hmiss in Hu. discriminate.
    + rewrite lookup_insert_ne by congruence. exact Hu.
  - rewrite lookup_insert_ne by congruence. intros Hu; exact Hu.
Qed.

Lemma ReadFile_cache_grows_witness :
  cacheOf (P := Sample.hello)
    (logged (Sample.helloRead "hello.txt") [EvLocate "other.txt"])
    (Sample.helloArchive "hello.txt") !! "hello.txt"
  = Some Sample.helloBytes.
Proof.
  apply (ReadFile_cache_grows (K := Sample.keystream) (U := Sample.unicode)
           (R := Sample.resource) (X := Sample.helloStored)
           (Sample.helloArchive "hello.txt") "other.txt"
           (Sample.helloRead "hello.txt")
           (logged (Sample.helloRead "hello.txt") [EvLocate "other.txt"])
           ([], errors_New "file not found")
           ltac:(vm_compute; reflexivity)).
  vm_compute. reflexivity.
Defined.

(* ===================================================================== *)
(** * ReadTextFile, GetFileList and Close                                 *)
(* ===================================================================== *)

(** X21. [ReadTextFile] is [ReadFile] with the bytes turned into a
    string: a text that it returns is that of the bytes that [ReadFile]
    returns in the same state, the two leave the same state, and in that
    state the bytes are served from the cache. *)
Theorem ReadTextFile_reads_through_cache
    {K : Keystream} {U : Unicode} {P : Platform} {R : Resource}
    {X : Extractor}
    (v : MPQ) (name : string) (w w' : World) (text : string) :
  ReadTextFile v name w = Ret ((text, None), w') ->
  exists buf,
    text = string_of_list_ascii buf
    /\ ReadFile v name w = Ret ((buf, None), w')
    /\ ReadFile v name w' = Ret ((buf, None), w')
    /\ ReadTextFile v name w' = Ret ((text, None), w').
Proof.
  unfold ReadTextFile. unfold mbind at 1. unfold IO_bind, io_bind at 1.
  destruct (ReadFile v name w) as [[[buf err] w1]|] eqn:Hread;
    [|discriminate].
  destruct err; [discriminate|].
  intros [= <- <-]. exists buf.
  pose proof (ReadFile_hit _ _ _ _ (ReadFile_caches _ _ _ _ _ Hread))
    as Hsecond.
  split; [reflexivity|]. split; [reflexivity|]. split; [exact Hsecond|].
  unfold mbind, IO_bind, io_bind. rewrite Hsecond. reflexivity.
Qed.

Lemma ReadTextFile_reads_through_cache_witness :
  exists buf,
    "hello" = string_of_list_ascii buf
    /\ ReadFile (K := Sample.keystream) (U := Sample.unicode)
         (R := Sample.resource) (X := Sample.helloStored)
         (Sample.helloArchive "hello.txt") "HELLO.TXT" Sample.emptyWorld
       = Ret ((buf, None), Sample.helloRead "hello.txt")
    /\ ReadFile (K := Sample.keystream) (U := Sample.unicode)
         (R := Sample.resource) (X := Sample.helloStored)
         (Sample.helloArchive "hello.txt") "HELLO.TXT"
         (Sample.helloRead "hello.txt")
       = Ret ((buf, None), Sample.helloRead "hello.txt")
    /\ ReadTextFile (K := Sample.keystream) (U := Sample.unicode)
         (R := Sample.resource) (X := Sample.helloStored)
         (Sample.helloArchive "hello.txt") "HELLO.TXT"
         (Sample.helloRead "hello.txt")
       = Ret (("hello", None), Sample.helloRead "hello.txt").
Proof.
  apply (ReadTextFile_reads_through_cache (K := Sample.keystream)
           (U := Sample.unicode) (R := Sample.resource)
           (X := Sample.helloStored)
           (Sample.helloArchive "hello.txt") "HELLO.TXT" Sample.emptyWorld
           (Sample.helloRead "hello.txt") "hello").
  vm_compute. reflexivity.
Defined.

(** X22. An archive without a listfile: when the listfile is not cached
    and no entry of the hash table carries the hashes of [(listfile)],
    [GetFileList] returns the nil slice and the error [file not found],
    after the lookup alone. *)
Theorem GetFileList_without_listfile
    {K : Keystream} {U : Unicode} {P : Platform} {R : Resource}
    {X : Extractor}
    (v : MPQ) (w : World) :
  cacheOf w v !! "(listfile)" = None ->
  forallb (fun x => negb (matches (hashValue "(listfile)" 1)
                                  (hashValue "(listfile)" 2) x))
          (HashTableEntries v) = true ->
  GetFileList v w
  = Ret (([], errors_New "file not found"),
         logged w [EvLocate "(listfile)"]).
Proof.
  intros Hmiss Hnone.
  assert (forall t, 0 <= t <= 4 ->
            hashString "(listfile)" t = Ret (hashValue "(listfile)" t))
    as Hhash.
  { intros t Ht. unfold hashValue.
    destruct (hashString_ascii "(listfile)" t eq_refl Ht) as [h ->].
    reflexivity. }
  assert (getFileBlockData v "(listfile)"
          = Ret (BlockTableEntry_zero, errors_New "file not found"))
    as Hblk.
  { apply (getFileBlockData_not_found _ _ HashTableEntry_zero).
    unfold getFileHashEntry.
    rewrite (Hhash 1), (Hhash 2) by lia. cbn.
    rewrite (findHashEntry_none _ _ _ Hnone). reflexivity. }
  unfold GetFileList, ReadFile.
  change (GoString.ReplaceAll
            (GoString.ToLower
               (GoString.ReplaceAll "(listfile)" "{LANG}" LanguageCode))
            "/" "\") with "(listfile)".
  unfold_io. rewrite Hmiss, Hblk. reflexivity.
Qed.

Lemma GetFileList_without_listfile_witness :
  GetFileList (K := Sample.keystream) (U := Sample.unicode)
    (R := Sample.resource) (X := Sample.helloStored)
    (Sample.helloArchive "hello.txt") Sample.emptyWorld
  = Ret (([], errors_New "file not found"),
         logged Sample.emptyWorld [EvLocate "(listfile)"]).
Proof.
  apply (GetFileList_without_listfile (K := Sample.keystream)
           (U := Sample.unicode) (R := Sample.resource)
           (X := Sample.helloStored)
           (Sample.helloArchive "hello.txt") Sample.emptyWorld);
    vm_compute; reflexivity.
Defined.

(** X23. [Close] closes the file and nothing else: when the file closes
    it leaves the registry, the archives and the content caches as they
    were, so that a name cached before is still read from the cache and a
    registered path is still answered from the registry, by the archive
    with the closed file; when the file does not close it panics with the
    error. *)
Theorem Close_keeps_registry_and_caches
    {K : Keystream} {U : Unicode} {P : Platform} {R : Resource}
    {X : Extractor}
    (v : MPQ) (w : World) :
  (forall file,
     File_Close (MPQ_File v) = (file, None) ->
     exists v',
       Close v w = Ret (v', logged w [EvClose])
       /\ MPQ_File v' = file
       /\ HashTableEntries v' = HashTableEntries v
       /\ BlockTableEntries v' = BlockTableEntries v
       /\ (forall name buf,
             cacheOf w v !! normalize name = Some buf ->
             ReadFile v' name (logged w [EvClose])
             = Ret ((buf, None), logged w [EvClose]))
       /\ (forall fileName ptr,
             mpqCache w !! fileName = Some ptr ->
             Load fileName (logged w [EvClose])
             = Ret ((Some ptr, None), logged w [EvClose])))
  /\ (forall file msg,
        File_Close (MPQ_File v) = (file, Some msg) ->
        Close v w = Panic msg).
Proof.
  split.
  - intros file Hclose. eexists. split.
    { unfold Close. unfold_io. rewrite Hclose. reflexivity. }
    cbn. repeat split.
    + intros name buf Hcached. apply ReadFile_hit. exact Hcached.
    + intros fileName ptr Hreg. apply Load_hit. exact Hreg.
  - intros file msg Hclose. unfold Close. unfold_io. rewrite Hclose.
    reflexivity.
Qed.

(* ===================================================================== *)
(** * Normalized names                                                    *)
(* ===================================================================== *)

Lemma ReplaceAll_slash (s : string) :
  list_ascii_of_string (GoString.ReplaceAll s "/" "\")
  = map slash_to_backslash (list_ascii_of_string s).
Proof.
  unfold GoString.ReplaceAll.
  induction s as [|c s IH]; [reflexivity|].
  cbn [GoString.ReplaceAll_loop String.prefix String.length Nat.pred
       list_ascii_of_string map].
  unfold slash_to_backslash at 1.
  destruct (Ascii.eqb_spec c "/") as [->|Hne].
  - destruct (ascii_dec "/" "/") as [_|Hbad]; [|congruence].
    replace (String.prefix "" s) with true by (destruct s; reflexivity).
    change (list_ascii_of_string
              (String "\" (GoString.ReplaceAll_loop "/" "\" 0 s))
            = "\"%char :: map slash_to_backslash (list_ascii_of_string s)).
    cbn [list_ascii_of_string]. f_equal. exact IH.
  - destruct (ascii_dec "/" c) as [Heq|_]; [congruence|].
    cbn. f_equal. exact IH.
Qed.

Lemma no_slash_after_replace (s : string) :
  forallb (fun c => negb (GoPath.is_slash c))
          (list_ascii_of_string (GoString.ReplaceAll s "/" "\")) = true.
Proof.
  rewrite ReplaceAll_slash. apply forallb_forall. intros c Hc.
  apply in_map_iff in Hc as (x & <- & _).
  unfold slash_to_backslash, GoPath.is_slash, GoPath.slash.
  destruct (Ascii.eqb_spec x "/"); [reflexivity|].
  apply negb_true_iff, Ascii.eqb_neq. assumption.
Qed.

Ltac each_char c :=
  destruct c as [[] [] [] [] [] [] [] []]; vm_compute;
  try reflexivity; try discriminate; try (intros; discriminate).

Lemma string_of_chars_inj (s t : string) :
  list_ascii_of_string s = list_ascii_of_string t -> s = t.
Proof.
  intros H. rewrite <- (string_of_list_ascii_of_string s),
    <- (string_of_list_ascii_of_string t), H. reflexivity.
Qed.

Lemma isASCII_chars (s : string) :
  GoString.isASCII s = forallb ascii_char (list_ascii_of_string s).
Proof.
  unfold GoString.isASCII, GoString.bytes.
  induction (list_ascii_of_string s) as [|c l IH]; [reflexivity|].
  cbn [map forallb]. rewrite IH. reflexivity.
Qed.

Section CharFacts.
Context {U : Unicode}.

Lemma ToLower_chars (s : string) :
  GoString.isASCII s = true ->
  list_ascii_of_string (GoString.ToLower s)
  = map lower_char (list_ascii_of_string s).
Proof.
  intros Hascii. unfold GoString.ToLower. rewrite Hascii.
  unfold GoString.of_bytes, GoString.bytes.
  rewrite list_ascii_of_string_of_list_ascii, !map_map. reflexivity.
Qed.

Lemma ToUpper_chars (s : string) :
  GoString.isASCII s = true ->
  list_ascii_of_string (GoString.ToUpper s)
  = map upper_char (list_ascii_of_string s).
Proof.
  intros Hascii. unfold GoString.ToUpper. rewrite Hascii.
  unfold GoString.of_bytes, GoString.bytes.
  rewrite list_ascii_of_string_of_list_ascii, !map_map. reflexivity.
Qed.

Lemma lower_char_ascii c :
  ascii_char c = true -> ascii_char (lower_char c) = true.
Proof. each_char c. Qed.

Lemma upper_lower_char c : upper_char (lower_char c) = upper_char c.
Proof. each_char c. Qed.

Lemma lower_char_no_slash c :
  GoPath.is_slash c = false -> GoPath.is_slash (lower_char c) = false.
Proof. each_char c. Qed.

Lemma isASCII_ToLower (s : string) :
  GoString.isASCII s = true -> GoString.isASCII (GoString.ToLower s) = true.
Proof.
  intros Hascii. rewrite isASCII_chars, (ToLower_chars s Hascii).
  rewrite isASCII_chars in Hascii.
  apply forallb_forall. intros c Hc. apply in_map_iff in Hc as (x & <- & Hx).
  apply lower_char_ascii. exact (proj1 (forallb_forall _ _) Hascii x Hx).
Qed.

(** An ASCII string and its lower case have the same upper case. *)
Lemma ToUpper_ToLower (s : string) :
  GoString.isASCII s = true ->
  GoString.ToUpper (GoString.ToLower s) = GoString.ToUpper s.
Proof.
  intros Hascii. apply string_of_chars_inj.
  rewrite (ToUpper_chars _ (isASCII_ToLower s Hascii)),
    (ToUpper_chars s Hascii), (ToLower_chars s Hascii), map_map.
  apply map_ext. intros c. apply upper_lower_char.
Qed.

End CharFacts.

Section NormalizedSeed.
Context {K : Keystream} {U : Unicode} {R : Resource}.

Lemma normalize_no_slash (name : string) :
  forallb (fun c => negb (GoPath.is_slash c))
          (list_ascii_of_string (normalize name)) = true.
Proof. unfold normalize. apply no_slash_after_replace. Qed.

Lemma Base_ToLower_normalize (name : string) :
  GoString.isASCII (normalize name) = true ->
  normalize name <> "" ->
  GoPath.Base (GoString.ToLower (normalize name))
  = GoString.ToLower (normalize name).
Proof.
  intros Hascii Hne. apply Base_no_slash.
  - intros Hempty. apply Hne. apply string_of_chars_inj.
    apply (f_equal list_ascii_of_string) in Hempty.
    rewrite (ToLower_chars _ Hascii) in Hempty.
    destruct (list_ascii_of_string (normalize name)); [reflexivity|].
    discriminate.
  - rewrite (ToLower_chars _ Hascii).
    apply forallb_forall. intros c Hc.
    apply in_map_iff in Hc as (x & <- & Hx).
    apply negb_true_iff, lower_char_no_slash, negb_true_iff.
    exact (proj1 (forallb_forall _ _) (normalize_no_slash name) x Hx).
Qed.

End NormalizedSeed.

(** X24. The seed that [ReadFile] has computed for a file whose
    normalized name is ASCII and not empty is the hash of type 3 of the
    whole normalized name, directories included, turned by the position
    and the size of the file when the fix-key flag is set: the normalized
    name holds no slash, so that [path.Base] leaves it as it is. *)
Theorem readSeed_of_normalized_name
    {K : Keystream} {U : Unicode} {R : Resource}
    (e : BlockTableEntry) (name : string) :
  GoString.isASCII (normalize name) = true ->
  normalize name <> "" ->
  forallb (fun c => negb (GoPath.is_slash c))
          (list_ascii_of_string (normalize name)) = true
  /\ readSeed e name
     = (h ← hashString (normalize name) 3;
        mret (if HasFlag e FileFixKey
              then Z.lxor (add32 h (FilePosition e))
                          (UncompressedFileSize e)
              else h)).
Proof.
  intros Hascii Hne. split; [apply normalize_no_slash|].
  unfold readSeed. rewrite calculateEncryptionSeed_spec.
  cbn [FileName withFileName].
  rewrite (Base_ToLower_normalize name Hascii Hne).
  unfold hashString at 1. rewrite (ToUpper_ToLower _ Hascii).
  fold (hashString (normalize name) 3).
  destruct (hashString (normalize name) 3) as [h|]; [|reflexivity].
  cbn. unfold HasFlag. cbn.
  destruct (Z.land (Flags e) FileFixKey =? 0); reflexivity.
Qed.

Lemma readSeed_of_normalized_name_witness :
  readSeed (K := Sample.keystream) (U := Sample.unicode)
    (R := Sample.resource) (Sample.blockAt 64 5 FileFixKey)
    "Data/Global/x.txt"
  = (h ← hashString (K := Sample.keystream) (U := Sample.unicode)
           "data\global\x.txt" 3;
     mret (Z.lxor (add32 h 64) 5)).
Proof.
  apply (readSeed_of_normalized_name (K := Sample.keystream)
           (U := Sample.unicode) (R := Sample.resource)
           (Sample.blockAt 64 5 FileFixKey) "Data/Global/x.txt");
    vm_compute; [reflexivity | discriminate].
Defined.

Lemma ReplaceAll_LANG_no_L (s new : string) :
  forallb (fun c => negb (Ascii.eqb c "L")) (list_ascii_of_string s) = true ->
  GoString.ReplaceAll s "{LANG}" new = s.
Proof.
  unfold GoString.ReplaceAll.
  induction s as [|c s IH]; [reflexivity|].
  cbn [list_ascii_of_string forallb]. intros Hall.
  apply andb_true_iff in Hall as [_ Hs].
  cbn [GoString.ReplaceAll_loop].
  assert (String.prefix "{LANG}" (String c s) = false) as ->.
  { cbn [String.prefix]. destruct (ascii_dec "{" c); [|reflexivity].
    destruct s as [|c2 s]; [reflexivity|].
    cbn [list_ascii_of_string forallb] in Hs.
    apply andb_true_iff in Hs as [Hc2 _].
    apply negb_true_iff, Ascii.eqb_neq in Hc2.
    cbn [String.prefix].
    destruct (ascii_dec "L" c2); [congruence | reflexivity]. }
  f_equal. apply IH, Hs.
Qed.

Lemma normal_char_no_L c :
  negb (Ascii.eqb (slash_to_backslash (lower_char c)) "L") = true.
Proof. each_char c. Qed.

Lemma normal_char_ascii c :
  ascii_char c = true ->
  ascii_char (slash_to_backslash (lower_char c)) = true.
Proof. each_char c. Qed.

Lemma normal_char_lower c :
  lower_char (slash_to_backslash (lower_char c))
  = slash_to_backslash (lower_char c).
Proof. each_char c. Qed.

Lemma normal_char_slash c :
  slash_to_backslash (slash_to_backslash (lower_char c))
  = slash_to_backslash (lower_char c).
Proof. each_char c. Qed.

(** X25. Normalization is idempotent on ASCII names: when the name,
    with the language code in place, is ASCII, its normalized name is its
    own normalized name, whatever the language code. A file can so be read
    again, from the cache, by the name under which it is cached. *)
Theorem normalize_idempotent {U : Unicode} {R : Resource} (name : string) :
  GoString.isASCII (GoString.ReplaceAll name "{LANG}" LanguageCode) = true ->
  normalize (normalize name) = normalize name.
Proof.
  intros Hascii.
  assert (list_ascii_of_string (normalize name)
          = map (fun c => slash_to_backslash (lower_char c))
                (list_ascii_of_string
                   (GoString.ReplaceAll name "{LANG}" LanguageCode)))
    as Hchars.
  { unfold normalize. rewrite ReplaceAll_slash, (ToLower_chars _ Hascii).
    apply map_map. }
  assert (GoString.isASCII (normalize name) = true) as Hnorm.
  { rewrite isASCII_chars, Hchars. rewrite isASCII_chars in Hascii.
    apply forallb_forall. intros c Hc.
    apply in_map_iff in Hc as (x & <- & Hx).
    apply normal_char_ascii.
    exact (proj1 (forallb_forall _ _) Hascii x Hx). }
  unfold normalize at 1.
  rewrite ReplaceAll_LANG_no_L.
  2:{ rewrite Hchars. apply forallb_forall. intros c Hc.
      apply in_map_iff in Hc as (x & <- & _). apply normal_char_no_L. }
  apply string_of_chars_inj.
  rewrite ReplaceAll_slash, (ToLower_chars _ Hnorm), Hchars, !map_map.
  apply map_ext. intros c.
  rewrite normal_char_lower. apply normal_char_slash.
Qed.

Lemma normalize_idempotent_witness :
  normalize (U := Sample.unicode) (R := Sample.resource)
    (normalize (U := Sample.unicode) (R := Sample.resource)
       "Data/Local/{LANG}/Strings.TBL")
  = normalize (U := Sample.unicode) (R := Sample.resource)
      "Data/Local/{LANG}/Strings.TBL".
Proof.
  apply (normalize_idempotent (U := Sample.unicode) (R := Sample.resource)
           "Data/Local/{LANG}/Strings.TBL").
  vm_compute. reflexivity.
Defined.

(* ===================================================================== *)
(** * Decoding a frame of a sprite                                        *)
(* ===================================================================== *)

Import d2dc6.

Lemma store_middle {A} (pre post : list A) (a b : A) (i : Z) :
  i = Z.of_nat (length pre) ->
  store (pre ++ a :: post)%list i b = Ret (pre ++ b :: post)%list.
Proof.
  intros ->. unfold store.
  destruct (Z.ltb_spec (Z.of_nat (length pre)) 0); [lia|].
  destruct (Z.leb_spec (Z.of_nat (length (pre ++ a :: post)%list))
              (Z.of_nat (length pre))) as [Hle|_].
  { rewrite length_app in Hle. cbn in Hle. lia. }
  cbn. rewrite Nat2Z.id.
  rewrite insert_app_r_alt by lia. rewrite Nat.sub_diag. reflexivity.
Qed.

(** The index of a pixel, when the frame fits 32 bits. *)
Lemma pixel_index (width x y t : Z) :
  0 <= x -> 0 <= y -> 0 <= width -> 0 <= t ->
  x + y * width + t < 2 ^ 32 ->
  add32 (add32 x (mul32 y width)) (wrap t) = x + y * width + t.
Proof.
  intros Hx Hy Hw Ht Hmax.
  assert (0 <= y * width) by (apply Z.mul_nonneg_nonneg; lia).
  unfold add32, mul32, wrap, modulus.
  rewrite (Z.mod_small (y * width)) by lia.
  rewrite (Z.mod_small (x + y * width)) by lia.
  rewrite (Z.mod_small t) by lia.
  apply Z.mod_small. lia.
Qed.

(** What a byte of [FrameData] announces. *)
Lemma command_byte (c : ascii) :
  Z.land (byteZ c) 0x80 = (if byteZ c <? 0x80 then 0 else 0x80)
  /\ Z.land (byteZ c) 0x7F = byteZ c mod 0x80.
Proof. each_char c; split; reflexivity. Qed.

Lemma skip_byte (n : Z) :
  1 <= n <= 127 -> byteZ (Zbyte (Z.lor 0x80 n)) = 0x80 + n.
Proof.
  intros Hn.
  rewrite (GoStringFacts.lor_plus 0x80 n 7 128 eq_refl)
    by GoStringFacts.zlia.
  apply GoStringFacts.byteZ_Zbyte. unfold is_byte. lia.
Qed.

(** A run of transparent pixels over pixels that no run has set leaves
    them as they are. *)
Lemma transparentRun_unset (width x y : Z) (n : nat) :
  forall ti pre post,
  0 <= x -> 0 <= y -> 0 <= width -> 0 <= ti ->
  Z.of_nat (length pre) = x + y * width + ti ->
  x + y * width + ti + Z.of_nat n <= 2 ^ 32 ->
  transparentRun width x y n ti (pre ++ replicate n (-1) ++ post)%list
  = Ret (pre ++ replicate n (-1) ++ post)%list.
Proof.
  induction n as [|n IH]; intros ti pre post Hx Hy Hw Hti Hpre Hmax;
    [reflexivity|].
  cbn [transparentRun replicate app].
  rewrite pixel_index by lia.
  rewrite store_middle by lia. cbn.
  change (pre ++ -1 :: replicate n (-1) ++ post)%list
    with (pre ++ [-1] ++ replicate n (-1) ++ post)%list.
  rewrite app_assoc. rewrite IH; [reflexivity | lia | lia | lia | lia | | lia].
  rewrite length_app. cbn. lia.
Qed.

(** A run of pixels is copied over pixels that no run has set. *)
Lemma decode_pixels (width : Z) (indices : list ascii) :
  forall bi pre post rest x y,
  0 <= x -> 0 <= y -> 0 <= width -> 0 <= bi ->
  indices <> [] ->
  Z.of_nat (length pre) = x + y * width + bi ->
  x + y * width + bi + Z.of_nat (length indices) <= 2 ^ 32 ->
  decode width (indices ++ rest)%list (length indices) bi x y
         (pre ++ replicate (length indices) (-1) ++ post)%list
  = decode width rest O 0 (add32 x (bi + Z.of_nat (length indices))) y
           (pre ++ map byteZ indices ++ post)%list.
Proof.
  induction indices as [|c indices IH];
    intros bi pre post rest x y Hx Hy Hw Hbi Hne Hpre Hmax; [congruence|].
  cbn [app length decode replicate map].
  rewrite pixel_index by (cbn [length] in Hmax; lia).
  rewrite store_middle by lia. cbn.
  destruct indices as [|c' indices'].
  - cbn. reflexivity.
  - change (pre ++ byteZ c :: replicate (length (c' :: indices')) (-1)
              ++ post)%list
      with (pre ++ [byteZ c] ++ replicate (length (c' :: indices')) (-1)
              ++ post)%list.
    rewrite app_assoc.
    change (c' :: (indices' ++ rest))%list
      with ((c' :: indices') ++ rest)%list.
    change (S (length indices')) with (length (c' :: indices')).
    rewrite IH; [| lia | lia | lia | lia | discriminate | | ].
    + cbn [length]. rewrite <- (app_assoc pre [byteZ c]). cbn [app].
      replace (bi + 1 + Z.of_nat (S (length indices')))
        with (bi + Z.of_nat (S (S (length indices')))) by lia.
      reflexivity.
    + rewrite length_app. cbn. lia.
    + cbn [length] in *. lia.
Qed.

(** The runs of a scan line, decoded into the row [y], of which the
    pixels [done] are set. *)
Lemma decode_runs (width : Z) (runs : list Run) :
  forall done lower upper rest y,
  0 <= y -> 0 <= width < 2 ^ 32 ->
  Forall run_fits runs ->
  Z.of_nat (length lower) = y * width ->
  Z.of_nat (length done + length (concat (map runPixels runs))) <= width ->
  y * width + width <= 2 ^ 32 ->
  decode width (concat (map runBytes runs) ++ rest)%list O 0
         (Z.of_nat (length done)) y
         (lower ++ done
          ++ replicate (Z.to_nat width - length done) (-1) ++ upper)%list
  = decode width rest O 0
      (Z.of_nat (length done + length (concat (map runPixels runs)))) y
      (lower ++ (done ++ concat (map runPixels runs))
       ++ replicate (Z.to_nat width - length done
                     - length (concat (map runPixels runs))) (-1)
       ++ upper)%list.
Proof.
  induction runs as [|r runs IH];
    intros done lower upper rest y Hy Hw Hfit Hlower Hroom Hmax.
  { cbn [map concat app length]. rewrite Nat.add_0_r, Nat.sub_0_r, app_nil_r.
    reflexivity. }
  inversion Hfit as [|? ? Hr Hruns]; subst.
  cbn [map concat] in *. rewrite length_app in Hroom.
  assert (0 <= y * width) as Hyw by (apply Z.mul_nonneg_nonneg; lia).
  destruct r as [n|indices]; cbn [runBytes runPixels run_fits] in *.
  - (* transparent pixels *)
    rewrite length_replicate in Hroom.
    cbn [app decode].
    rewrite (skip_byte n Hr).
    destruct (Z.eqb_spec (128 + n) 128) as [Heq|_]; [lia|].
    destruct (command_byte (Zbyte (Z.lor 128 n))) as [Hhigh Hlow].
    rewrite (skip_byte n Hr) in Hhigh, Hlow.
    rewrite Hhigh, Hlow.
    destruct (Z.ltb_spec (128 + n) 128) as [Hlt|_]; [lia|].
    cbn [Z.ltb Z.compare].
    replace ((128 + n) mod 128) with n by GoStringFacts.zlia.
    replace (Z.to_nat width - length done)%nat
      with (Z.to_nat n + (Z.to_nat width - length done - Z.to_nat n))%nat
      by lia.
    rewrite replicate_add.
    rewrite (app_assoc lower done), <- (app_assoc (replicate (Z.to_nat n) _)).
    rewrite transparentRun_unset;
      [| lia | lia | lia | lia | rewrite length_app; lia | lia].
    cbn. rewrite add32_small by lia.
    rewrite <- (app_assoc lower done), (app_assoc done).
    replace (Z.of_nat (length done) + n)
      with (Z.of_nat (length (done ++ replicate (Z.to_nat n) (-1))))
      by (rewrite length_app, length_replicate; lia).
    replace (Z.to_nat width - length done - Z.to_nat n)%nat
      with (Z.to_nat width
            - length (done ++ replicate (Z.to_nat n) (-1)%Z))%nat
      by (rewrite length_app, length_replicate; lia).
    rewrite IH; [| lia | lia | exact Hruns | exact Hlower | | lia].
    + rewrite !length_app, !length_replicate, <- !app_assoc.
      f_equal; [lia|]. do 6 f_equal. lia.
    + rewrite length_app, length_replicate. lia.
  - (* a run of pixels *)
    rewrite length_map in Hroom.
    cbn [app decode].
    rewrite GoStringFacts.byteZ_Zbyte by (unfold is_byte; lia).
    destruct (Z.eqb_spec (Z.of_nat (length indices)) 128) as [Heq|_]; [lia|].
    destruct (command_byte (Zbyte (Z.of_nat (length indices))))
      as [Hhigh _].
    rewrite GoStringFacts.byteZ_Zbyte in Hhigh by (unfold is_byte; lia).
    rewrite Hhigh.
    destruct (Z.ltb_spec (Z.of_nat (length indices)) 128) as [_|Hge]; [|lia].
    cbn [Z.ltb Z.compare].
    destruct (Z.eqb_spec (Z.of_nat (length indices)) 0) as [Heq|_]; [lia|].
    rewrite Nat2Z.id.
    destruct indices as [|c indices]; [cbn in Hr; lia|].
    replace (Z.to_nat width - length done)%nat
      with (length (c :: indices)
            + (Z.to_nat width - length done - length (c :: indices)))%nat
      by lia.
    rewrite replicate_add.
    rewrite (app_assoc lower done),
      <- (app_assoc (replicate (length (c :: indices)) _)).
    rewrite <- (app_assoc (c :: indices)).
    rewrite decode_pixels;
      [| lia | lia | lia | lia | discriminate | rewrite length_app; lia
       | lia].
    rewrite add32_small by lia.
    rewrite <- (app_assoc lower done), (app_assoc done).
    replace (Z.of_nat (length done) + (0 + Z.of_nat (length (c :: indices))))
      with (Z.of_nat (length (done ++ map byteZ (c :: indices))))
      by (rewrite length_app, length_map; lia).
    replace (Z.to_nat width - length done - length (c :: indices))%nat
      with (Z.to_nat width - length (done ++ map byteZ (c :: indices)))%nat
      by (rewrite length_app, length_map; lia).
    rewrite IH; [| lia | lia | exact Hruns | exact Hlower | | lia].
    + rewrite !length_app, !length_map, <- !app_assoc.
      f_equal; [lia|]. do 6 f_equal. lia.
    + rewrite length_app, length_map. lia.
Qed.

(** The scan lines of a frame, decoded from the row [length lines - 1]
    down to the row 0, under the rows [upper] decoded before. *)
Lemma decode_lines (width : Z) (lines : list (list Run)) :
  forall upper rest,
  0 <= width < 2 ^ 32 ->
  lines <> [] ->
  Forall (Forall run_fits) lines ->
  Forall (fun line =>
            Z.of_nat (length (concat (map runPixels line))) <= width) lines ->
  Z.of_nat (length lines) * width <= 2 ^ 32 ->
  decode width (concat (map lineBytes lines) ++ rest)%list O 0 0
         (Z.of_nat (length lines) - 1)
         (replicate (length lines * Z.to_nat width) (-1) ++ upper)%list
  = Ret (concat (map (linePixels (Z.to_nat width)) (rev lines))
         ++ upper)%list.
Proof.
  induction lines as [|line lines IH];
    intros upper rest Hw Hne Hfit Hroom Hmax; [congruence|].
  inversion Hfit as [|? ? Hline Hlines]; subst.
  inversion Hroom as [|? ? Hr Hrs]; subst.
  cbn [length map concat] in *.
  replace (Z.of_nat (S (length lines)) - 1) with (Z.of_nat (length lines))
    by lia.
  replace (S (length lines) * Z.to_nat width)%nat
    with (length lines * Z.to_nat width + Z.to_nat width)%nat by lia.
  rewrite replicate_add, <- app_assoc.
  unfold lineBytes at 1. rewrite <- !app_assoc.
  pose proof (decode_runs width line []
                (replicate (length lines * Z.to_nat width) (-1)) upper
                ([Zbyte 128] ++ concat (map lineBytes lines) ++ rest)%list
                (Z.of_nat (length lines))
                ltac:(lia) Hw Hline) as Hruns.
  cbn [length app] in Hruns. change (Z.of_nat 0) with 0 in Hruns.
  rewrite Nat.sub_0_r in Hruns. cbn [app].
  rewrite Hruns; [| rewrite length_replicate; lia | lia |].
  2:{ rewrite <- Z.mul_succ_l. rewrite <- Nat2Z.inj_succ. exact Hmax. }
  clear Hruns.
  rewrite (app_assoc (concat (map runPixels line))).
  change (concat (map runPixels line)
          ++ replicate (Z.to_nat width
                        - length (concat (map runPixels line))) (-1))%list
    with (linePixels (Z.to_nat width) line).
  cbn [app decode].
  rewrite GoStringFacts.byteZ_Zbyte by (unfold is_byte; lia).
  cbn [Z.eqb Pos.eqb].
  destruct lines as [|line' lines'].
  - cbn. rewrite app_nil_r. reflexivity.
  - destruct (Z.eqb_spec (Z.of_nat (length (line' :: lines'))) 0) as [H0|_];
      [cbn in H0; lia|].
    rewrite IH; [| exact Hw | discriminate | exact Hlines | exact Hrs | lia].
    cbn [rev]. rewrite !map_app, !concat_app. cbn [map concat].
    rewrite app_nil_r, <- !app_assoc. reflexivity.
Qed.

Section DecodeFacts.
Context {E : Ebiten}.

Lemma store_pixels (l : list Z) i v l' :
  Forall pixel_value l -> pixel_value v ->
  store l i v = Ret l' ->
  Forall pixel_value l' /\ length l' = length l.
Proof.
  intros Hl Hv. unfold store.
  destruct ((i <? 0) || (Z.of_nat (length l) <=? i)); [discriminate|].
  intros [= <-]. split; [|apply length_insert].
  apply Forall_insert; assumption.
Qed.

Lemma transparentRun_pixels width x y n : forall ti l l',
  Forall pixel_value l ->
  transparentRun width x y n ti l = Ret l' ->
  Forall pixel_value l' /\ length l' = length l.
Proof.
  induction n as [|n IH]; intros ti l l' Hl; cbn [transparentRun].
  - intros [= <-]. split; [exact Hl | reflexivity].
  - destruct (store l _ (-1)) as [l1|] eqn:Hstore; [|discriminate].
    cbn. intros Hrun.
    assert (pixel_value (-1)) as Hv by (unfold pixel_value; lia).
    destruct (store_pixels _ _ _ _ Hl Hv Hstore) as [Hl1 Hlen1].
    destruct (IH _ _ _ Hl1 Hrun) as [Hl' Hlen']. split; [exact Hl'|].
    congruence.
Qed.

Lemma decode_pixel_values width data : forall pending bi x y l l',
  Forall pixel_value l ->
  decode width data pending bi x y l = Ret l' ->
  Forall pixel_value l' /\ length l' = length l.
Proof.
  induction data as [|c data IH]; intros pending bi x y l l' Hl;
    cbn [decode]; [discriminate|].
  destruct pending as [|pending].
  - destruct (byteZ c =? 128).
    + destruct (y =? 0).
      * intros [= <-]. split; [exact Hl | reflexivity].
      * apply IH, Hl.
    + destruct (0 <? Z.land (byteZ c) 128).
      * destruct (transparentRun _ _ _ _ _ _) as [l1|] eqn:Hrun;
          [|discriminate].
        cbn. intros Hrest.
        destruct (transparentRun_pixels _ _ _ _ _ _ _ Hl Hrun)
          as [Hl1 Hlen1].
        destruct (IH _ _ _ _ _ _ Hl1 Hrest) as [Hl' Hlen'].
        split; [exact Hl' | congruence].
      * destruct (byteZ c =? 0); apply IH, Hl.
  - destruct (store l _ (byteZ c)) as [l1|] eqn:Hstore; [|discriminate].
    cbn. intros Hrest.
    assert (pixel_value (byteZ c)) as Hc.
    { pose proof (GoStringFacts.byteZ_range c) as Hb.
      unfold is_byte in Hb. unfold pixel_value. lia. }
    destruct (store_pixels _ _ _ _ Hl Hc Hstore) as [Hl1 Hlen1].
    destruct pending;
      destruct (IH _ _ _ _ _ _ Hl1 Hrest) as [Hl' Hlen'];
      (split; [exact Hl' | congruence]).
Qed.

End DecodeFacts.

Lemma decode_lines_above (width : Z) (lines : list (list Run)) :
  forall y upper rest,
  0 <= width < 2 ^ 32 ->
  Z.of_nat (length lines) <= y ->
  Forall (Forall run_fits) lines ->
  Forall (fun line =>
            Z.of_nat (length (concat (map runPixels line))) <= width) lines ->
  (y + 1) * width <= 2 ^ 32 ->
  decode width (concat (map lineBytes lines) ++ rest)%list O 0 0 y
         (replicate (Z.to_nat (y + 1) * Z.to_nat width) (-1) ++ upper)%list
  = decode width rest O 0 0 (y - Z.of_nat (length lines))
      (replicate (Z.to_nat (y + 1 - Z.of_nat (length lines))
                  * Z.to_nat width) (-1)
       ++ concat (map (linePixels (Z.to_nat width)) (rev lines))
       ++ upper)%list.
Proof.
  induction lines as [|line lines IH];
    intros y upper rest Hw Hy Hfit Hroom Hmax.
  { cbn [length map concat rev app]. change (Z.of_nat 0) with 0.
    rewrite !Z.sub_0_r. reflexivity. }
  inversion Hfit as [|? ? Hline Hlines]; subst.
  inversion Hroom as [|? ? Hr Hrs]; subst.
  cbn [length map concat] in *.
  replace (Z.to_nat (y + 1) * Z.to_nat width)%nat
    with (Z.to_nat y * Z.to_nat width + Z.to_nat width)%nat by lia.
  rewrite replicate_add, <- app_assoc.
  unfold lineBytes at 1. rewrite <- !app_assoc.
  pose proof (decode_runs width line []
                (replicate (Z.to_nat y * Z.to_nat width) (-1)) upper
                ([Zbyte 128] ++ concat (map lineBytes lines) ++ rest)%list
                y ltac:(lia) Hw Hline) as Hruns.
  cbn [length app] in Hruns. change (Z.of_nat 0) with 0 in Hruns.
  rewrite Nat.sub_0_r in Hruns. cbn [app].
  rewrite Hruns; [| rewrite length_replicate; lia | lia | lia].
  clear Hruns.
  rewrite (app_assoc (concat (map runPixels line))).
  change (concat (map runPixels line)
          ++ replicate (Z.to_nat width
                        - length (concat (map runPixels line))) (-1))%list
    with (linePixels (Z.to_nat width) line).
  cbn [app decode].
  rewrite GoStringFacts.byteZ_Zbyte by (unfold is_byte; lia).
  cbn [Z.eqb Pos.eqb].
  destruct (Z.eqb_spec y 0) as [H0|_]; [lia|].
  replace (Z.to_nat y) with (Z.to_nat (y - 1 + 1)) by lia.
  rewrite IH; [| exact Hw | lia | exact Hlines | exact Hrs | lia].
  cbn [rev]. rewrite !map_app, !concat_app. cbn [map concat].
  rewrite app_nil_r, <- !app_assoc.
  replace (y - 1 - Z.of_nat (length lines))
    with (y - Z.of_nat (S (length lines))) by lia.
  replace (y - 1 + 1 - Z.of_nat (length lines))
    with (y + 1 - Z.of_nat (S (length lines))) by lia.
  reflexivity.
Qed.

Lemma frame_size (width : Z) (n : nat) :
  0 <= width -> width * Z.of_nat n < 2 ^ 32 ->
  Z.to_nat (mul32 width (Z.of_nat n)) = (n * Z.to_nat width)%nat.
Proof.
  intros Hw Hmax. unfold mul32, wrap, modulus.
  rewrite Z.mod_small.
  - rewrite Z2Nat.inj_mul, Nat2Z.id by lia. apply Nat.mul_comm.
  - split; [apply Z.mul_nonneg_nonneg; lia | exact Hmax].
Qed.

(** X26. A frame whose data holds its scan lines, each a sequence of
    runs that fit the width, ended by the byte 0x80: [renderImage] decodes
    the first scan line into the last row of [imageData] and the last one
    into the row 0; each pixel holds the byte that a run of pixels gives
    it, and -1 where a run leaves it transparent or the line ends before
    the width. Bytes after the last scan line are not read. *)
Theorem decodeFrame_scan_lines {E : Ebiten}
    (frame : DC6Frame) (lines : list (list Run)) (rest : list ascii) :
  FrameData frame = (concat (map lineBytes lines) ++ rest)%list ->
  Height frame = Z.of_nat (length lines) ->
  lines <> [] ->
  0 <= Width frame ->
  Height frame < 2 ^ 32 ->
  Width frame * Height frame < 2 ^ 32 ->
  Forall (Forall run_fits) lines ->
  Forall (fun line =>
            Z.of_nat (length (concat (map runPixels line))) <= Width frame)
         lines ->
  decodeFrame frame
  = Ret (concat (map (linePixels (Z.to_nat (Width frame))) (rev lines))).
Proof.
  intros Hdata Hheight Hne Hw Hh Hmax Hfit Hroom.
  assert (1 <= Z.of_nat (length lines)) as Hlen
    by (destruct lines; [congruence | cbn [length]; lia]).
  assert (Width frame <= Width frame * Height frame) as Hwidth.
  { rewrite <- (Z.mul_1_r (Width frame)) at 1.
    apply Z.mul_le_mono_nonneg_l; lia. }
  unfold decodeFrame. rewrite Hdata, Hheight in *.
  rewrite frame_size by lia.
  unfold wrap, modulus. rewrite Z.mod_small by lia.
  pose proof (decode_lines (Width frame) lines [] rest) as Hlines.
  rewrite !app_nil_r in Hlines. apply Hlines; try assumption; [lia|].
  rewrite Z.mul_comm. lia.
Qed.

(** Goals [Forall P l] on a list that is written out. *)
Ltac forall_tac :=
  repeat match goal with
         | |- Forall _ [] => apply List.Forall_nil
         | |- Forall _ (_ :: _) => apply List.Forall_cons
         end.

Lemma decodeFrame_scan_lines_witness :
  decodeFrame
    (SpriteFixture.frameOf (E := SpriteFixture.memory) 3 2
       (concat (map lineBytes SpriteFixture.twoLines) ++ [Zbyte 7])%list)
  = Ret [-1; 9; -1; 1; 2; 3].
Proof.
  apply (decodeFrame_scan_lines (E := SpriteFixture.memory)
           (SpriteFixture.frameOf 3 2
              (concat (map lineBytes SpriteFixture.twoLines)
               ++ [Zbyte 7])%list)
           SpriteFixture.twoLines [Zbyte 7]).
  - reflexivity.
  - reflexivity.
  - discriminate.
  - cbn. lia.
  - cbn. lia.
  - cbn. lia.
  - unfold SpriteFixture.twoLines. forall_tac; cbn; lia.
  - unfold SpriteFixture.twoLines.
    forall_tac; vm_compute; intro; discriminate.
Defined.

(** X27. A frame whose data ends before its last scan line does: when
    the data holds fewer scan lines than the height of the frame,
    [renderImage] reads beyond the end of the data and panics with an
    index out of range; it returns no part of the image. *)
Theorem decodeFrame_truncated {E : Ebiten}
    (frame : DC6Frame) (lines : list (list Run)) :
  FrameData frame = concat (map lineBytes lines) ->
  Z.of_nat (length lines) < Height frame < 2 ^ 32 ->
  0 <= Width frame ->
  Width frame * Height frame < 2 ^ 32 ->
  Forall (Forall run_fits) lines ->
  Forall (fun line =>
            Z.of_nat (length (concat (map runPixels line))) <= Width frame)
         lines ->
  decodeFrame frame = Panic "index out of range"
  /\ renderImage frame = Panic "index out of range".
Proof.
  intros Hdata Hheight Hw Hmax Hfit Hroom.
  assert (Width frame <= Width frame * Height frame) as Hwidth.
  { rewrite <- (Z.mul_1_r (Width frame)) at 1.
    apply Z.mul_le_mono_nonneg_l; lia. }
  assert (decodeFrame frame = Panic "index out of range") as Hdecode.
  { unfold decodeFrame. rewrite Hdata.
    rewrite <- (app_nil_r (concat (map lineBytes lines))).
    replace (Z.to_nat (mul32 (Width frame) (Height frame)))
      with (Z.to_nat (Height frame - 1 + 1) * Z.to_nat (Width frame))%nat.
    2:{ replace (Height frame - 1 + 1) with (Height frame) by lia.
        unfold mul32, wrap, modulus. rewrite Z.mod_small.
        - rewrite Z2Nat.inj_mul by lia. apply Nat.mul_comm.
        - split; [apply Z.mul_nonneg_nonneg; lia | exact Hmax]. }
    unfold wrap, modulus. rewrite Z.mod_small by lia.
    rewrite <- (app_nil_r (replicate _ (-1))).
    rewrite decode_lines_above; [reflexivity | lia | lia | assumption
                                 | assumption |].
    replace (Height frame - 1 + 1) with (Height frame) by lia.
    rewrite Z.mul_comm. lia. }
  split; [exact Hdecode|].
  unfold renderImage. rewrite Hdecode. reflexivity.
Qed.

Lemma decodeFrame_truncated_witness :
  renderImage
    (SpriteFixture.frameOf (E := SpriteFixture.memory) 3 3
       (concat (map lineBytes SpriteFixture.twoLines)))
  = Panic "index out of range".
Proof.
  apply (decodeFrame_truncated (E := SpriteFixture.memory)
           (SpriteFixture.frameOf 3 3
              (concat (map lineBytes SpriteFixture.twoLines)))
           SpriteFixture.twoLines).
  - reflexivity.
  - cbn. lia.
  - cbn. lia.
  - cbn. lia.
  - unfold SpriteFixture.twoLines. forall_tac; cbn; lia.
  - unfold SpriteFixture.twoLines.
    forall_tac; vm_compute; intro; discriminate.
Defined.

(* ===================================================================== *)
(** * From palette indices to an image                                    *)
(* ===================================================================== *)

(** The pixel pass over palette indices in the range of the decoder,
    with a palette of 256 colours: no index leaves the palette or the
    image, and the image holds the four bytes of each pixel in order. *)
Lemma colorize_rgba (pal : PaletteRec) (data : list Z) :
  forall (pre : list Z) (done : list ascii),
  Forall pixel_value data ->
  (256 <= length (Colors pal))%nat ->
  length done = (4 * length pre)%nat ->
  4 * Z.of_nat (length pre + length data) < 2 ^ 32 ->
  colorize pal (pre ++ data)%list (length data) (Z.of_nat (length pre))
           (done ++ replicate (4 * length data) zero)%list
  = Ret (done ++ concat (map (rgba pal) data))%list.
Proof.
  induction data as [|p data IH]; intros pre done Hdata Hpal Hdone Hmax.
  { cbn. reflexivity. }
  inversion Hdata as [|? ? Hp Hrest]; subst.
  cbn [length colorize map concat].
  rewrite index_app_at by reflexivity. cbn [mbind outcome_bind].
  replace (4 * S (length data))%nat with (4 + 4 * length data)%nat by lia.
  rewrite replicate_add. cbn [replicate app].
  assert (colorize pal (pre ++ p :: data)%list (length data)
            (Z.of_nat (length pre) + 1)
            ((done ++ rgba pal p) ++ replicate (4 * length data) zero)%list
          = Ret ((done ++ rgba pal p) ++ concat (map (rgba pal) data))%list)
    as Hnext.
  { change (pre ++ p :: data)%list with (pre ++ [p] ++ data)%list.
    rewrite app_assoc.
    replace (Z.of_nat (length pre) + 1)
      with (Z.of_nat (length (pre ++ [p]))) by (rewrite length_app; cbn; lia).
    apply IH; [exact Hrest | exact Hpal | |].
    - rewrite !length_app, Hdone. unfold rgba.
      destruct (p <? 1); [cbn [length]; lia|].
      destruct (Colors pal !! Z.to_nat p); cbn [length]; lia.
    - rewrite length_app. cbn [length] in *. lia. }
  unfold pixel_value in Hp.
  destruct (Z.ltb_spec p 1) as [Hlow|Hhigh].
  - unfold rgba in Hnext. destruct (Z.ltb_spec p 1); [|lia].
    rewrite <- !app_assoc in Hnext. cbn [app] in Hnext.
    unfold rgba. destruct (Z.ltb_spec p 1); [|lia]. exact Hnext.
  - destruct (Colors pal !! Z.to_nat p) as [c|] eqn:Hc.
    2:{ apply lookup_ge_None_1 in Hc. lia. }
    unfold index at 1. destruct (Z.ltb_spec p 0); [lia|]. rewrite Hc.
    cbn [mbind outcome_bind].
    rewrite mul32_4 by lia.
    rewrite !add32_small by lia.
    rewrite (store_middle done _ zero (R c)) by lia.
    cbn [mbind outcome_bind].
    change (done ++ R c :: zero :: zero :: zero
              :: replicate (4 * length data) zero)%list
      with (done ++ [R c] ++ zero :: zero :: zero
              :: replicate (4 * length data) zero)%list.
    rewrite (app_assoc done [R c]).
    rewrite (store_middle (done ++ [R c]) _ zero (G c))
      by (rewrite length_app; cbn; lia).
    cbn [mbind outcome_bind].
    change ((done ++ [R c]) ++ G c :: zero :: zero
              :: replicate (4 * length data) zero)%list
      with ((done ++ [R c]) ++ [G c] ++ zero :: zero
              :: replicate (4 * length data) zero)%list.
    rewrite (app_assoc (done ++ [R c]) [G c]).
    rewrite (store_middle ((done ++ [R c]) ++ [G c]) _ zero (B c))
      by (rewrite !length_app; cbn; lia).
    cbn [mbind outcome_bind].
    change (((done ++ [R c]) ++ [G c]) ++ B c :: zero
              :: replicate (4 * length data) zero)%list
      with (((done ++ [R c]) ++ [G c]) ++ [B c] ++ zero
              :: replicate (4 * length data) zero)%list.
    rewrite (app_assoc ((done ++ [R c]) ++ [G c]) [B c]).
    rewrite (store_middle (((done ++ [R c]) ++ [G c]) ++ [B c]) _ zero
               (Zbyte 255))
      by (rewrite !length_app; cbn; lia).
    cbn [mbind outcome_bind].
    unfold rgba in Hnext |- *. destruct (Z.ltb_spec p 1); [lia|].
    rewrite Hc in Hnext |- *.
    repeat (rewrite <- app_assoc in Hnext; cbn [app] in Hnext).
    repeat (rewrite <- app_assoc; cbn [app]).
    exact Hnext.
Qed.

Section RenderFacts.
Context {E : Ebiten}.

Lemma decodeFrame_pixels (frame : DC6Frame) (data : list Z) :
  decodeFrame frame = Ret data ->
  Forall pixel_value data
  /\ length data = Z.to_nat (mul32 (Width frame) (Height frame)).
Proof.
  unfold decodeFrame. intros Hdecode.
  apply decode_pixel_values in Hdecode as [Hvalues Hlen].
  - split; [exact Hvalues|]. rewrite Hlen. apply length_replicate.
  - apply Forall_replicate. unfold pixel_value. lia.
Qed.

Lemma decodeFrame_rendered (frame : DC6Frame) :
  FrameData frame = [] -> decodeFrame frame = Panic "index out of range".
Proof. unfold decodeFrame. intros ->. reflexivity. Qed.

End RenderFacts.

(** X28. Whatever the data of the frame, the palette indices that
    [renderImage] has decoded are as many as the frame has pixels, and each
    is -1 or the value of a byte. With a palette of 256 colours and fewer
    than 2^30 pixels, the pixel pass that follows does not panic: the image
    handed to ebiten holds four bytes a pixel, zeros for an index below 1
    (the colour 0 as well as -1) and otherwise the colour of the index and
    an alpha of 0xFF; the frame that [renderImage] leaves holds the
    indices, has no data any more, and is valid when [ReplacePixels]
    returns no error. *)
Theorem renderImage_after_decoding {E : Ebiten}
    (frame : DC6Frame) (data : list Z) :
  decodeFrame frame = Ret data ->
  (256 <= length (Colors (palette frame)))%nat ->
  mul32 (Width frame) (Height frame) < 2 ^ 30 ->
  Forall pixel_value data
  /\ length data = Z.to_nat (mul32 (Width frame) (Height frame))
  /\ renderImage frame
     = (err ← Image_ReplacePixels
                (ebiten_NewImage (Width frame) (Height frame))
                (concat (map (rgba (palette frame)) data));
        Ret {| Flipped := Flipped frame;
               Width := Width frame;
               Height := Height frame;
               OffsetX := OffsetX frame;
               OffsetY := OffsetY frame;
               Unknown := Unknown frame;
               NextBlock := NextBlock frame;
               Length := Length frame;
               FrameData := [];
               Terminator := Terminator frame;
               imageData := data;
               image := ebiten_NewImage (Width frame) (Height frame);
               palette := palette frame;
               valid := bool_decide (err = None) |}).
Proof.
  intros Hdecode Hpal Hsize.
  destruct (decodeFrame_pixels frame data Hdecode) as [Hvalues Hlen].
  split; [exact Hvalues|]. split; [exact Hlen|].
  assert (0 <= mul32 (Width frame) (Height frame)) as Hpos
    by (apply wrap_range).
  unfold renderImage. rewrite Hdecode. cbn [mbind outcome_bind].
  pose proof (colorize_rgba (palette frame) data [] [] Hvalues Hpal
                eq_refl) as Hcolor.
  cbn [app length] in Hcolor.
  replace (Z.to_nat (mul32 (Width frame) (Height frame) * 4))
    with (4 * length data)%nat by lia.
  rewrite <- Hlen. change (Z.of_nat 0) with 0 in Hcolor.
  rewrite Hcolor by lia. reflexivity.
Qed.

Lemma renderImage_after_decoding_witness :
  renderImage
    (SpriteFixture.frameOf (E := SpriteFixture.memory) 3 2
       (concat (map lineBytes SpriteFixture.twoLines)))
  = Ret (SpriteFixture.rendered SpriteFixture.memory
           (Some SpriteFixture.blank) true).
Proof.
  destruct (renderImage_after_decoding (E := SpriteFixture.memory)
              (SpriteFixture.frameOf 3 2
                 (concat (map lineBytes SpriteFixture.twoLines)))
              [-1; 9; -1; 1; 2; 3]
              ltac:(vm_compute; reflexivity)
              ltac:(vm_compute; lia)
              ltac:(vm_compute; reflexivity)) as (_ & _ & Hrender).
  rewrite Hrender. vm_compute. reflexivity.
Defined.

(** X29. A frame is rendered once. The frame that [renderImage] leaves
    has no data, so that rendering it again reads beyond the end of the
    data and panics. When ebiten has returned an image, [ImageData] and
    [Image] return what the frame holds and leave it as it is; when it has
    returned nil, they render again and panic. *)
Theorem renderImage_once {E : Ebiten} (frame frame' : DC6Frame) :
  renderImage frame = Ret frame' ->
  FrameData frame' = []
  /\ renderImage frame' = Panic "index out of range"
  /\ match image frame' with
     | Some _ =>
         ImageData frame' = Ret (imageData frame', frame')
         /\ Image frame' = Ret (image frame', frame')
     | None =>
         ImageData frame' = Panic "index out of range"
         /\ Image frame' = Panic "index out of range"
     end.
Proof.
  intros Hrender.
  assert (FrameData frame' = []) as Hdata.
  { revert Hrender. unfold renderImage.
    destruct (decodeFrame frame) as [data|]; [|discriminate].
    cbn [mbind outcome_bind].
    destruct (colorize _ _ _ _ _) as [img|]; [|discriminate].
    cbn [mbind outcome_bind].
    destruct (Image_ReplacePixels _ _) as [err|]; [|discriminate].
    cbn [mbind outcome_bind]. intros [= <-]. reflexivity. }
  assert (renderImage frame' = Panic "index out of range") as Hagain.
  { unfold renderImage. rewrite (decodeFrame_rendered frame' Hdata).
    reflexivity. }
  split; [exact Hdata|]. split; [exact Hagain|].
  unfold ImageData, Image.
  destruct (image frame') as [i|]; [split; reflexivity|].
  rewrite Hagain. split; reflexivity.
Qed.

Lemma renderImage_once_witness :
  renderImage
    (SpriteFixture.frameOf (E := SpriteFixture.imageless) 3 2
       (concat (map lineBytes SpriteFixture.twoLines)))
  = Ret (SpriteFixture.rendered SpriteFixture.imageless None false)
  /\ ImageData (SpriteFixture.rendered SpriteFixture.imageless None false)
     = Panic "index out of range".
Proof.
  assert (renderImage
            (SpriteFixture.frameOf (E := SpriteFixture.imageless) 3 2
               (concat (map lineBytes SpriteFixture.twoLines)))
          = Ret (SpriteFixture.rendered SpriteFixture.imageless None false))
    as Hrender by (vm_compute; reflexivity).
  split; [exact Hrender|].
  destruct (renderImage_once (E := SpriteFixture.imageless) _ _ Hrender)
    as (_ & _ & Hlazy).
  exact (proj1 Hlazy).
Defined.
